(** * convertshaders: the shader conversion pipeline of gio

    A shallow embedding of [internal/cmd/convertshaders/main.go]: the
    reflection parser ([parseReflection], [parseDataType]), the converters
    ([convertShader], [compileHLSL]) and the orchestrator ([generate]),
    followed by the properties the specification states about them.

    Conventions.
    - Go's [int] is the 64-bit two's complement integer; it is a [Z] and
      every addition wraps ([int.add]).
    - Go's [string] is [string], [[]byte] is [list byte], an [error] is its
      message.
    - Functions of Go's standard library that the program calls but does not
      define ([json.Unmarshal], [sort.Slice], [filepath.Ext], ...) are
      variables of the section [Pipeline]; what the proofs need of them is a
      hypothesis of that section.
    - Calls that reach outside the process (files, subprocesses) are events
      of the program monad [Prog]; their answers are chosen by the
      environment. *)

From Stdlib Require Import ZArith List Bool Lia.
From Stdlib.Strings Require Import String Ascii Byte.
From Stdlib Require Import Permutation Sorted DecimalString.
Import ListNotations.
Local Open Scope Z_scope.

Infix "+++" := String.append (at level 60, right associativity).

(** ** Errors and results *)

Definition error := string.

Inductive result (A : Type) : Type :=
| Ok (a : A)
| Err (e : error).
Arguments Ok {A} a.
Arguments Err {A} e.

(** ** Go's [int] *)

Module int.
Definition min : Z := - 2 ^ 63.
Definition max : Z := 2 ^ 63 - 1.

Definition in_range (z : Z) : Prop := min <= z <= max.

(** The representative of [z] modulo 2^64 in the signed range. *)
Definition wrap (z : Z) : Z := (z + 2 ^ 63) mod 2 ^ 64 - 2 ^ 63.

(** [a + b] on [int]. *)
Definition add (a b : Z) : Z := wrap (a + b).

(** The value of [s := 0; for _, x := range l { s += x }]. *)
Definition sum (l : list Z) : Z := fold_left add l 0.

(** [%d]: the decimal digits, with a minus sign below zero. *)
Definition itoa (z : Z) : string := NilZero.string_of_int (Z.to_int z).
End int.

(** ** The types of package [gioui.org/gpu/backend] *)

Module backend.

(** Modelled from the spec: the declaration of [backend.DataType] is in
    package gioui.org/gpu/backend; the program names two of its constants,
    the kinds of the canonical type. *)
Inductive DataType : Type :=
| DataTypeFloat
| DataTypeInt.

(** Modelled from the spec: the declaration of [backend.InputLocation] is
    in package gioui.org/gpu/backend; the fields are the ones
    [parseReflection] fills: name, location, semantic, semantic index,
    canonical type, component count. *)
Module InputLocation.
Record t : Type := mk {
  Name : string;
  Location : Z;
  Semantic : string;
  SemanticIndex : Z;
  Type_ : DataType;
  Size : Z
}.
End InputLocation.

(** Modelled from the spec: [backend.UniformBlock], declared in package
    gioui.org/gpu/backend: name and binding index. *)
Module UniformBlock.
Record t : Type := mk {
  Name : string;
  Binding : Z
}.
End UniformBlock.

(** Modelled from the spec: [backend.UniformLocation], declared in package
    gioui.org/gpu/backend: synthesized name, canonical type, component
    count, byte offset. *)
Module UniformLocation.
Record t : Type := mk {
  Name : string;
  Type_ : DataType;
  Size : Z;
  Offset : Z
}.
End UniformLocation.

(** Modelled from the spec: [backend.UniformsReflection], declared in
    package gioui.org/gpu/backend: blocks, locations, total size. *)
Module UniformsReflection.
Record t : Type := mk {
  Blocks : list UniformBlock.t;
  Locations : list UniformLocation.t;
  Size : Z
}.
End UniformsReflection.

(** Modelled from the spec: [backend.TextureBinding], declared in package
    gioui.org/gpu/backend: name and binding index. *)
Module TextureBinding.
Record t : Type := mk {
  Name : string;
  Binding : Z
}.
End TextureBinding.

(** Modelled from the spec: [backend.ShaderSources], declared in package
    gioui.org/gpu/backend. [HLSL] is a byte slice that may be nil: [None]
    is the nil slice, the value of a slice variable nothing was assigned
    to. The HLSL text is not a field of it: [generate] keeps it beside the
    record ([variant]). *)
Module ShaderSources.
Record t : Type := mk {
  GLSL100ES : string;
  GLSL300ES : string;
  HLSL : option (list byte);
  Uniforms : UniformsReflection.t;
  Inputs : list InputLocation.t;
  Textures : list TextureBinding.t
}.

(** The zero value, [backend.ShaderSources{}]. *)
Definition zero : t :=
  mk EmptyString EmptyString None (UniformsReflection.mk [] [] 0) [] [].

Definition set_Inputs (s : t) (v : list InputLocation.t) : t :=
  mk (GLSL100ES s) (GLSL300ES s) (HLSL s) (Uniforms s) v (Textures s).
Definition set_Textures (s : t) (v : list TextureBinding.t) : t :=
  mk (GLSL100ES s) (GLSL300ES s) (HLSL s) (Uniforms s) (Inputs s) v.
Definition set_Blocks (s : t) (v : list UniformBlock.t) : t :=
  mk (GLSL100ES s) (GLSL300ES s) (HLSL s)
     (UniformsReflection.mk v (UniformsReflection.Locations (Uniforms s))
                            (UniformsReflection.Size (Uniforms s)))
     (Inputs s) (Textures s).
Definition set_Locations (s : t) (v : list UniformLocation.t) : t :=
  mk (GLSL100ES s) (GLSL300ES s) (HLSL s)
     (UniformsReflection.mk (UniformsReflection.Blocks (Uniforms s)) v
                            (UniformsReflection.Size (Uniforms s)))
     (Inputs s) (Textures s).
Definition set_Size (s : t) (v : Z) : t :=
  mk (GLSL100ES s) (GLSL300ES s) (HLSL s)
     (UniformsReflection.mk (UniformsReflection.Blocks (Uniforms s))
                            (UniformsReflection.Locations (Uniforms s)) v)
     (Inputs s) (Textures s).
Definition set_GLSL100ES (s : t) (v : string) : t :=
  mk v (GLSL300ES s) (HLSL s) (Uniforms s) (Inputs s) (Textures s).
Definition set_GLSL300ES (s : t) (v : string) : t :=
  mk (GLSL100ES s) v (HLSL s) (Uniforms s) (Inputs s) (Textures s).
Definition set_HLSL (s : t) (v : option (list byte)) : t :=
  mk (GLSL100ES s) (GLSL300ES s) v (Uniforms s) (Inputs s) (Textures s).
End ShaderSources.

End backend.

(** ** The reflection document

    The types [parseReflection] declares for the decoded JSON. *)

Module InputReflection.
Record t : Type := mk {
  ID : Z;
  Name : string;
  Location : Z;
  Semantic : string;
  SemanticIndex : Z;
  Type_ : string
}.
End InputReflection.

Module UniformMemberReflection.
Record t : Type := mk {
  Name : string;
  Type_ : string;
  Offset : Z;
  Size : Z
}.
End UniformMemberReflection.

Module UniformBufferReflection.
Record t : Type := mk {
  ID : Z;
  Name : string;
  Set_ : Z;
  Binding : Z;
  Size : Z;
  Members : list UniformMemberReflection.t
}.
End UniformBufferReflection.

Module TextureReflection.
Record t : Type := mk {
  ID : Z;
  Name : string;
  Set_ : Z;
  Binding : Z;
  Dimension : string;
  Format : string
}.
End TextureReflection.

Module shaderReflection.
Record t : Type := mk {
  Inputs : list InputReflection.t;
  UniformBuffers : list UniformBufferReflection.t;
  Textures : list TextureReflection.t
}.
End shaderReflection.

Module shaderMetadata.
Record t : Type := mk {
  VS : shaderReflection.t;
  FS : shaderReflection.t
}.
End shaderMetadata.

Import backend.

(** ** The type and size mapper *)

Definition parseDataType (t : string) : result (DataType * Z) :=
  if String.eqb t "float" then Ok (DataTypeFloat, 1)
  else if String.eqb t "float2" then Ok (DataTypeFloat, 2)
  else if String.eqb t "float3" then Ok (DataTypeFloat, 3)
  else if String.eqb t "float4" then Ok (DataTypeFloat, 4)
  else if String.eqb t "int" then Ok (DataTypeInt, 1)
  else if String.eqb t "int2" then Ok (DataTypeInt, 2)
  else if String.eqb t "int3" then Ok (DataTypeInt, 3)
  else if String.eqb t "int4" then Ok (DataTypeInt, 4)
  else Err ("unsupported input data type: " +++ t).

(** ** The reflection parser *)

(** [fmt.Errorf("parseReflection: %v", err)]. *)
Definition parseReflection_error (err : error) : error :=
  "parseReflection: " +++ err.

(** The [less] of the call of [sort.Slice], on the elements at the two
    indices. *)
Definition less (a b : InputLocation.t) : bool :=
  InputLocation.Location a <? InputLocation.Location b.

(** [for _, input := range inputRef]: appends to [info.Inputs]; an
    unmappable type returns at once, with the inputs appended so far left in
    [info]. *)
Fixpoint inputLoop (inputRef : list InputReflection.t) (info : ShaderSources.t)
  : option error * ShaderSources.t :=
  match inputRef with
  | [] => (None, info)
  | input :: rest =>
      match parseDataType (InputReflection.Type_ input) with
      | Err err => (Some (parseReflection_error err), info)
      | Ok (dataType, dataSize) =>
          inputLoop rest
            (ShaderSources.set_Inputs info
               (ShaderSources.Inputs info ++
                [InputLocation.mk (InputReflection.Name input)
                                  (InputReflection.Location input)
                                  (InputReflection.Semantic input)
                                  (InputReflection.SemanticIndex input)
                                  dataType dataSize]))
      end
  end.

(** [fmt.Sprintf("_%d.%s", block.ID, member.Name)]. *)
Definition uniformName (block : UniformBufferReflection.t)
                       (member : UniformMemberReflection.t) : string :=
  "_" +++ int.itoa (UniformBufferReflection.ID block) +++ "." +++
  UniformMemberReflection.Name member.

(** [for _, member := range block.Members]. *)
Fixpoint memberLoop (block : UniformBufferReflection.t) (blockOffset : Z)
                    (members : list UniformMemberReflection.t)
                    (info : ShaderSources.t)
  : option error * ShaderSources.t :=
  match members with
  | [] => (None, info)
  | member :: rest =>
      match parseDataType (UniformMemberReflection.Type_ member) with
      | Err err => (Some (parseReflection_error err), info)
      | Ok (dataType, size) =>
          memberLoop block blockOffset rest
            (ShaderSources.set_Locations info
               (UniformsReflection.Locations (ShaderSources.Uniforms info) ++
                [UniformLocation.mk
                   (uniformName block member) dataType size
                   (int.add blockOffset (UniformMemberReflection.Offset member))]))
      end
  end.

(** [for _, block := range shaderBlocks], with the running [blockOffset]. *)
Fixpoint blockLoop (shaderBlocks : list UniformBufferReflection.t)
                   (blockOffset : Z) (info : ShaderSources.t)
  : option error * (Z * ShaderSources.t) :=
  match shaderBlocks with
  | [] => (None, (blockOffset, info))
  | block :: rest =>
      let info :=
        ShaderSources.set_Blocks info
          (UniformsReflection.Blocks (ShaderSources.Uniforms info) ++
           [UniformBlock.mk (UniformBufferReflection.Name block)
                            (UniformBufferReflection.Binding block)]) in
      match memberLoop block blockOffset (UniformBufferReflection.Members block) info with
      | (Some err, info) => (Some err, (blockOffset, info))
      | (None, info) =>
          blockLoop rest (int.add blockOffset (UniformBufferReflection.Size block)) info
      end
  end.

(** [for _, texture := range textures]. *)
Fixpoint textureLoop (textures : list TextureReflection.t) (info : ShaderSources.t)
  : ShaderSources.t :=
  match textures with
  | [] => info
  | texture :: rest =>
      textureLoop rest
        (ShaderSources.set_Textures info
           (ShaderSources.Textures info ++
            [TextureBinding.mk (TextureReflection.Name texture)
                               (TextureReflection.Binding texture)]))
  end.

(** [x := vs; if len(x) == 0 { x = fs }]. *)
Definition orElse {A : Type} (vs fs : list A) : list A :=
  match vs with
  | [] => fs
  | _ :: _ => vs
  end.

(** Shorthands for the fields of a [backend.ShaderSources]. *)
Abbreviation zero := ShaderSources.zero.
Abbreviation Inputs := ShaderSources.Inputs.
Abbreviation Textures := ShaderSources.Textures.
Abbreviation Blocks s := (UniformsReflection.Blocks (ShaderSources.Uniforms s)).
Abbreviation Locations s := (UniformsReflection.Locations (ShaderSources.Uniforms s)).
Abbreviation USize s := (UniformsReflection.Size (ShaderSources.Uniforms s)).

(** ** The world outside the process

    The calls of [generate], [convertShader] and [compileHLSL] that reach
    the file system, a subprocess or a library whose answer the program does
    not determine; the environment chooses the response of each. *)

(** A [*template.Template] and an [*os.File]: handles the environment gives
    out. The name of an open file is the name it was opened under. *)
Definition Template := nat.
Definition File := nat.

Record shaderArgs : Type := mkArgs {
  FetchColorExpr : string;
  Header : string
}.

(** An operand of [fmt.Fprintf]. *)
Inductive operand : Type :=
| AString (s : string)
| AInt (n : Z)
| AInputs (l : list InputLocation.t)
| ABlocks (l : list UniformBlock.t)
| ALocations (l : list UniformLocation.t)
| ATextures (l : list TextureBinding.t)
| ABytes (b : option (list byte)).

(** One write into a [bytes.Buffer]. *)
Inductive write : Type :=
| WriteString (s : string)
| Fprintf (format : string) (operands : list operand).

(** The content of a [bytes.Buffer]: its writes, oldest first. How [fmt]
    renders a verb is not modelled, so the bytes of the buffer are kept as
    the writes that make them. *)
Definition Buffer := list write.

Inductive Event : Type :=
| ioutil_TempDir (dir pattern : string)
| os_RemoveAll (path : string)
| exec_LookPath (file : string)
| filepath_Glob (pattern : string)
| template_ParseFiles (filename : string)
| template_Execute (t : Template) (data : shaderArgs)
| ioutil_WriteFile (filename : string) (data : list byte)
| os_Remove (name : string)
| cmd_Run (name : string) (arg : list string)
| os_Open (name : string)
| file_Close (f : File)
| ioutil_ReadAll (f : File)
| ioutil_ReadFile (filename : string)
| format_Source (src : Buffer).

(** What each call returns. [template_Execute] returns what it wrote into
    its buffer; [cmd_Run] is [exec.Command(name, arg...).Run()]. *)
Definition Response (e : Event) : Type :=
  match e with
  | ioutil_TempDir _ _ => result string
  | os_RemoveAll _ => option error
  | exec_LookPath _ => result string
  | filepath_Glob _ => result (list string)
  | template_ParseFiles _ => result Template
  | template_Execute _ _ => result (list byte)
  | ioutil_WriteFile _ _ => option error
  | os_Remove _ => option error
  | cmd_Run _ _ => option error
  | os_Open _ => result File
  | file_Close _ => option error
  | ioutil_ReadAll _ => result (list byte)
  | ioutil_ReadFile _ => result (list byte)
  | format_Source _ => result (list byte)
  end.

(** The functions of this program that [generate] calls for each variant. *)
Inductive stage : Type :=
| ConvertShader
| ParseReflection
| CompileHLSL.

(** ** Programs

    A program returns, or calls the environment and goes on with the
    response, or notes that a call of one of the stages has returned, with
    its error. The notes are not calls: they are there to be read off the
    trace of a run. *)
Inductive Prog (A : Type) : Type :=
| Ret (a : A)
| Vis (e : Event) (k : Response e -> Prog A)
| Note (f : stage) (err : option error) (k : Prog A).
Arguments Ret {A} a.
Arguments Vis {A} e k.
Arguments Note {A} f err k.

Fixpoint bind {A B : Type} (p : Prog A) (k : A -> Prog B) : Prog B :=
  match p with
  | Ret a => k a
  | Vis e h => Vis e (fun x => bind (h x) k)
  | Note f err h => Note f err (bind h k)
  end.

Definition call (e : Event) : Prog (Response e) := Vis e Ret.

Notation "x <- p ;; k" := (bind p (fun x => k))
  (at level 61, p at next level, right associativity).
Notation "' pat <- p ;; k" := (bind p (fun x => match x with pat => k end))
  (at level 61, pat pattern, p at next level, right associativity).

(** [defer d; body]: [d] runs when [body] has returned, whatever it
    returned; what [d] returns is dropped. *)
Definition defer {A : Type} (d : Event) (body : Prog A) : Prog A :=
  a <- body ;; _ <- call d ;; Ret a.

Definition error_of {A : Type} (r : result A) : option error :=
  match r with
  | Ok _ => None
  | Err err => Some err
  end.

(** A call of the stage [f]. *)
Definition staged {A : Type} (f : stage) (p : Prog (result A)) : Prog (result A) :=
  r <- p ;; Note f (error_of r) (Ret r).

(** ** Runs *)

(** One step of a run, as the trace records it. *)
Inductive entry : Type :=
| Called (e : Event) (x : Response e)
| Returned (f : stage) (err : option error).

(** The environment: a state and what it answers to each call. *)
Definition handler (W : Type) : Type :=
  forall e : Event, W -> Response e * W.

Fixpoint run {W A : Type} (h : handler W) (p : Prog A) (w : W)
  : A * W * list entry :=
  match p with
  | Ret a => (a, w, [])
  | Vis e k =>
      let '(x, w) := h e w in
      let '(a, w, tr) := run h (k x) w in
      (a, w, Called e x :: tr)
  | Note f err k =>
      let '(a, w, tr) := run h k w in
      (a, w, Returned f err :: tr)
  end.

(** The value and the trace of a run. *)
Definition value {W A : Type} (r : A * W * list entry) : A := fst (fst r).
Definition trace {W A : Type} (r : A * W * list entry) : list entry := snd r.

(** * Reference implementations

    Implementations of the library functions the program is parametrised
    by, and environments to run it in; the examples that close the file use
    them. *)

Module Ref.

Local Open Scope string_scope.

(** [sort.Slice] by insertion. *)
Fixpoint insert {A : Type} (lt : A -> A -> bool) (x : A) (l : list A) : list A :=
  match l with
  | [] => [x]
  | y :: rest => if lt x y then x :: y :: rest else y :: insert lt x rest
  end.

Definition sort_Slice (A : Type) (l : list A) (lt : A -> A -> bool) : list A :=
  fold_right (insert lt) [] l.

(** [filepath.Ext]: the suffix of the last element of the path that starts
    at its last dot. [cur] is that suffix for the characters read so far. *)
Fixpoint ext_from (s cur : string) : string :=
  match s with
  | EmptyString => cur
  | String c rest =>
      if Ascii.eqb c "/" then ext_from rest EmptyString
      else if Ascii.eqb c "." then ext_from rest s
      else ext_from rest cur
  end.

Definition filepath_Ext (path : string) : string := ext_from path EmptyString.

(** [filepath.Base], for a path that does not end with a separator: what
    follows the last separator. *)
Fixpoint base_from (s cur : string) : string :=
  match s with
  | EmptyString => cur
  | String c rest => if Ascii.eqb c "/" then base_from rest rest else base_from rest cur
  end.

Definition filepath_Base (path : string) : string := base_from path path.

(** [filepath.Join] of two clean, non-empty elements. *)
Definition filepath_Join (dir elem : string) : string := dir +++ "/" +++ elem.

(** [strings.ReplaceAll] for an [old] of one character. *)
Fixpoint replace_char (old : ascii) (new s : string) : string :=
  match s with
  | EmptyString => EmptyString
  | String c rest =>
      if Ascii.eqb c old then new +++ replace_char old new rest
      else String c (replace_char old new rest)
  end.

Definition strings_ReplaceAll (s old new : string) : string :=
  match old with
  | String c EmptyString => replace_char c new s
  | _ => s
  end.

(** Reflection documents. *)

Definition position : InputReflection.t :=
  InputReflection.mk 0 "pos" 0 "POSITION" 0 "float2".
Definition uv : InputReflection.t :=
  InputReflection.mk 1 "uv" 1 "TEXCOORD" 0 "float2".

Definition block : UniformBufferReflection.t :=
  UniformBufferReflection.mk 12 "Block" 0 0 32
    [UniformMemberReflection.mk "transform" "float4" 0 16;
     UniformMemberReflection.mk "uvScale" "float2" 16 8].
Definition color : UniformBufferReflection.t :=
  UniformBufferReflection.mk 30 "Color" 0 1 16
    [UniformMemberReflection.mk "_color" "float4" 0 16].

Definition tex : TextureReflection.t :=
  TextureReflection.mk 7 "tex" 0 0 "2d" "float".

(** A vertex stage with two inputs, the second first, and two blocks; the
    fragment stage has a block and a texture. *)
Definition doc_vertex : shaderMetadata.t :=
  shaderMetadata.mk (shaderReflection.mk [uv; position] [block; color] [])
                    (shaderReflection.mk [] [color] [tex]).

(** The same with the blocks of the vertex stage in the fragment stage. *)
Definition doc_fragment : shaderMetadata.t :=
  shaderMetadata.mk (shaderReflection.mk [uv; position] [] [])
                    (shaderReflection.mk [] [block; color] [tex]).

(** [doc_fragment] with its blocks in the vertex stage too. *)
Definition doc_fragment_in_vertex : shaderMetadata.t :=
  shaderMetadata.mk (shaderReflection.mk [uv; position] [block; color] [])
                    (shaderReflection.mk [] [block; color] [tex]).

(** An input of a type that is not supported. *)
Definition doc_double : shaderMetadata.t :=
  shaderMetadata.mk
    (shaderReflection.mk [InputReflection.mk 0 "pos" 0 "POSITION" 0 "double"] [] [])
    (shaderReflection.mk [] [] []).

(** A decoder for these documents: each is the content of the file of its
    name, and any other content is malformed. *)
Definition json_Unmarshal (data : list byte) : result shaderMetadata.t :=
  let name := string_of_list_byte data in
  if String.eqb name "vertex.json" then Ok doc_vertex
  else if String.eqb name "fragment.json" then Ok doc_fragment
  else if String.eqb name "fragment_in_vertex.json" then Ok doc_fragment_in_vertex
  else if String.eqb name "double.json" then Ok doc_double
  else Err "invalid character".

Definition bytes (s : string) : list byte := list_byte_of_string s.

(** Environments. The state is the profile of the last conversion: what
    [glslcc] leaves in the scratch directory depends on it. *)

Definition profile_of (arg : list string) : string := nth 8 arg EmptyString.

(** An environment in which everything succeeds, except that [fxc] is found
    only if [fxc] is set, and that the reflection of a shader is the
    document named [reflection]. The shader does not use the arguments of
    the variants: the sources of the two variants are the same. *)
Definition env (fxc : bool) (reflection : string) : handler string :=
  fun e =>
    match e as e0 return string -> Response e0 * string with
    | ioutil_TempDir _ _ => fun w => (Ok "/tmp/shader-convert042"%string, w)
    | os_RemoveAll _ => fun w => (None, w)
    | exec_LookPath file =>
        fun w =>
          (if String.eqb file "fxc" && negb fxc
           then Err "executable file not found in $PATH"%string
           else Ok ("/usr/bin/" +++ file), w)
    | filepath_Glob _ => fun w => (Ok ["shaders/blit.frag"%string], w)
    | template_ParseFiles _ => fun w => (Ok 0%nat, w)
    | template_Execute _ _ => fun w => (Ok (bytes "void main() {}"), w)
    | ioutil_WriteFile _ _ => fun w => (None, w)
    | os_Remove _ => fun w => (None, w)
    | cmd_Run _ arg => fun w => (None, profile_of arg)
    | os_Open _ => fun w => (Ok 3%nat, w)
    | file_Close _ => fun w => (None, w)
    | ioutil_ReadAll _ => fun w => (Ok (bytes ("// profile " +++ w)), w)
    | ioutil_ReadFile filename =>
        fun w =>
          (if String.eqb filename "/tmp/shader-convert042/shader.bin"
           then Ok (bytes "DXBC")
           else Ok (bytes reflection), w)
    | format_Source _ => fun w => (Ok (bytes "package shaders"), w)
    end.

End Ref.

(** Further documents and environments. A document whose second input has
    the type [double], and a decoder that reads it from any data. *)
Definition doc_mixed : shaderMetadata.t :=
  shaderMetadata.mk
    (shaderReflection.mk
       [Ref.uv; InputReflection.mk 2 "depth" 2 "TEXCOORD" 1 "double"; Ref.position]
       [Ref.block] [])
    (shaderReflection.mk [] [] [Ref.tex]).

Definition decode_mixed (data : list byte) : result shaderMetadata.t := Ok doc_mixed.

(** An environment in which the run of [glslcc] fails, one without
    [glslcc], and one without shaders. *)
Definition env_failing_run : handler string :=
  fun e =>
    match e as e0 return string -> Response e0 * string with
    | cmd_Run _ _ => fun w => (Some "exit status 1"%string, w)
    | e0 => Ref.env true "vertex.json" e0
    end.

Definition env_without_glslcc : handler string :=
  fun e =>
    match e as e0 return string -> Response e0 * string with
    | exec_LookPath file =>
        fun w =>
          (if String.eqb file "glslcc"
           then Err "executable file not found in $PATH"%string
           else Ok ("/usr/bin/" +++ file), w)
    | e0 => Ref.env true "vertex.json" e0
    end.

Definition env_without_shaders : handler string :=
  fun e =>
    match e as e0 return string -> Response e0 * string with
    | filepath_Glob _ => fun w => (Ok [], w)
    | e0 => Ref.env true "vertex.json" e0
    end.

(** * The package [layout]

    [src/ui/layout/layout.go]. A Go [int] is a [Z] with the wrap-around of
    its arithmetic written out, as above; a [uint8] enumeration is a [Z]
    with its constants. *)

Module layout.

(** [a - b] on [int]. *)
Definition sub (a b : Z) : Z := int.wrap (a - b).

(** [image.Point] of the Go library, and its method [Add]. *)
Module Point.
Record t : Type := mk { X : Z; Y : Z }.

Definition Add (p q : t) : t := mk (int.add (X p) (X q)) (int.add (Y p) (Y q)).
End Point.

(** What this file uses of the package [ui]: the operations it adds to a
    list of operations, in the order of the calls, and the method [Px] of
    the interface [ui.Config]. Modelled from their use in [layout.go]. *)
Module ui.
Inductive op : Type :=
| StackOp_Push
| StackOp_Pop
| TransformOp_Offset (p : Point.t)
| MacroOp_Record
| MacroOp_Stop
| MacroOp_Add.

Definition Ops : Type := list op.

Record Config (Value : Type) : Type := mkConfig { Px : Value -> Z }.
Arguments mkConfig {Value} Px.
Arguments Px {Value} _ _.
End ui.

Module Constraint.
Record t : Type := mk { Min : Z; Max : Z }.

Definition Constrain (c : t) (v : Z) : Z :=
  if v <? Min c then Min c
  else if v >? Max c then Max c
  else v.
End Constraint.

Module Constraints.
Record t : Type := mk { Width : Constraint.t; Height : Constraint.t }.

Definition Constrain (c : t) (size : Point.t) : Point.t :=
  Point.mk (Constraint.Constrain (Width c) (Point.X size))
           (Constraint.Constrain (Height c) (Point.Y size)).
End Constraints.

Module Dimensions.
Record t : Type := mk { Size : Point.t; Baseline : Z }.

(** [Dimensions{}]. *)
Definition zero : t := mk (Point.mk 0 0) 0.
End Dimensions.

Definition RigidConstraints (size : Point.t) : Constraints.t :=
  Constraints.mk (Constraint.mk (Point.X size) (Point.X size))
                 (Constraint.mk (Point.Y size) (Point.Y size)).

(** The constants of [Alignment], [Direction] and [Axis], and their methods
    [String], which return nothing where the source panics. *)
Module Alignment.
Definition Start : Z := 0.
Definition End_ : Z := 1.
Definition Middle : Z := 2.
Definition Baseline : Z := 3.

Definition String (a : Z) : option string :=
  if a =? Start then Some "Start"%string
  else if a =? End_ then Some "End"%string
  else if a =? Middle then Some "Middle"%string
  else if a =? Baseline then Some "Baseline"%string
  else None.
End Alignment.

Module Direction.
Definition NW : Z := 0.
Definition N : Z := 1.
Definition NE : Z := 2.
Definition E : Z := 3.
Definition SE : Z := 4.
Definition S : Z := 5.
Definition SW : Z := 6.
Definition W : Z := 7.
Definition Center : Z := 8.

Definition String (d : Z) : option string :=
  if d =? NW then Some "NW"%string
  else if d =? N then Some "N"%string
  else if d =? NE then Some "NE"%string
  else if d =? E then Some "E"%string
  else if d =? SE then Some "SE"%string
  else if d =? S then Some "S"%string
  else if d =? SW then Some "SW"%string
  else if d =? W then Some "W"%string
  else if d =? Center then Some "Center"%string
  else None.
End Direction.

Module Axis.
Definition Horizontal : Z := 0.
Definition Vertical : Z := 1.

Definition String (a : Z) : option string :=
  if a =? Horizontal then Some "Horizontal"%string
  else if a =? Vertical then Some "Vertical"%string
  else None.
End Axis.

(** A [Context]: its constraints and dimensions, its [ui.Config] and the
    operations of its [*ui.Ops]. Its [ui.Queue], which no function of the
    file reads, is left out. A [Widget], a [func()] that acts on the
    context it has captured, is a function on contexts. *)
Module Context.
Record t (Value : Type) : Type := mk {
  Constraints : Constraints.t;
  Dimensions : Dimensions.t;
  Config : ui.Config Value;
  Ops : ui.Ops
}.
Arguments mk {Value} Constraints Dimensions Config Ops.
Arguments Constraints {Value} _.
Arguments Dimensions {Value} _.
Arguments Config {Value} _.
Arguments Ops {Value} _.

Definition set_Constraints {Value : Type} (c : t Value) (cs : Constraints.t) : t Value :=
  mk cs (Dimensions c) (Config c) (Ops c).

Definition set_Dimensions {Value : Type} (c : t Value) (dims : Dimensions.t) : t Value :=
  mk (Constraints c) dims (Config c) (Ops c).

(** An operation is added to the list of the context. *)
Definition add {Value : Type} (o : ui.op) (c : t Value) : t Value :=
  mk (Constraints c) (Dimensions c) (Config c) (Ops c ++ [o]).

(** [gtx.Px(v)], the method of the embedded [ui.Config]. *)
Definition Px {Value : Type} (c : t Value) (v : Value) : Z := ui.Px (Config c) v.

Definition Layout {Value : Type} (cs : layout.Constraints.t) (w : t Value -> t Value)
    (s : t Value) : layout.Dimensions.t * t Value :=
  let saved := Constraints s in
  let s := set_Constraints s cs in
  let s := set_Dimensions s Dimensions.zero in
  let s := w s in
  let s := set_Constraints s saved in
  (Dimensions s, s).

(** [Reset]: the list of operations, made if there was none, is emptied. *)
Definition Reset {Value : Type} (cfg : ui.Config Value) (cs : layout.Constraints.t)
    (c : t Value) : t Value :=
  mk cs Dimensions.zero cfg [].
End Context.

Definition Widget (Value : Type) : Type := Context.t Value -> Context.t Value.

Module Inset.
Record t (Value : Type) : Type := mk { Top : Value; Right : Value; Bottom : Value; Left : Value }.
Arguments mk {Value} Top Right Bottom Left.
Arguments Top {Value} _.
Arguments Right {Value} _.
Arguments Bottom {Value} _.
Arguments Left {Value} _.

(** The constraints [mcs] that [Layout] makes for the widget. *)
Definition mcs {Value : Type} (in_ : t Value) (gtx : Context.t Value) : Constraints.t :=
  let top := Context.Px gtx (Top in_) in
  let right := Context.Px gtx (Right in_) in
  let bottom := Context.Px gtx (Bottom in_) in
  let left := Context.Px gtx (Left in_) in
  let cs := Context.Constraints gtx in
  let wmin := sub (Constraint.Min (Constraints.Width cs)) (int.add left right) in
  let wmax := sub (Constraint.Max (Constraints.Width cs)) (int.add left right) in
  let wmin := if wmin <? 0 then 0 else wmin in
  let wmax := if wmax <? wmin then wmin else wmax in
  let hmin := sub (Constraint.Min (Constraints.Height cs)) (int.add top bottom) in
  let hmax := sub (Constraint.Max (Constraints.Height cs)) (int.add top bottom) in
  let hmin := if hmin <? 0 then 0 else hmin in
  let hmax := if hmax <? hmin then hmin else hmax in
  Constraints.mk (Constraint.mk wmin wmax) (Constraint.mk hmin hmax).

Definition Layout {Value : Type} (in_ : t Value) (w : Widget Value)
    (gtx : Context.t Value) : Context.t Value :=
  let top := Context.Px gtx (Top in_) in
  let right := Context.Px gtx (Right in_) in
  let bottom := Context.Px gtx (Bottom in_) in
  let left := Context.Px gtx (Left in_) in
  let mcs := mcs in_ gtx in
  let gtx := Context.add ui.StackOp_Push gtx in
  let gtx := Context.add (ui.TransformOp_Offset (Point.mk left top)) gtx in
  let '(dims, gtx) := Context.Layout mcs w gtx in
  let gtx := Context.add ui.StackOp_Pop gtx in
  Context.set_Dimensions gtx
    (Dimensions.mk
       (Constraints.Constrain (Context.Constraints gtx)
          (Point.Add (Dimensions.Size dims)
                     (Point.mk (int.add right left) (int.add top bottom))))
       (int.add (Dimensions.Baseline dims) top)).
End Inset.

Definition UniformInset {Value : Type} (v : Value) : Inset.t Value := Inset.mk v v v v.

Module Align.
(** The offset [p] of the widget, of size [dims], in the area [sz]. *)
Definition p (a : Z) (sz dims : Point.t) : Point.t :=
  let x :=
    if (a =? Direction.N) || (a =? Direction.S) || (a =? Direction.Center)
    then Z.quot (sub (Point.X sz) (Point.X dims)) 2
    else if (a =? Direction.NE) || (a =? Direction.SE) || (a =? Direction.E)
    then sub (Point.X sz) (Point.X dims)
    else 0 in
  let y :=
    if (a =? Direction.W) || (a =? Direction.Center) || (a =? Direction.E)
    then Z.quot (sub (Point.Y sz) (Point.Y dims)) 2
    else if (a =? Direction.SW) || (a =? Direction.S) || (a =? Direction.SE)
    then sub (Point.Y sz) (Point.Y dims)
    else 0 in
  Point.mk x y.

Definition Layout {Value : Type} (a : Z) (w : Widget Value) (gtx : Context.t Value)
  : Context.t Value :=
  let gtx := Context.add ui.MacroOp_Record gtx in
  let cs := Context.Constraints gtx in
  let mcs :=
    Constraints.mk (Constraint.mk 0 (Constraint.Max (Constraints.Width cs)))
                   (Constraint.mk 0 (Constraint.Max (Constraints.Height cs))) in
  let '(dims, gtx) := Context.Layout mcs w gtx in
  let gtx := Context.add ui.MacroOp_Stop gtx in
  let sz := Dimensions.Size dims in
  let sz :=
    if Point.X sz <? Constraint.Min (Constraints.Width cs)
    then Point.mk (Constraint.Min (Constraints.Width cs)) (Point.Y sz) else sz in
  let sz :=
    if Point.Y sz <? Constraint.Min (Constraints.Height cs)
    then Point.mk (Point.X sz) (Constraint.Min (Constraints.Height cs)) else sz in
  let p := p a sz (Dimensions.Size dims) in
  let gtx := Context.add ui.StackOp_Push gtx in
  let gtx := Context.add (ui.TransformOp_Offset p) gtx in
  let gtx := Context.add ui.MacroOp_Add gtx in
  let gtx := Context.add ui.StackOp_Pop gtx in
  Context.set_Dimensions gtx (Dimensions.mk sz (Dimensions.Baseline dims)).
End Align.

End layout.

(** ** Specification of the layouts *)

(** Constraints that some size satisfies, constraints whose minimum is
    moreover not below zero, and the sizes that satisfy constraints. *)
Definition consistent (cs : layout.Constraints.t) : Prop :=
  layout.Constraint.Min (layout.Constraints.Width cs)
  <= layout.Constraint.Max (layout.Constraints.Width cs) /\
  layout.Constraint.Min (layout.Constraints.Height cs)
  <= layout.Constraint.Max (layout.Constraints.Height cs).

Definition normalised (cs : layout.Constraints.t) : Prop :=
  0 <= layout.Constraint.Min (layout.Constraints.Width cs)
    <= layout.Constraint.Max (layout.Constraints.Width cs) /\
  0 <= layout.Constraint.Min (layout.Constraints.Height cs)
    <= layout.Constraint.Max (layout.Constraints.Height cs).

Definition within (cs : layout.Constraints.t) (size : layout.Point.t) : Prop :=
  layout.Constraint.Min (layout.Constraints.Width cs)
  <= layout.Point.X size
  <= layout.Constraint.Max (layout.Constraints.Width cs) /\
  layout.Constraint.Min (layout.Constraints.Height cs)
  <= layout.Point.Y size
  <= layout.Constraint.Max (layout.Constraints.Height cs).

(** A widget that, laid out under normalised constraints, leaves
    dimensions whose size satisfies them. *)
Definition obedient {Value : Type} (w : layout.Widget Value) : Prop :=
  forall c : layout.Context.t Value,
    normalised (layout.Context.Constraints c) ->
    within (layout.Context.Constraints c)
           (layout.Dimensions.Size (layout.Context.Dimensions (w c))).

(** The size of the dimensions a context holds. *)
Definition size_of {Value : Type} (c : layout.Context.t Value) : layout.Point.t :=
  layout.Dimensions.Size (layout.Context.Dimensions c).

(** Contexts and widgets for the examples of the layouts: a value is a
    number of device-independent pixels, of two pixels each; [label] takes
    the size 30 x 20 as far as its constraints allow, [fixed] takes it
    whatever they are, and [fussy] is [label] except under a negative
    minimum width. *)
Module LayoutRef.
Definition config : layout.ui.Config Z := layout.ui.mkConfig (fun v => 2 * v).

Definition gtx : layout.Context.t Z :=
  layout.Context.mk
    (layout.Constraints.mk (layout.Constraint.mk 40 100) (layout.Constraint.mk 0 50))
    layout.Dimensions.zero config [].

Definition label : layout.Widget Z :=
  fun c =>
    layout.Context.set_Dimensions c
      (layout.Dimensions.mk
         (layout.Constraints.Constrain (layout.Context.Constraints c) (layout.Point.mk 30 20))
         12).

Definition fixed : layout.Widget Z :=
  fun c =>
    layout.Context.set_Dimensions c (layout.Dimensions.mk (layout.Point.mk 30 20) 12).

Definition fussy : layout.Widget Z :=
  fun c =>
    if layout.Constraint.Min (layout.Constraints.Width (layout.Context.Constraints c)) <? 0
    then fixed c
    else label c.
End LayoutRef.

(** * The program *)

Section Pipeline.

Set Default Proof Using "Type".

(** [json.Unmarshal] into a [shaderMetadata]. *)
Variable json_Unmarshal : list byte -> result shaderMetadata.t.

(** [sort.Slice], given the slice and [less] on its elements. *)
Variable sort_Slice : forall A : Type, list A -> (A -> A -> bool) -> list A.

(** [filepath.Ext], [filepath.Base], [filepath.Join] of two elements, and
    [strings.ReplaceAll]. *)
Variable filepath_Ext : string -> string.
Variable filepath_Base : string -> string.
Variable filepath_Join : string -> string -> string.
Variable strings_ReplaceAll : string -> string -> string -> string.

(** The value of the flag [-package]. *)
Variable packageName : string.

(** The body of [parseReflection] below the call of [json.Unmarshal], on the
    decoded document [reflect]. *)
Definition parseReflection_decoded (reflect : shaderMetadata.t)
                                   (info : ShaderSources.t)
  : option error * ShaderSources.t :=
  let inputRef := shaderReflection.Inputs (shaderMetadata.VS reflect) in
  match inputLoop inputRef info with
  | (Some err, info) => (Some err, info)
  | (None, info) =>
      let info :=
        ShaderSources.set_Inputs info
          (sort_Slice _ (ShaderSources.Inputs info) less) in
      let shaderBlocks :=
        orElse (shaderReflection.UniformBuffers (shaderMetadata.VS reflect))
               (shaderReflection.UniformBuffers (shaderMetadata.FS reflect)) in
      match blockLoop shaderBlocks 0 info with
      | (Some err, (_, info)) => (Some err, info)
      | (None, (blockOffset, info)) =>
          let info := ShaderSources.set_Size info blockOffset in
          let textures :=
            orElse (shaderReflection.Textures (shaderMetadata.VS reflect))
                   (shaderReflection.Textures (shaderMetadata.FS reflect)) in
          (None, textureLoop textures info)
      end
  end.

(** [parseReflection(jsonData, info)]: the error returned, and [*info] as the
    call leaves it. *)
Definition parseReflection (jsonData : list byte) (info : ShaderSources.t)
  : option error * ShaderSources.t :=
  match json_Unmarshal jsonData with
  | Err err => (Some (parseReflection_error err), info)
  | Ok reflect => parseReflection_decoded reflect info
  end.

(** ** The converters *)

Definition LF : string := String (ascii_of_nat 10) EmptyString.
Definition TAB : string := String (ascii_of_nat 9) EmptyString.

(** The [switch filepath.Ext(path)] of [convertShader]: the flag and the
    suffix of the stage. *)
Definition progOf (ext : string) : option (string * string) :=
  if String.eqb ext ".vert" then Some ("--vert"%string, "vs"%string)
  else if String.eqb ext ".frag" then Some ("--frag"%string, "fs"%string)
  else None.

Definition convertShader (tmp glslcc path lang profile : string)
    (args : shaderArgs) (flattenUBOs : bool)
  : Prog (result (string * list byte)) :=
  r <- call (template_ParseFiles path) ;;
  match r with
  | Err err => Ret (Err err)
  | Ok shaderTmpl =>
  r <- call (template_Execute shaderTmpl args) ;;
  match r with
  | Err err => Ret (Err err)
  | Ok buf =>
  let tmppath := filepath_Join tmp (filepath_Base path) in
  r <- call (ioutil_WriteFile tmppath buf) ;;
  match r with
  | Some err => Ret (Err err)
  | None =>
  defer (os_Remove tmppath) (
  match progOf (filepath_Ext path) with
  | None => Ret (Err ("unrecognized shader type: " +++ path))
  | Some (progFlag, progSuffix) =>
  let cmdArgs :=
    ["--silent"; "--optimize"; "--reflect";
     "--output"; filepath_Join tmp "shader";
     "--lang"; lang;
     "--profile"; profile;
     progFlag; tmppath]%string in
  let cmdArgs :=
    if flattenUBOs then (cmdArgs ++ ["--flatten-ubos"%string])%list else cmdArgs in
  r <- call (cmd_Run glslcc cmdArgs) ;;
  match r with
  | Some err => Ret (Err (path +++ ": " +++ err))
  | None =>
  let name := filepath_Join tmp ("shader_" +++ progSuffix) in
  r <- call (os_Open name) ;;
  match r with
  | Err err => Ret (Err err)
  | Ok f =>
  defer (file_Close f) (
  defer (os_Remove name) (
  r <- call (ioutil_ReadAll f) ;;
  match r with
  | Err err => Ret (Err err)
  | Ok src =>
  r <- call (ioutil_ReadFile (filepath_Join tmp ("shader_" +++ progSuffix +++ ".json"))) ;;
  match r with
  | Err err => Ret (Err err)
  | Ok reflect => Ret (Ok (string_of_list_byte src, reflect))
  end end))
  end end end)
  end end end.

Definition compileHLSL (tmp fxc src entry profile : string)
  : Prog (result (list byte)) :=
  let tmpfile := filepath_Join tmp "shader.hlsl" in
  r <- call (ioutil_WriteFile tmpfile (list_byte_of_string src)) ;;
  match r with
  | Some err => Ret (Err err)
  | None =>
  let outFile := filepath_Join tmp "shader.bin" in
  r <- call (cmd_Run fxc ["/T"; profile; "/E"; entry; "/nologo"; "/Fo"; outFile; tmpfile]%string) ;;
  match r with
  | Some err => Ret (Err err)
  | None => call (ioutil_ReadFile outFile)
  end end.

(** ** The orchestrator *)

(** An element of the array [variants]: the embedded [backend.ShaderSources]
    and [hlslSrc]. *)
Record variant : Type := mkVariant {
  Sources : ShaderSources.t;
  hlslSrc : string
}.

Definition variant_zero : variant := mkVariant ShaderSources.zero EmptyString.

(** The array [args]: the uniform colour variant, then the textured one. *)
Definition variantArgs : list shaderArgs :=
  [ mkArgs "_color" "layout(binding=0) uniform Color { vec4 _color; };";
    mkArgs "texture(tex, vUV)" "layout(binding=0) uniform sampler2D tex;" ].

(** The [switch filepath.Ext(shader)] of [generate]. *)
Definition hlslProfOf (ext : string) : option string :=
  if String.eqb ext ".frag" then Some "ps"%string
  else if String.eqb ext ".vert" then Some "vs"%string
  else None.

(** The body of [for i := range args], on [variants[i]] and [args[i]]; it
    returns [variants[i]] as the iteration leaves it. *)
Definition variantBody (tmp glslcc fxc : string) (fxcFound : bool)
    (shader : string) (v : variant) (arg : shaderArgs)
  : Prog (result variant) :=
  r <- staged ConvertShader (convertShader tmp glslcc shader "gles" "100" arg false) ;;
  match r with
  | Err err => Ret (Err err)
  | Ok (glsl100, reflect) =>
  let glsl100 := "#version 100" +++ LF +++ glsl100 in
  let '(perr, sources) := parseReflection reflect (Sources v) in
  Note ParseReflection perr (
  match perr with
  | Some err => Ret (Err err)
  | None =>
  r <- staged ConvertShader (convertShader tmp glslcc shader "gles" "300" arg false) ;;
  match r with
  | Err err => Ret (Err err)
  | Ok (glsl300, _) =>
  r <- staged ConvertShader (convertShader tmp glslcc shader "hlsl" "40" arg false) ;;
  match r with
  | Err err => Ret (Err err)
  | Ok (hlsl, _) =>
  match hlslProfOf (filepath_Ext shader) with
  | None => Ret (Err ("unrecognized shader type " +++ shader))
  | Some hlslProf =>
  r <- (if fxcFound
        then r <- staged CompileHLSL
                    (compileHLSL tmp fxc hlsl "main" (hlslProf +++ "_4_0")) ;;
             match r with
             | Err err => Ret (Err err)
             | Ok hlslc => Ret (Ok (Some hlslc))
             end
        else Ret (Ok None)) ;;
  match r with
  | Err err => Ret (Err err)
  | Ok hlslc =>
  Ret (Ok (mkVariant
             (ShaderSources.set_HLSL
                (ShaderSources.set_GLSL300ES
                   (ShaderSources.set_GLSL100ES sources glsl100) glsl300) hlslc)
             hlsl))
  end end end end end)
  end.

(** [for i := range args]: the variants in the order of [args], each from
    the zero value the declaration of [variants] gives it. *)
Fixpoint variantsLoop (tmp glslcc fxc : string) (fxcFound : bool)
    (shader : string) (args : list shaderArgs)
  : Prog (result (list variant)) :=
  match args with
  | [] => Ret (Ok [])
  | arg :: rest =>
      r <- variantBody tmp glslcc fxc fxcFound shader variant_zero arg ;;
      match r with
      | Err err => Ret (Err err)
      | Ok v =>
          r <- variantsLoop tmp glslcc fxc fxcFound shader rest ;;
          match r with
          | Err err => Ret (Err err)
          | Ok vs => Ret (Ok (v :: vs))
          end
      end
  end.

(** The writes of one turn of [for _, src := range variants], up to the
    test of [multiVariant] that may leave the loop. *)
Definition writeSources (multiVariant : bool) (src : variant) : Buffer :=
  let s := Sources src in
  let u := ShaderSources.Uniforms s in
  [Fprintf ("backend.ShaderSources{" +++ LF) []]
  ++ (if (0 <? Z.of_nat (List.length (ShaderSources.Inputs s)))
      then [Fprintf ("Inputs: %#v," +++ LF) [AInputs (ShaderSources.Inputs s)]]
      else [])
  ++ (if (0 <? Z.of_nat (List.length (UniformsReflection.Blocks u)))
      then [Fprintf ("Uniforms: backend.UniformsReflection{" +++ LF) [];
            Fprintf ("Blocks: %#v," +++ LF) [ABlocks (UniformsReflection.Blocks u)];
            Fprintf ("Locations: %#v," +++ LF) [ALocations (UniformsReflection.Locations u)];
            Fprintf ("Size: %d," +++ LF) [AInt (UniformsReflection.Size u)];
            Fprintf ("}," +++ LF) []]
      else [])
  ++ (if (0 <? Z.of_nat (List.length (ShaderSources.Textures s)))
      then [Fprintf ("Textures: %#v," +++ LF) [ATextures (ShaderSources.Textures s)]]
      else [])
  ++ [Fprintf ("GLSL100ES: %#v," +++ LF) [AString (ShaderSources.GLSL100ES s)];
      Fprintf ("GLSL300ES: %#v," +++ LF) [AString (ShaderSources.GLSL300ES s)];
      Fprintf ("/*" +++ LF +++ "%s" +++ LF +++ "*/" +++ LF) [AString (hlslSrc src)];
      Fprintf ("HLSL: %#v," +++ LF) [ABytes (ShaderSources.HLSL s)];
      Fprintf "}" []]
  ++ (if multiVariant then [Fprintf "," []] else [])
  ++ [Fprintf LF []].

(** [for _, src := range variants { ...; if !multiVariant { break } }]. *)
Fixpoint sourcesLoop (multiVariant : bool) (variants : list variant) (out : Buffer)
  : Buffer :=
  match variants with
  | [] => out
  | src :: rest =>
      let out := (out ++ writeSources multiVariant src)%list in
      if negb multiVariant then out else sourcesLoop multiVariant rest out
  end.

(** The end of the body of [for _, shader := range shaders], from the
    computation of [name] on. *)
Definition emitShader (shader : string) (variants : list variant) (out : Buffer)
  : Buffer :=
  let name := filepath_Base shader in
  let name := strings_ReplaceAll name "." "_" in
  let out := (out ++ [Fprintf (TAB +++ "shader_%s = ") [AString name]])%list in
  let multiVariant :=
    negb (String.eqb (ShaderSources.GLSL100ES (Sources (nth 0 variants variant_zero)))
                     (ShaderSources.GLSL100ES (Sources (nth 1 variants variant_zero)))) in
  let out :=
    if multiVariant
    then (out ++ [Fprintf ("[...]backend.ShaderSources{" +++ LF) []])%list
    else out in
  let out := sourcesLoop multiVariant variants out in
  if multiVariant then (out ++ [Fprintf ("}" +++ LF) []])%list else out.

(** [for _, shader := range shaders]. *)
Fixpoint shadersLoop (tmp glslcc fxc : string) (fxcFound : bool)
    (shaders : list string) (out : Buffer) : Prog (result Buffer) :=
  match shaders with
  | [] => Ret (Ok out)
  | shader :: rest =>
      r <- variantsLoop tmp glslcc fxc fxcFound shader variantArgs ;;
      match r with
      | Err err => Ret (Err err)
      | Ok variants =>
          shadersLoop tmp glslcc fxc fxcFound rest (emitShader shader variants out)
      end
  end.

(** The name of the generated file. *)
Definition artifact : string := "shaders.go".

Definition generate : Prog (option error) :=
  r <- call (ioutil_TempDir EmptyString "shader-convert") ;;
  match r with
  | Err err => Ret (Some err)
  | Ok tmp =>
  defer (os_RemoveAll tmp) (
  r <- call (exec_LookPath "glslcc") ;;
  match r with
  | Err err => Ret (Some err)
  | Ok glslcc =>
  r <- call (exec_LookPath "fxc") ;;
  let fxc := match r with Ok fxc => fxc | Err _ => EmptyString end in
  let fxcFound := match r with Ok _ => true | Err _ => false end in
  r <- call (filepath_Glob "shaders/*") ;;
  match r with
  | Err err => Ret (Some err)
  | Ok shaders =>
  let out : Buffer :=
    [WriteString ("// Code generated by build.go. DO NOT EDIT." +++ LF +++ LF);
     Fprintf ("package %s" +++ LF +++ LF) [AString packageName];
     Fprintf ("import %q" +++ LF +++ LF) [AString "gioui.org/gpu/backend"];
     WriteString ("var (" +++ LF)] in
  r <- shadersLoop tmp glslcc fxc fxcFound shaders out ;;
  match r with
  | Err err => Ret (Some err)
  | Ok out =>
  let out := (out ++ [WriteString ")"])%list in
  r <- call (format_Source out) ;;
  match r with
  | Err err => Ret (Some ("shader.go: " +++ err))
  | Ok gosrc => call (ioutil_WriteFile artifact gosrc)
  end end end end)
  end.

(** * Specification *)

(** ** Of the parser *)

(** [info] with [xs], [bs], [ls], [ts] appended to its four lists. *)
Definition extend (info : ShaderSources.t) (xs : list InputLocation.t)
    (bs : list UniformBlock.t) (ls : list UniformLocation.t)
    (ts : list TextureBinding.t) : ShaderSources.t :=
  ShaderSources.mk (ShaderSources.GLSL100ES info) (ShaderSources.GLSL300ES info)
    (ShaderSources.HLSL info)
    (UniformsReflection.mk (Blocks info ++ bs) (Locations info ++ ls) (USize info))
    (Inputs info ++ xs) (Textures info ++ ts).

(** The input location made of one reflected input. *)
Definition input_of (input : InputReflection.t) (loc : InputLocation.t) : Prop :=
  InputLocation.Name loc = InputReflection.Name input /\
  InputLocation.Location loc = InputReflection.Location input /\
  InputLocation.Semantic loc = InputReflection.Semantic input /\
  InputLocation.SemanticIndex loc = InputReflection.SemanticIndex input /\
  parseDataType (InputReflection.Type_ input)
  = Ok (InputLocation.Type_ loc, InputLocation.Size loc).

(** The uniform location made of one member of [block], the block starting
    at [base]. *)
Definition member_at (block : UniformBufferReflection.t) (base : Z)
    (member : UniformMemberReflection.t) (loc : UniformLocation.t) : Prop :=
  UniformLocation.Name loc = uniformName block member /\
  UniformLocation.Offset loc = int.add base (UniformMemberReflection.Offset member) /\
  parseDataType (UniformMemberReflection.Type_ member)
  = Ok (UniformLocation.Type_ loc, UniformLocation.Size loc).

Definition block_of (block : UniformBufferReflection.t) : UniformBlock.t :=
  UniformBlock.mk (UniformBufferReflection.Name block)
                  (UniformBufferReflection.Binding block).

Definition texture_of (texture : TextureReflection.t) : TextureBinding.t :=
  TextureBinding.mk (TextureReflection.Name texture)
                    (TextureReflection.Binding texture).

(** The locations of consecutive blocks, the first one starting at [base]:
    one list per block. *)
Inductive laid_out : Z -> list UniformBufferReflection.t ->
                     list (list UniformLocation.t) -> Prop :=
| laid_out_nil base : laid_out base [] []
| laid_out_cons base block rest ls lss :
    Forall2 (member_at block base) (UniformBufferReflection.Members block) ls ->
    laid_out (int.add base (UniformBufferReflection.Size block)) rest lss ->
    laid_out base (block :: rest) (ls :: lss).

(** What [sort.Slice] requires of [less]. *)
Definition strict_weak {A : Type} (lt : A -> A -> bool) : Prop :=
  (forall a b, lt a b = true -> lt b a = false) /\
  (forall a b c, lt b a = false -> lt c b = false -> lt c a = false).

(** The blocks and the textures [parseReflection] reads. *)
Definition shaderBlocks_of (reflect : shaderMetadata.t) :=
  orElse (shaderReflection.UniformBuffers (shaderMetadata.VS reflect))
         (shaderReflection.UniformBuffers (shaderMetadata.FS reflect)).
Definition textures_of (reflect : shaderMetadata.t) :=
  orElse (shaderReflection.Textures (shaderMetadata.VS reflect))
         (shaderReflection.Textures (shaderMetadata.FS reflect)).

(** The supported tokens as the specification lists them: [float] or [int],
    bare or followed by 2, 3 or 4, with the kind of the base and the count
    of the suffix (1 when there is none). *)
Definition supportedTypes : list (string * (DataType * Z)) :=
  flat_map
    (fun '(base, kind) =>
       map (fun '(suffix, count) => (base +++ suffix, (kind, count)))
           [(""%string, 1); ("2"%string, 2); ("3"%string, 3); ("4"%string, 4)])
    [("float"%string, DataTypeFloat); ("int"%string, DataTypeInt)].

(** The document with other uniform blocks, or other textures, in one of its
    stages. *)
Definition withVertexBlocks (reflect : shaderMetadata.t)
    (blocks : list UniformBufferReflection.t) : shaderMetadata.t :=
  shaderMetadata.mk
    (shaderReflection.mk (shaderReflection.Inputs (shaderMetadata.VS reflect)) blocks
                         (shaderReflection.Textures (shaderMetadata.VS reflect)))
    (shaderMetadata.FS reflect).
Definition withFragmentBlocks (reflect : shaderMetadata.t)
    (blocks : list UniformBufferReflection.t) : shaderMetadata.t :=
  shaderMetadata.mk
    (shaderMetadata.VS reflect)
    (shaderReflection.mk (shaderReflection.Inputs (shaderMetadata.FS reflect)) blocks
                         (shaderReflection.Textures (shaderMetadata.FS reflect))).
Definition withVertexTextures (reflect : shaderMetadata.t)
    (textures : list TextureReflection.t) : shaderMetadata.t :=
  shaderMetadata.mk
    (shaderReflection.mk (shaderReflection.Inputs (shaderMetadata.VS reflect))
                         (shaderReflection.UniformBuffers (shaderMetadata.VS reflect))
                         textures)
    (shaderMetadata.FS reflect).
Definition withFragmentTextures (reflect : shaderMetadata.t)
    (textures : list TextureReflection.t) : shaderMetadata.t :=
  shaderMetadata.mk
    (shaderMetadata.VS reflect)
    (shaderReflection.mk (shaderReflection.Inputs (shaderMetadata.FS reflect))
                         (shaderReflection.UniformBuffers (shaderMetadata.FS reflect))
                         textures).

(** ** Of the runs

    [wp p Q]: [Q] holds of the value and the trace of [p] whatever the
    environment answers. *)
Fixpoint wp {A : Type} (p : Prog A) (Q : A -> list entry -> Prop) : Prop :=
  match p with
  | Ret a => Q a []
  | Vis e k => forall x : Response e, wp (k x) (fun a tr => Q a (Called e x :: tr))
  | Note f err k => wp k (fun a tr => Q a (Returned f err :: tr))
  end.

(** A step of a converter: a call that is neither of the start nor of the
    end of [generate], and that writes, if it writes, into the directory
    [tmp]. *)
Definition scratch (tmp : string) (en : entry) : Prop :=
  match en with
  | Called (ioutil_WriteFile filename _) _ => exists elem, filename = filepath_Join tmp elem
  | Called (template_ParseFiles _) _
  | Called (template_Execute _ _) _
  | Called (os_Remove _) _
  | Called (cmd_Run _ _) _
  | Called (os_Open _) _
  | Called (file_Close _) _
  | Called (ioutil_ReadAll _) _
  | Called (ioutil_ReadFile _) _ => True
  | _ => False
  end.

(** The return of a stage. *)
Definition noted (en : entry) : Prop :=
  match en with
  | Returned _ _ => True
  | Called _ _ => False
  end.

(** The return of a stage with an error. *)
Definition failed (en : entry) : Prop :=
  match en with
  | Returned _ (Some _) => True
  | _ => False
  end.

(** The return of [compileHLSL]. *)
Definition compiled (en : entry) : Prop :=
  match en with
  | Returned CompileHLSL _ => True
  | _ => False
  end.

Definition recognized (path : string) : Prop :=
  filepath_Ext path = ".vert"%string \/ filepath_Ext path = ".frag"%string.

Definition step (tmp : string) (en : entry) : Prop := scratch tmp en \/ noted en.

(** No stage has returned an error. *)
Definition clean (tr : list entry) : Prop := Forall (fun en => ~ failed en) tr.

(** A run of stages ends at the first error a stage returns, and returns
    that error; it returns no error of its own. *)
Definition fail_fast {A : Type} (r : result A) (tr : list entry) : Prop :=
  match r with
  | Ok _ => clean tr
  | Err err => exists pre f, tr = pre ++ [Returned f (Some err)] /\ clean pre
  end.

(** No write has a byte slice that is not nil among its operands. *)
Definition bytecode_absent (out : Buffer) : Prop :=
  forall format operands b,
    In (Fprintf format operands) out -> In (ABytes b) operands -> b = None.

Definition stages_ok {A : Type} (tmp : string) (fxcFound : bool)
    (r : result A) (tr : list entry) : Prop :=
  Forall (step tmp) tr /\
  fail_fast r tr /\
  (fxcFound = false -> Forall (fun en => ~ compiled en) tr).

Definition without_bytecode (v : variant) : Prop :=
  ShaderSources.HLSL (Sources v) = None.


(** A write of the generated file. *)
Definition writes_artifact (en : entry) : Prop :=
  match en with
  | Called (ioutil_WriteFile filename _) _ => filename = artifact
  | _ => False
  end.

(** The removal of the temporary directory. *)
Definition cleanup (en : entry) : Prop :=
  match en with
  | Called (os_RemoveAll _) _ => True
  | _ => False
  end.


Definition has_format (format : string) (wr : write) : bool :=
  match wr with
  | Fprintf f _ => String.eqb f format
  | WriteString _ => false
  end.

(** The number of calls of [fmt.Fprintf] with the format [format]. *)
Definition count_format (format : string) (out : Buffer) : nat :=
  List.length (filter (has_format format) out).

(** The operands of those calls, in the order of the calls. *)
Definition operands_of (format : string) (out : Buffer) : list operand :=
  flat_map (fun wr => match wr with
                      | Fprintf f operands => if String.eqb f format then operands else []
                      | WriteString _ => []
                      end) out.

(** The formats of the opening of a record and of its text fields. *)
Definition fmt_record : string := "backend.ShaderSources{" +++ LF.
Definition fmt_GLSL100ES : string := "GLSL100ES: %#v," +++ LF.
Definition fmt_GLSL300ES : string := "GLSL300ES: %#v," +++ LF.
Definition fmt_hlslSrc : string := "/*" +++ LF +++ "%s" +++ LF +++ "*/" +++ LF.
Definition fmt_HLSL : string := "HLSL: %#v," +++ LF.

(** The number of records written. *)
Definition records (out : Buffer) : nat := count_format fmt_record out.

(** Every record written has its two GLSL texts, its HLSL text and its
    [HLSL] field. *)
Definition records_complete (out : Buffer) : Prop :=
  count_format fmt_GLSL100ES out = records out /\
  count_format fmt_GLSL300ES out = records out /\
  count_format fmt_hlslSrc out = records out /\
  count_format fmt_HLSL out = records out.


(** A write, if the entry is one, is into the directory [tmp]. *)
Definition written_under (tmp : string) (en : entry) : Prop :=
  match en with
  | Called (ioutil_WriteFile filename _) _ => exists elem, filename = filepath_Join tmp elem
  | _ => True
  end.

(** The source handed to [format.Source], if the entry is its call,
    satisfies [P]. *)
Definition formatted (P : Buffer -> Prop) (en : entry) : Prop :=
  match en with
  | Called (format_Source src) _ => P src
  | _ => True
  end.

Definition found (rf : result string) : bool :=
  match rf with
  | Ok _ => true
  | Err _ => false
  end.

(** The calls before the loop over the shaders, when none of those that
    must succeed fails. *)
Definition start (tmp glslcc : string) (rf : result string) (shaders : list string)
  : list entry :=
  [Called (ioutil_TempDir EmptyString "shader-convert") (Ok tmp);
   Called (exec_LookPath "glslcc") (Ok glslcc);
   Called (exec_LookPath "fxc") rf;
   Called (filepath_Glob "shaders/*") (Ok shaders)].

(** What [generate] returns and the trace it leaves: the temporary
    directory cannot be made; or [glslcc] is not found; or the shaders
    cannot be listed; or a stage fails in the loop; or the loop ends, with
    [out] in the buffer, and the source is refused by [format.Source]; or it
    is formatted and written. *)
Inductive generate_run : option error -> list entry -> Prop :=
| run_no_tempdir err :
    generate_run (Some err)
      [Called (ioutil_TempDir EmptyString "shader-convert") (Err err)]
| run_no_glslcc tmp err x :
    generate_run (Some err)
      [Called (ioutil_TempDir EmptyString "shader-convert") (Ok tmp);
       Called (exec_LookPath "glslcc") (Err err);
       Called (os_RemoveAll tmp) x]
| run_no_shaders tmp glslcc rf err x :
    generate_run (Some err)
      [Called (ioutil_TempDir EmptyString "shader-convert") (Ok tmp);
       Called (exec_LookPath "glslcc") (Ok glslcc);
       Called (exec_LookPath "fxc") rf;
       Called (filepath_Glob "shaders/*") (Err err);
       Called (os_RemoveAll tmp) x]
| run_stage_failed tmp glslcc rf shaders loop err x :
    stages_ok tmp (found rf) (@Err Buffer err) loop ->
    generate_run (Some err)
      (start tmp glslcc rf shaders ++ loop ++ [Called (os_RemoveAll tmp) x])
| run_not_formatted tmp glslcc rf shaders loop out err x :
    stages_ok tmp (found rf) (Ok out) loop ->
    (found rf = false -> bytecode_absent out) ->
    records_complete out ->
    generate_run (Some ("shader.go: " +++ err))
      (start tmp glslcc rf shaders ++ loop ++
       [Called (format_Source (out ++ [WriteString ")"])) (Err err);
        Called (os_RemoveAll tmp) x])
| run_written tmp glslcc rf shaders loop out gosrc r x :
    stages_ok tmp (found rf) (Ok out) loop ->
    (found rf = false -> bytecode_absent out) ->
    records_complete out ->
    generate_run r
      (start tmp glslcc rf shaders ++ loop ++
       [Called (format_Source (out ++ [WriteString ")"])) (Ok gosrc);
        Called (ioutil_WriteFile artifact gosrc) r;
        Called (os_RemoveAll tmp) x]).

Definition fmt_Inputs : string := "Inputs: %#v," +++ LF.
Definition fmt_Blocks : string := "Blocks: %#v," +++ LF.
Definition fmt_Locations : string := "Locations: %#v," +++ LF.
Definition fmt_Size : string := "Size: %d," +++ LF.
Definition fmt_Textures : string := "Textures: %#v," +++ LF.

(** The write of the name of a shader. *)
Definition writeName (shader : string) : write :=
  Fprintf (TAB +++ "shader_%s = ")
          [AString (strings_ReplaceAll (filepath_Base shader) "." "_")].












(** The files a trace wrote, removed and opened (those calls that returned
    no error), and the handles it got and closed. *)
Definition written_names (tr : list entry) : list string :=
  flat_map (fun en => match en with
                      | Called (ioutil_WriteFile filename _) None => [filename]
                      | _ => []
                      end) tr.

Definition removed_names (tr : list entry) : list string :=
  flat_map (fun en => match en with
                      | Called (os_Remove name) _ => [name]
                      | _ => []
                      end) tr.

Definition opened_names (tr : list entry) : list string :=
  flat_map (fun en => match en with
                      | Called (os_Open name) (Ok _) => [name]
                      | _ => []
                      end) tr.

Definition opened_files (tr : list entry) : list File :=
  flat_map (fun en => match en with
                      | Called (os_Open _) (Ok f) => [f]
                      | _ => []
                      end) tr.

Definition closed_files (tr : list entry) : list File :=
  flat_map (fun en => match en with
                      | Called (file_Close f) _ => [f]
                      | _ => []
                      end) tr.

(** A subprocess was run. *)
Definition ran (en : entry) : Prop :=
  match en with
  | Called (cmd_Run _ _) _ => True
  | _ => False
  end.

(** The returns of the stages in a trace, with their errors, in order. *)
Definition notes (tr : list entry) : list (stage * option error) :=
  flat_map (fun en => match en with
                      | Returned f err => [(f, err)]
                      | Called _ _ => []
                      end) tr.

(** [wpn p R]: [R] holds of the value of [p] and of the returns of the
    stages in its trace, whatever the environment answers. *)
Definition wpn {A : Type} (p : Prog A) (R : A -> list (stage * option error) -> Prop)
  : Prop :=
  wp p (fun a tr => R a (notes tr)).

(** The stages of one variant that succeed, in the order of the calls. *)
Definition variant_stages (fxcFound : bool) : list (stage * option error) :=
  [(ConvertShader, None); (ParseReflection, None);
   (ConvertShader, None); (ConvertShader, None)]
  ++ if fxcFound then [(CompileHLSL, None)] else [].

(** A call of [convertShader] for [path] failed, and [err] is what
    [convertShader] makes of its error: the error itself, or for the run of
    [glslcc] the error after the path of the shader. *)
Definition call_fails (path : string) (err : error) (en : entry) : Prop :=
  match en with
  | Called (template_ParseFiles _) (Err e) => e = err
  | Called (template_Execute _ _) (Err e) => e = err
  | Called (ioutil_WriteFile _ _) (Some e) => e = err
  | Called (cmd_Run _ _) (Some e) => err = (path +++ ": " +++ e)%string
  | Called (os_Open _) (Err e) => e = err
  | Called (ioutil_ReadAll _) (Err e) => e = err
  | Called (ioutil_ReadFile _) (Err e) => e = err
  | _ => False
  end.

(** The buffer before the loop over the shaders. *)
Definition header : Buffer :=
  [WriteString ("// Code generated by build.go. DO NOT EDIT." +++ LF +++ LF);
   Fprintf ("package %s" +++ LF +++ LF) [AString packageName];
   Fprintf ("import %q" +++ LF +++ LF) [AString "gioui.org/gpu/backend"];
   WriteString ("var (" +++ LF)].

(** The format of the name of a shader, and the name: the base of the path
    with its dots replaced. *)
Definition fmt_name : string := TAB +++ "shader_%s = ".
Definition shaderName (shader : string) : string :=
  strings_ReplaceAll (filepath_Base shader) "." "_".

(** What the loop writes for a list of shaders: for each in turn, what
    [emitShader] writes for two variants of it. *)
Inductive emitted : list string -> Buffer -> Prop :=
| emitted_nil : emitted [] []
| emitted_cons shader rest v0 v1 added :
    emitted rest added ->
    emitted (shader :: rest) (emitShader shader [v0; v1] [] ++ added).

(** How [generate] ends after the loop, which returned [rl]: the trace of
    the end and what [generate] returns. *)
Inductive finished : result Buffer -> list entry -> option error -> Prop :=
| finished_failed err : finished (Err err) [] (Some err)
| finished_not_formatted out err :
    finished (Ok out)
      [Called (format_Source (out ++ [WriteString ")"])) (Err err)]
      (Some ("shader.go: " +++ err))
| finished_written out gosrc r :
    finished (Ok out)
      [Called (format_Source (out ++ [WriteString ")"])) (Ok gosrc);
       Called (ioutil_WriteFile artifact gosrc) r]
      r.

(** What the loop over the shaders leaves: it ends at the first stage that
    fails; when none does, the stages of the two variants of each shader
    have returned in turn and the buffer holds the header and what was
    written for each shader; with no shader, it does nothing. *)
Definition looped (shaders : list string) (fxcFound : bool)
    (rl : result Buffer) (loop : list entry) : Prop :=
  fail_fast rl loop /\
  (shaders = [] -> loop = []) /\
  forall out, rl = Ok out ->
    notes loop
    = flat_map (fun _ => variant_stages fxcFound ++ variant_stages fxcFound) shaders /\
    exists added, out = header ++ added /\ emitted shaders added.

(** The runs of [generate], with what the loop leaves. *)
Inductive generate_trace : option error -> list entry -> Prop :=
| trace_no_tempdir err :
    generate_trace (Some err)
      [Called (ioutil_TempDir EmptyString "shader-convert") (Err err)]
| trace_no_glslcc tmp err x :
    generate_trace (Some err)
      [Called (ioutil_TempDir EmptyString "shader-convert") (Ok tmp);
       Called (exec_LookPath "glslcc") (Err err);
       Called (os_RemoveAll tmp) x]
| trace_no_shaders tmp glslcc rf err x :
    generate_trace (Some err)
      [Called (ioutil_TempDir EmptyString "shader-convert") (Ok tmp);
       Called (exec_LookPath "glslcc") (Ok glslcc);
       Called (exec_LookPath "fxc") rf;
       Called (filepath_Glob "shaders/*") (Err err);
       Called (os_RemoveAll tmp) x]
| trace_loop tmp glslcc rf shaders rl loop finish r x :
    Forall (step tmp) loop ->
    looped shaders (found rf) rl loop ->
    finished rl finish r ->
    generate_trace r
      (start tmp glslcc rf shaders ++ loop ++ finish ++ [Called (os_RemoveAll tmp) x]).

(** The step whose failure is the error [err] that [generate] returns. *)
Definition fails_with (err : error) (en : entry) : Prop :=
  match en with
  | Returned _ (Some e) => e = err
  | Called (ioutil_TempDir _ _) (Err e) => e = err
  | Called (exec_LookPath file) (Err e) => file = "glslcc"%string /\ e = err
  | Called (filepath_Glob _) (Err e) => e = err
  | Called (format_Source _) (Err e) => err = ("shader.go: " +++ e)%string
  | Called (ioutil_WriteFile filename _) (Some e) => filename = artifact /\ e = err
  | _ => False
  end.

(** What a trace shows of the start and the end of [generate]: the
    directories [ioutil.TempDir] made and those handed to [os.RemoveAll],
    the lists [filepath.Glob] returned, the files [exec.LookPath] did not
    find, and the sources handed to [format.Source]. *)
Definition made_dir (en : entry) : list string :=
  match en with
  | Called (ioutil_TempDir _ _) (Ok tmp) => [tmp]
  | _ => []
  end.

Definition removed_dir (en : entry) : list string :=
  match en with
  | Called (os_RemoveAll path) _ => [path]
  | _ => []
  end.

Definition glob (en : entry) : list (list string) :=
  match en with
  | Called (filepath_Glob _) (Ok matches) => [matches]
  | _ => []
  end.

Definition failed_lookup (en : entry) : list (string * error) :=
  match en with
  | Called (exec_LookPath file) (Err err) => [(file, err)]
  | _ => []
  end.

Definition source_formatted (en : entry) : list Buffer :=
  match en with
  | Called (format_Source src) _ => [src]
  | _ => []
  end.

Definition made_dirs (tr : list entry) : list string := flat_map made_dir tr.
Definition removed_dirs (tr : list entry) : list string := flat_map removed_dir tr.
Definition globs (tr : list entry) : list (list string) := flat_map glob tr.
Definition failed_lookups (tr : list entry) : list (string * error) :=
  flat_map failed_lookup tr.
Definition sources_formatted (tr : list entry) : list Buffer :=
  flat_map source_formatted tr.

(** No search of [fxc] failed. *)
Definition fxc_found (tr : list entry) : bool :=
  negb (existsb (fun '(file, _) => String.eqb file "fxc") (failed_lookups tr)).

(** ** Of [sort.Slice] *)

(** [sort.Slice] permutes the slice, and leaves no element before one it is
    less than; nothing is said of the order of elements neither of which is
    less than the other (the sort is not stable). *)
Hypothesis sort_Slice_Permutation :
  forall (A : Type) (l : list A) (lt : A -> A -> bool),
    Permutation l (sort_Slice A l lt).
Hypothesis sort_Slice_sorted :
  forall (A : Type) (l : list A) (lt : A -> A -> bool),
    strict_weak lt ->
    StronglySorted (fun a b => lt b a = false) (sort_Slice A l lt).

(** * Properties *)

Arguments int.add : simpl never.
Arguments parseReflection_error : simpl never.
Arguments uniformName : simpl never.
Arguments parseDataType : simpl never.

(** Propositional steps on the hypotheses and the goal. *)
Ltac prop_steps :=
  simpl in *;
  repeat match goal with
         | |- ~ _ => intro
         | |- _ -> _ => intro
         | |- True => exact I
         | |- _ /\ _ => split
         | H : False |- _ => destruct H
         | H : _ /\ _ |- _ => destruct H
         | H : _ \/ _ |- _ => destruct H
         | H : exists _, _ |- _ => destruct H
         | H : ~ True |- _ => exfalso; exact (H I)
         | H : ?a <> ?a |- _ => exfalso; exact (H eq_refl)
         | H : ?P -> False, H' : ?P |- _ => exfalso; exact (H H')
         | H : _ = _ |- _ => discriminate H
         end;
  try assumption; try congruence; eauto.

Ltac prop := solve [prop_steps].

(** ** Go's [int] *)

Lemma wrap_in_range (z : Z) : int.in_range z -> int.wrap z = z.
Proof.
  unfold int.in_range, int.wrap, int.min, int.max. intros H.
  rewrite Z.mod_small by lia. lia.
Qed.

Lemma wrap_add_l (a b : Z) : int.wrap (int.wrap a + b) = int.wrap (a + b).
Proof.
  unfold int.wrap. f_equal.
  replace (a + 2 ^ 63 + b) with (a + b + 2 ^ 63) by lia.
  replace ((a + 2 ^ 63) mod 2 ^ 64 - 2 ^ 63 + b + 2 ^ 63)
    with ((a + 2 ^ 63) mod 2 ^ 64 + b) by lia.
  rewrite Zplus_mod_idemp_l. f_equal. lia.
Qed.

Lemma fold_add_wrap (l : list Z) (a : Z) :
  fold_left int.add l (int.wrap a) = int.wrap (a + fold_right Z.add 0 l).
Proof.
  revert a. induction l as [|x l IH]; intros a; simpl.
  - now rewrite Z.add_0_r.
  - unfold int.add at 2. rewrite wrap_add_l, IH. f_equal. lia.
Qed.

(** [int.sum] is the sum of the integers, wrapped once. *)
Lemma sum_wrap (l : list Z) : int.sum l = int.wrap (fold_right Z.add 0 l).
Proof.
  unfold int.sum. change 0 with (int.wrap 0) at 1. now rewrite fold_add_wrap.
Qed.

(** Where the integers do not overflow, the operations of [int] are those
    of the integers. *)
Lemma add_exact (a b : Z) : int.in_range (a + b) -> int.add a b = a + b.
Proof. apply wrap_in_range. Qed.

Lemma sum_exact (l : list Z) :
  int.in_range (fold_right Z.add 0 l) -> int.sum l = fold_right Z.add 0 l.
Proof. intros H. rewrite sum_wrap. now apply wrap_in_range. Qed.

(** ** The loops of the parser only append

    Each loop leaves in [info] what it found there and appends entries that
    do not depend on it: its run on any record is its run on the zero
    record, appended. *)

Lemma extend_nil (info : ShaderSources.t) : extend info [] [] [] [] = info.
Proof.
  destruct info as [g1 g3 h [b l s] i t]. unfold extend. simpl.
  now rewrite !app_nil_r.
Qed.

Lemma inputLoop_frame (inputRef : list InputReflection.t) (info : ShaderSources.t) :
  inputLoop inputRef info
  = (fst (inputLoop inputRef zero),
     extend info (Inputs (snd (inputLoop inputRef zero))) [] [] []).
Proof.
  revert info. induction inputRef as [|input rest IH]; intros info; simpl.
  - now rewrite extend_nil.
  - destruct (parseDataType (InputReflection.Type_ input)) as [[dataType dataSize]|err];
      simpl; [|now rewrite extend_nil].
    rewrite IH. rewrite (IH (ShaderSources.set_Inputs zero _)). simpl. f_equal.
    destruct info as [g1 g3 h [b l s] i t]. unfold extend. simpl.
    now rewrite !app_nil_r, <- app_assoc.
Qed.

Lemma memberLoop_frame block blockOffset members (info : ShaderSources.t) :
  memberLoop block blockOffset members info
  = (fst (memberLoop block blockOffset members zero),
     extend info [] [] (Locations (snd (memberLoop block blockOffset members zero))) []).
Proof.
  revert info. induction members as [|member rest IH]; intros info; simpl.
  - now rewrite extend_nil.
  - destruct (parseDataType (UniformMemberReflection.Type_ member)) as [[dataType size]|err];
      simpl; [|now rewrite extend_nil].
    rewrite IH. rewrite (IH (ShaderSources.set_Locations zero _)). simpl. f_equal.
    destruct info as [g1 g3 h [b l s] i t]. unfold extend. simpl.
    now rewrite !app_nil_r, <- app_assoc.
Qed.

Lemma blockLoop_frame shaderBlocks blockOffset (info : ShaderSources.t) :
  blockLoop shaderBlocks blockOffset info
  = let r := blockLoop shaderBlocks blockOffset zero in
    (fst r, (fst (snd r),
             extend info [] (Blocks (snd (snd r))) (Locations (snd (snd r))) [])).
Proof.
  revert blockOffset info.
  induction shaderBlocks as [|block rest IH]; intros blockOffset info; simpl.
  - now rewrite extend_nil.
  - rewrite memberLoop_frame.
    rewrite (memberLoop_frame _ _ _ (ShaderSources.set_Blocks zero _)).
    destruct (fst (memberLoop block blockOffset (UniformBufferReflection.Members block) zero))
      as [err|]; simpl.
    + f_equal. f_equal.
      destruct info as [g1 g3 h [b l s] i t]. unfold extend. simpl.
      now rewrite !app_nil_r.
    + rewrite IH. rewrite (IH _ (extend (ShaderSources.set_Blocks zero _) _ _ _ _)).
      simpl. f_equal. f_equal.
      destruct info as [g1 g3 h [b l s] i t]. unfold extend. simpl.
      now rewrite !app_nil_r, <- !app_assoc.
Qed.

Lemma textureLoop_frame textures (info : ShaderSources.t) :
  textureLoop textures info
  = extend info [] [] [] (Textures (textureLoop textures zero)).
Proof.
  revert info. induction textures as [|texture rest IH]; intros info; simpl.
  - now rewrite extend_nil.
  - rewrite IH. rewrite (IH (ShaderSources.set_Textures zero _)). simpl.
    destruct info as [g1 g3 h [b l s] i t]. unfold extend. simpl.
    now rewrite !app_nil_r, <- app_assoc.
Qed.

Lemma textureLoop_map textures :
  Textures (textureLoop textures zero)
  = map (fun texture => TextureBinding.mk (TextureReflection.Name texture)
                                          (TextureReflection.Binding texture)) textures.
Proof.
  induction textures as [|texture rest IH]; simpl; [reflexivity|].
  rewrite textureLoop_frame. simpl. now rewrite IH.
Qed.

(** ** What the loops append *)

Lemma inputLoop_ok inputRef z :
  inputLoop inputRef zero = (None, z) -> Forall2 input_of inputRef (Inputs z).
Proof.
  revert z. induction inputRef as [|input rest IH]; intros z; simpl.
  - intros [= <-]. constructor.
  - destruct (parseDataType (InputReflection.Type_ input)) as [[dataType dataSize]|err] eqn:E;
      [|discriminate].
    rewrite inputLoop_frame. intros [= Hf <-]. simpl. constructor.
    + now repeat split.
    + apply IH. now rewrite (surjective_pairing (inputLoop rest zero)), Hf.
Qed.

Lemma memberLoop_ok block blockOffset members z :
  memberLoop block blockOffset members zero = (None, z) ->
  Forall2 (member_at block blockOffset) members (Locations z).
Proof.
  revert z. induction members as [|member rest IH]; intros z; simpl.
  - intros [= <-]. constructor.
  - destruct (parseDataType (UniformMemberReflection.Type_ member)) as [[dataType size]|err] eqn:E;
      [|discriminate].
    rewrite memberLoop_frame. intros [= Hf <-]. simpl. constructor.
    + now repeat split.
    + apply IH. now rewrite (surjective_pairing (memberLoop _ _ rest zero)), Hf.
Qed.

Lemma blockLoop_ok shaderBlocks blockOffset blockOffset' z :
  blockLoop shaderBlocks blockOffset zero = (None, (blockOffset', z)) ->
  blockOffset'
  = fold_left int.add (map UniformBufferReflection.Size shaderBlocks) blockOffset /\
  Blocks z = map block_of shaderBlocks /\
  exists lss, Locations z = List.concat lss /\ laid_out blockOffset shaderBlocks lss.
Proof.
  revert blockOffset blockOffset' z.
  induction shaderBlocks as [|block rest IH]; intros blockOffset blockOffset' z; simpl.
  - intros [= <- <-]. repeat split. exists []. split; [reflexivity|constructor].
  - rewrite memberLoop_frame.
    destruct (memberLoop block blockOffset (UniformBufferReflection.Members block) zero)
      as [[err|] zm] eqn:Em; simpl; [discriminate|].
    rewrite blockLoop_frame. simpl.
    destruct (blockLoop rest (int.add blockOffset (UniformBufferReflection.Size block)) zero)
      as [[err|] [off zr]] eqn:Er; simpl; [discriminate|].
    intros [= <- <-]. simpl.
    destruct (IH _ _ _ Er) as (Hoff & Hb & lss & Hl & Hlo).
    split; [exact Hoff|]. split; [now rewrite Hb|].
    exists (Locations zm :: lss). split; [simpl; now rewrite Hl|].
    constructor; [now apply memberLoop_ok|exact Hlo].
Qed.

(** The [j]-th member of the [k]-th block is at index
    (number of members of the blocks before) + [j], and its offset is the
    sizes of the blocks before, added up from [base], plus its own. *)
Lemma laid_out_nth base shaderBlocks lss :
  laid_out base shaderBlocks lss ->
  forall k block j member,
    nth_error shaderBlocks k = Some block ->
    nth_error (UniformBufferReflection.Members block) j = Some member ->
    exists loc,
      nth_error (List.concat lss)
        (List.length (flat_map UniformBufferReflection.Members (firstn k shaderBlocks)) + j)%nat
      = Some loc /\
      member_at block
        (fold_left int.add (map UniformBufferReflection.Size (firstn k shaderBlocks)) base)
        member loc.
Proof.
  induction 1 as [base|base b rest ls lss Hls Hrest IH]; intros k block j member Hk Hj.
  - now destruct k.
  - destruct k as [|k]; simpl in Hk.
    + injection Hk as ->. simpl.
      revert j Hj. induction Hls as [|m l ms ls' Hm Hms IHm]; intros j Hj.
      * now destruct j.
      * destruct j as [|j]; simpl in *.
        -- injection Hj as ->. now exists l.
        -- now apply IHm.
    + destruct (IH _ _ _ _ Hk Hj) as (loc & Hn & Hm).
      exists loc. split; [|exact Hm]. simpl.
      rewrite length_app, <- Nat.add_assoc.
      rewrite (Forall2_length Hls).
      rewrite nth_error_app2 by lia.
      now replace (_ + _ - _)%nat
        with (List.length (flat_map UniformBufferReflection.Members (firstn k rest)) + j)%nat by lia.
Qed.

Lemma laid_out_length base shaderBlocks lss :
  laid_out base shaderBlocks lss ->
  List.length (List.concat lss) = List.length (flat_map UniformBufferReflection.Members shaderBlocks).
Proof.
  induction 1 as [|base b rest ls lss Hls _ IH]; simpl; [reflexivity|].
  now rewrite !length_app, IH, (Forall2_length Hls).
Qed.

(** ** The parser in closed form *)

Lemma less_strict_weak : strict_weak less.
Proof. unfold strict_weak, less. split; intros; lia. Qed.

Lemma parseReflection_decoded_eq reflect info :
  parseReflection_decoded reflect info
  = let ri := inputLoop (shaderReflection.Inputs (shaderMetadata.VS reflect)) zero in
    match fst ri with
    | Some err => (Some err, extend info (Inputs (snd ri)) [] [] [])
    | None =>
        let sorted :=
          ShaderSources.set_Inputs info
            (sort_Slice _ (Inputs info ++ Inputs (snd ri)) less) in
        let rb := blockLoop (shaderBlocks_of reflect) 0 zero in
        match fst rb with
        | Some err =>
            (Some err,
             extend sorted [] (Blocks (snd (snd rb))) (Locations (snd (snd rb))) [])
        | None =>
            (None,
             extend
               (ShaderSources.set_Size
                  (extend sorted [] (Blocks (snd (snd rb))) (Locations (snd (snd rb))) [])
                  (fst (snd rb)))
               [] [] [] (Textures (textureLoop (textures_of reflect) zero)))
        end
    end.
Proof.
  unfold parseReflection_decoded. rewrite inputLoop_frame. simpl.
  destruct (fst (inputLoop _ zero)) as [err|]; [reflexivity|].
  rewrite blockLoop_frame. fold (shaderBlocks_of reflect). simpl.
  destruct (blockLoop (shaderBlocks_of reflect) 0 zero) as [[err|] [off zb]]; simpl.
  - f_equal. destruct info as [g1 g3 h [b l s] i t].
    unfold extend, ShaderSources.set_Inputs. simpl. now rewrite !app_nil_r.
  - fold (textures_of reflect). rewrite textureLoop_frame. f_equal.
    destruct info as [g1 g3 h [b l s] i t].
    unfold extend, ShaderSources.set_Inputs, ShaderSources.set_Size. simpl.
    now rewrite !app_nil_r.
Qed.

(** A successful parse, field by field. *)
Lemma parseReflection_decoded_ok reflect info info' :
  parseReflection_decoded reflect info = (None, info') ->
  exists zi off zb,
    inputLoop (shaderReflection.Inputs (shaderMetadata.VS reflect)) zero = (None, zi) /\
    blockLoop (shaderBlocks_of reflect) 0 zero = (None, (off, zb)) /\
    Inputs info' = sort_Slice _ (Inputs info ++ Inputs zi) less /\
    Blocks info' = Blocks info ++ Blocks zb /\
    Locations info' = Locations info ++ Locations zb /\
    USize info' = off /\
    Textures info' = Textures info ++ map texture_of (textures_of reflect) /\
    ShaderSources.GLSL100ES info' = ShaderSources.GLSL100ES info /\
    ShaderSources.GLSL300ES info' = ShaderSources.GLSL300ES info /\
    ShaderSources.HLSL info' = ShaderSources.HLSL info.
Proof.
  rewrite parseReflection_decoded_eq. simpl.
  destruct (inputLoop _ zero) as [[err|] zi]; simpl; [discriminate|].
  destruct (blockLoop (shaderBlocks_of reflect) 0 zero) as [[err|] [off zb]]; simpl;
    [discriminate|].
  intros [= <-]. exists zi, off, zb. simpl.
  rewrite textureLoop_map, !app_nil_r. now repeat split.
Qed.

(** Whether a parse fails, and with which error, does not depend on the
    record it fills. *)
Lemma parseReflection_decoded_error reflect info :
  fst (parseReflection_decoded reflect info)
  = fst (parseReflection_decoded reflect zero).
Proof.
  rewrite !parseReflection_decoded_eq. simpl.
  destruct (fst (inputLoop _ zero)); [reflexivity|].
  destruct (fst (blockLoop _ 0 zero)); reflexivity.
Qed.

Lemma StronglySorted_weaken {A : Type} (R S : A -> A -> Prop) (l : list A) :
  (forall a b, R a b -> S a b) -> StronglySorted R l -> StronglySorted S l.
Proof.
  intros HRS. induction 1 as [|a l _ IH Ha]; constructor; [exact IH|].
  eapply Forall_impl; [|exact Ha]. intros b. apply HRS.
Qed.

Lemma sorted_distinct_strict (l : list InputLocation.t) :
  StronglySorted (fun a b => less b a = false) l ->
  NoDup (map InputLocation.Location l) ->
  StronglySorted (fun a b => InputLocation.Location a < InputLocation.Location b) l.
Proof.
  induction 1 as [|a l Hl IH Ha]; intros Hnd; [constructor|].
  inversion Hnd as [|? ? Hnotin Hnd']; subst.
  constructor; [now apply IH|].
  rewrite Forall_forall in Ha |- *. intros b Hb.
  specialize (Ha b Hb). unfold less in Ha.
  assert (InputLocation.Location a <> InputLocation.Location b).
  { intros E. apply Hnotin. rewrite E. now apply in_map. }
  lia.
Qed.

Lemma input_of_locations inputRef xs :
  Forall2 input_of inputRef xs ->
  map InputLocation.Location xs = map InputReflection.Location inputRef.
Proof.
  induction 1 as [|input loc rest xs H _ IH]; simpl; [reflexivity|].
  destruct H as (_ & -> & _). now rewrite IH.
Qed.

(** ** The type and size mapper *)

(** C4. On each of the eight supported tokens [parseDataType] returns the
    kind of the token's base and the count of its suffix; on every other
    token it fails with the unsupported-type error, which names the token. *)
Theorem parseDataType_supported_or_error (t : string) :
  (forall r, In (t, r) supportedTypes -> parseDataType t = Ok r) /\
  (~ In t (map fst supportedTypes) ->
   parseDataType t = Err ("unsupported input data type: " +++ t)).
Proof.
  split.
  - intros r H. simpl in H.
    repeat (destruct H as [[= <- <-]|H]; [reflexivity|]). destruct H.
  - intros H. unfold parseDataType.
    repeat match goal with
           | |- context [String.eqb t ?s] =>
               destruct (String.eqb_spec t s) as [->|_];
               [exfalso; apply H; simpl; repeat (first [left; reflexivity|right])|]
           end.
    reflexivity.
Qed.

(** ** Uniform layout *)

(** C1. After a successful parse, with the blocks of the selected stage in
    document order: the [j]-th member of the [k]-th block is the location at
    index (members of the blocks before) + [j] among the appended ones, its
    offset is (the sizes of the blocks before, added up) + its offset in the
    block, and the aggregate size is all the block sizes added up. The sums
    are those of Go's [int]. *)
Theorem parseReflection_uniform_offsets
    (jsonData : list byte) (reflect : shaderMetadata.t) (info info' : ShaderSources.t) :
  json_Unmarshal jsonData = Ok reflect ->
  parseReflection jsonData info = (None, info') ->
  let shaderBlocks := shaderBlocks_of reflect in
  USize info' = int.sum (map UniformBufferReflection.Size shaderBlocks) /\
  List.length (Locations info')
  = (List.length (Locations info)
     + List.length (flat_map UniformBufferReflection.Members shaderBlocks))%nat /\
  forall k block j member,
    nth_error shaderBlocks k = Some block ->
    nth_error (UniformBufferReflection.Members block) j = Some member ->
    exists loc,
      nth_error (Locations info')
        (List.length (Locations info)
         + List.length (flat_map UniformBufferReflection.Members (firstn k shaderBlocks))
         + j)%nat
      = Some loc /\
      UniformLocation.Offset loc
      = int.add (int.sum (map UniformBufferReflection.Size (firstn k shaderBlocks)))
                (UniformMemberReflection.Offset member) /\
      UniformLocation.Name loc = uniformName block member.
Proof.
  intros Hjson Hparse shaderBlocks. unfold parseReflection in Hparse.
  rewrite Hjson in Hparse.
  destruct (parseReflection_decoded_ok _ _ _ Hparse)
    as (zi & off & zb & _ & Hb & _ & _ & Hl & Hs & _).
  destruct (blockLoop_ok _ _ _ _ Hb) as (Hoff & _ & lss & Hlss & Hlo).
  fold shaderBlocks in Hoff, Hlo. split; [|split].
  - now rewrite Hs, Hoff.
  - now rewrite Hl, length_app, Hlss, (laid_out_length _ _ _ Hlo).
  - intros k block j member Hk Hj.
    destruct (laid_out_nth _ _ _ Hlo _ _ _ _ Hk Hj) as (loc & Hn & Hname & Hoffset & _).
    exists loc. split; [|split]; [|exact Hoffset|exact Hname].
    rewrite Hl, <- Nat.add_assoc, nth_error_app2 by lia.
    rewrite Hlss.
    now replace (_ + _ - _)%nat
      with (List.length (flat_map UniformBufferReflection.Members (firstn k shaderBlocks)) + j)%nat
      by lia.
Qed.

(** ** Input order *)

(** Any successful parse leaves the inputs in ascending order of location,
    and they are the inputs found in the record and those of the vertex
    stage. *)
Lemma parseReflection_decoded_inputs reflect info info' :
  parseReflection_decoded reflect info = (None, info') ->
  exists xs,
    Forall2 input_of (shaderReflection.Inputs (shaderMetadata.VS reflect)) xs /\
    Permutation (Inputs info ++ xs) (Inputs info') /\
    StronglySorted
      (fun a b => InputLocation.Location a <= InputLocation.Location b) (Inputs info').
Proof using sort_Slice_Permutation sort_Slice_sorted.
  intros H.
  destruct (parseReflection_decoded_ok _ _ _ H) as (zi & off & zb & Hi & _ & Hs & _).
  exists (Inputs zi). split; [now apply inputLoop_ok|]. rewrite Hs. split.
  - apply sort_Slice_Permutation.
  - eapply StronglySorted_weaken; [|apply (sort_Slice_sorted _ _ _ less_strict_weak)].
    unfold less. intros a b Hab. lia.
Qed.

(** C3. When the vertex-stage inputs of the document have pairwise distinct
    locations, a successful parse into a fresh record leaves the inputs
    strictly ascending by location, whatever their order in the document;
    they are the document's inputs, each one converted. *)
Theorem parseReflection_inputs_sorted
    (jsonData : list byte) (reflect : shaderMetadata.t) (info' : ShaderSources.t) :
  json_Unmarshal jsonData = Ok reflect ->
  NoDup (map InputReflection.Location
             (shaderReflection.Inputs (shaderMetadata.VS reflect))) ->
  parseReflection jsonData zero = (None, info') ->
  StronglySorted
    (fun a b => InputLocation.Location a < InputLocation.Location b) (Inputs info') /\
  exists xs,
    Forall2 input_of (shaderReflection.Inputs (shaderMetadata.VS reflect)) xs /\
    Permutation xs (Inputs info').
Proof using sort_Slice_Permutation sort_Slice_sorted.
  intros Hjson Hnd Hparse. unfold parseReflection in Hparse. rewrite Hjson in Hparse.
  destruct (parseReflection_decoded_ok _ _ _ Hparse)
    as (zi & off & zb & Hi & _ & Hs & _).
  simpl in Hs. pose proof (inputLoop_ok _ _ Hi) as Hxs.
  split.
  - apply sorted_distinct_strict.
    + rewrite Hs. apply (sort_Slice_sorted _ _ _ less_strict_weak).
    + eapply Permutation_NoDup; [|exact Hnd].
      rewrite <- (input_of_locations _ _ Hxs). apply Permutation_map.
      rewrite Hs. apply sort_Slice_Permutation.
  - exists (Inputs zi). split; [exact Hxs|]. rewrite Hs. apply sort_Slice_Permutation.
Qed.

(** ** Stage fallback *)

Lemma orElse_nonempty {A : Type} (vs fs fs' : list A) :
  vs <> [] -> orElse vs fs = orElse vs fs'.
Proof. now destruct vs. Qed.

(** C5. The blocks the parser reads are those of the fragment stage, as
    they are, when the vertex stage has none, and those of the vertex stage
    when it has one; the textures it reads are chosen the same way, whatever
    the blocks are. A parse that succeeds appends to the record one block
    for each block it reads, with its name and binding, the locations of
    their members laid out from offset zero, and one binding for each
    texture it reads, and sets the uniform size to the sum of the sizes of
    the blocks it reads. The stage it does not read is ignored: with no
    vertex-stage block the outcome is the one of the document that has the
    fragment-stage blocks in its vertex stage, and with a vertex-stage block
    replacing the fragment-stage blocks by any others leaves the outcome,
    error and record, unchanged; likewise for the textures. *)
Theorem parseReflection_stage_fallback
    (jsonData : list byte) (reflect : shaderMetadata.t) (info : ShaderSources.t) :
  json_Unmarshal jsonData = Ok reflect ->
  let vs := shaderMetadata.VS reflect in
  let fs := shaderMetadata.FS reflect in
  (forall info',
     parseReflection jsonData info = (None, info') ->
     exists blocks textures lss,
       (shaderReflection.UniformBuffers vs = [] ->
        blocks = shaderReflection.UniformBuffers fs) /\
       (shaderReflection.UniformBuffers vs <> [] ->
        blocks = shaderReflection.UniformBuffers vs) /\
       (shaderReflection.Textures vs = [] -> textures = shaderReflection.Textures fs) /\
       (shaderReflection.Textures vs <> [] -> textures = shaderReflection.Textures vs) /\
       Blocks info' = Blocks info ++ map block_of blocks /\
       laid_out 0 blocks lss /\
       Locations info' = Locations info ++ List.concat lss /\
       USize info' = int.sum (map UniformBufferReflection.Size blocks) /\
       Textures info' = Textures info ++ map texture_of textures) /\
  (forall jsonData' reflect',
     json_Unmarshal jsonData' = Ok reflect' ->
     (shaderReflection.UniformBuffers vs = [] ->
      reflect' = withVertexBlocks reflect (shaderReflection.UniformBuffers fs) ->
      parseReflection jsonData info = parseReflection jsonData' info) /\
     (shaderReflection.UniformBuffers vs <> [] ->
      (exists blocks, reflect' = withFragmentBlocks reflect blocks) ->
      parseReflection jsonData info = parseReflection jsonData' info) /\
     (shaderReflection.Textures vs = [] ->
      reflect' = withVertexTextures reflect (shaderReflection.Textures fs) ->
      parseReflection jsonData info = parseReflection jsonData' info) /\
     (shaderReflection.Textures vs <> [] ->
      (exists textures, reflect' = withFragmentTextures reflect textures) ->
      parseReflection jsonData info = parseReflection jsonData' info)).
Proof.
  intros Hjson vs fs. split.
  - intros info'. unfold parseReflection. rewrite Hjson. intros Hparse.
    destruct (parseReflection_decoded_ok _ _ _ Hparse)
      as (zi & off & zb & _ & Hb & _ & HB & HL & HS & HT & _).
    destruct (blockLoop_ok _ _ _ _ Hb) as (Hoff & Hblocks & lss & Hlocs & Hlaid).
    exists (shaderBlocks_of reflect), (textures_of reflect), lss.
    unfold shaderBlocks_of, textures_of in *. fold vs fs in Hlaid, Hblocks, Hoff, HT |- *.
    split; [now intros ->|]. split; [intros H; now destruct (shaderReflection.UniformBuffers vs)|].
    split; [now intros ->|]. split; [intros H; now destruct (shaderReflection.Textures vs)|].
    rewrite HB, HL, HS, HT, Hblocks, Hlocs, Hoff. now repeat split.
  - intros jsonData' reflect' Hjson'. unfold parseReflection. rewrite Hjson, Hjson'.
    destruct reflect as [[vi vb vt] [fi fb ft]]. simpl in vs, fs. subst vs fs. simpl.
    repeat split.
    + intros -> ->. unfold parseReflection_decoded. simpl. now destruct fb.
    + intros Hne [blocks ->]. unfold parseReflection_decoded. simpl.
      now rewrite (orElse_nonempty vb fb blocks Hne).
    + intros -> ->. unfold parseReflection_decoded. simpl. now destruct ft.
    + intros Hne [textures ->]. unfold parseReflection_decoded. simpl.
      now rewrite (orElse_nonempty vt ft textures Hne).
Qed.

(** ** Parsing twice *)


(** ** Parsing into a record that is not empty *)

(** C9. Where the parse of a document into a fresh record succeeds, with
    result [fresh], the parse into any record [info] succeeds too, and keeps
    what [info] holds. It appends the entries of the document: one block,
    with its name and binding, for each block read; the locations of their
    members, laid out from a block offset that starts at zero; one binding
    for each texture read; and the converted inputs of the vertex stage, the
    inputs of the record being then sorted anew by location. It sets the
    uniform size to the sum of the sizes of the blocks read, whatever it was.
    What is appended is what [fresh] holds, and the size is that of [fresh]:
    parsing the document twice into one record doubles every list. *)
Theorem parseReflection_appends
    (jsonData : list byte) (reflect : shaderMetadata.t) (info fresh : ShaderSources.t) :
  json_Unmarshal jsonData = Ok reflect ->
  parseReflection jsonData zero = (None, fresh) ->
  exists info' xs lss,
    parseReflection jsonData info = (None, info') /\
    Forall2 input_of (shaderReflection.Inputs (shaderMetadata.VS reflect)) xs /\
    Permutation (Inputs info ++ xs) (Inputs info') /\
    StronglySorted
      (fun a b => InputLocation.Location a <= InputLocation.Location b) (Inputs info') /\
    Blocks info' = Blocks info ++ map block_of (shaderBlocks_of reflect) /\
    laid_out 0 (shaderBlocks_of reflect) lss /\
    Locations info' = Locations info ++ List.concat lss /\
    USize info' = int.sum (map UniformBufferReflection.Size (shaderBlocks_of reflect)) /\
    Textures info' = Textures info ++ map texture_of (textures_of reflect) /\
    Permutation (Inputs info ++ Inputs fresh) (Inputs info') /\
    Blocks info' = Blocks info ++ Blocks fresh /\
    Locations info' = Locations info ++ Locations fresh /\
    USize info' = USize fresh /\
    Textures info' = Textures info ++ Textures fresh.
Proof using sort_Slice_Permutation sort_Slice_sorted.
  unfold parseReflection. intros Hjson. rewrite Hjson. intros Hfresh.
  pose proof (parseReflection_decoded_error reflect info) as Herr.
  rewrite Hfresh in Herr. simpl in Herr.
  destruct (parseReflection_decoded reflect info) as [e info'] eqn:Hinfo.
  simpl in Herr. subst e.
  destruct (parseReflection_decoded_ok _ _ _ Hfresh)
    as (zi & off & zb & Hi & Hb & HI & HB & HL & HS & HT & _).
  destruct (parseReflection_decoded_ok _ _ _ Hinfo)
    as (zi' & off' & zb' & Hi' & Hb' & HI' & HB' & HL' & HS' & HT' & _).
  rewrite Hi in Hi'. injection Hi' as <-. rewrite Hb in Hb'. injection Hb' as <- <-.
  destruct (blockLoop_ok _ _ _ _ Hb) as (Hoff & Hblocks & lss & Hlocs & Hlaid).
  destruct (parseReflection_decoded_inputs _ _ _ Hinfo) as (xs & Hxs & Hperm & Hsorted).
  simpl in HI, HB, HL, HT.
  exists info', xs, lss.
  split; [reflexivity|]. split; [exact Hxs|]. split; [exact Hperm|]. split; [exact Hsorted|].
  split; [now rewrite HB', Hblocks|]. split; [exact Hlaid|].
  split; [now rewrite HL', Hlocs|]. split; [now rewrite HS', Hoff|].
  split; [exact HT'|]. split.
  { rewrite HI', HI. etransitivity; [|apply sort_Slice_Permutation].
    apply Permutation_app_head. symmetry. apply sort_Slice_Permutation. }
  split; [now rewrite HB', HB|]. split; [now rewrite HL', HL|].
  split; [now rewrite HS', HS|now rewrite HT', HT].
Qed.

(** ** Failures of the parser *)

(** Malformed JSON fails the parse and leaves the record as it was. *)
Lemma parseReflection_malformed (jsonData : list byte) (info : ShaderSources.t) err :
  json_Unmarshal jsonData = Err err ->
  parseReflection jsonData info = (Some (parseReflection_error err), info).
Proof. intros H. unfold parseReflection. now rewrite H. Qed.

Lemma inputLoop_unsupported inputRef input err (info : ShaderSources.t) :
  In input inputRef ->
  parseDataType (InputReflection.Type_ input) = Err err ->
  fst (inputLoop inputRef info) <> None.
Proof.
  revert info. induction inputRef as [|first rest IH]; intros info Hin Herr; [destruct Hin|].
  simpl. destruct Hin as [->|Hin].
  - now rewrite Herr.
  - destruct (parseDataType (InputReflection.Type_ first)) as [[dataType dataSize]|e];
      [now apply IH|discriminate].
Qed.

(** An input of a type that is not supported fails the parse. *)
Lemma parseReflection_unsupported_input
    (jsonData : list byte) (reflect : shaderMetadata.t) (info : ShaderSources.t)
    input err :
  json_Unmarshal jsonData = Ok reflect ->
  In input (shaderReflection.Inputs (shaderMetadata.VS reflect)) ->
  parseDataType (InputReflection.Type_ input) = Err err ->
  fst (parseReflection jsonData info) <> None.
Proof.
  intros Hjson Hin Herr. unfold parseReflection, parseReflection_decoded.
  rewrite Hjson. pose proof (inputLoop_unsupported _ _ _ info Hin Herr) as H.
  destruct (inputLoop _ info) as [[e|] info1]; [discriminate|now elim H].
Qed.

(** ** Reasoning on runs *)

Lemma wp_run {W A : Type} (h : handler W) (p : Prog A) (Q : A -> list entry -> Prop) :
  wp p Q -> forall w, Q (value (run h p w)) (trace (run h p w)).
Proof.
  revert Q. induction p as [a|e k IH|f err k IH]; intros Q Hwp w; simpl in *.
  - exact Hwp.
  - destruct (h e w) as [x w1]. specialize (IH x _ (Hwp x) w1).
    destruct (run h (k x) w1) as [[a w2] tr]. exact IH.
  - specialize (IH _ Hwp w). destruct (run h k w) as [[a w2] tr]. exact IH.
Qed.

Lemma wp_mono {A : Type} (p : Prog A) (Q Q' : A -> list entry -> Prop) :
  (forall a tr, Q a tr -> Q' a tr) -> wp p Q -> wp p Q'.
Proof.
  revert Q Q'. induction p as [a|e k IH|f err k IH]; intros Q Q' HQ Hwp; simpl in *.
  - now apply HQ.
  - intros x. eapply IH; [|apply Hwp]. intros a tr. apply HQ.
  - eapply IH; [|apply Hwp]. intros a tr. apply HQ.
Qed.

Lemma wp_bind {A B : Type} (p : Prog A) (k : A -> Prog B) (Q : B -> list entry -> Prop) :
  wp p (fun a t1 => wp (k a) (fun b t2 => Q b (t1 ++ t2))) -> wp (bind p k) Q.
Proof.
  revert Q. induction p as [a|e h IH|f err h IH]; intros Q Hwp; simpl in *.
  - eapply wp_mono; [|exact Hwp]. now intros b tr.
  - intros x. apply IH. exact (Hwp x).
  - apply IH. exact Hwp.
Qed.

Lemma wp_conj {A : Type} (p : Prog A) (Q Q' : A -> list entry -> Prop) :
  wp p Q -> wp p Q' -> wp p (fun a tr => Q a tr /\ Q' a tr).
Proof.
  revert Q Q'. induction p as [a|e k IH|f err k IH]; intros Q Q' H H'; simpl in *.
  - now split.
  - intros x. exact (IH x _ _ (H x) (H' x)).
  - exact (IH _ _ H H').
Qed.

(** A call of a stage: the trace of the stage, then the note of its
    return. *)
Lemma wp_staged {A : Type} (f : stage) (p : Prog (result A))
    (Q : result A -> list entry -> Prop) :
  wp p Q ->
  wp (staged f p) (fun r tr => exists t, tr = t ++ [Returned f (error_of r)] /\ Q r t).
Proof.
  intros H. unfold staged. apply wp_bind. eapply wp_mono; [|exact H].
  intros r t HQ. simpl. exists t. now split.
Qed.

(** ** The steps of a trace *)

Lemma progOf_recognized path x : progOf (filepath_Ext path) = Some x -> recognized path.
Proof.
  unfold progOf, recognized.
  destruct (String.eqb_spec (filepath_Ext path) ".vert"); [now left|].
  destruct (String.eqb_spec (filepath_Ext path) ".frag"); [now right|discriminate].
Qed.

Lemma hlslProfOf_recognized path : recognized path -> hlslProfOf (filepath_Ext path) <> None.
Proof. unfold hlslProfOf. now intros [-> | ->]. Qed.

Lemma convertShader_steps tmp glslcc path lang profile args flattenUBOs :
  wp (convertShader tmp glslcc path lang profile args flattenUBOs)
     (fun r tr => Forall (scratch tmp) tr /\ (error_of r = None -> recognized path)).
Proof.
  unfold convertShader, defer, call. simpl.
  intros [shaderTmpl|err]; simpl; [|split; [repeat constructor|discriminate]].
  intros [buf|err]; simpl; [|split; [repeat constructor|discriminate]].
  intros [err|]; simpl; [split; [repeat constructor; now eexists|discriminate]|].
  destruct (progOf (filepath_Ext path)) as [[progFlag progSuffix]|] eqn:Eprog; simpl.
  2:{ intros ?. split; [repeat constructor; now eexists|discriminate]. }
  pose proof (progOf_recognized _ _ Eprog) as Hrec.
  intros [err|]; simpl.
  { intros ?. split; [repeat constructor; now eexists|discriminate]. }
  intros [f|err]; simpl.
  2:{ intros ?. split; [repeat constructor; now eexists|discriminate]. }
  intros [src|err]; simpl.
  2:{ intros ? ? ?. split; [repeat constructor; now eexists|discriminate]. }
  intros [reflect|err]; simpl;
    intros ? ? ?; (split; [repeat constructor; now eexists|auto; try discriminate]).
Qed.

Lemma compileHLSL_steps tmp fxc src entry profile :
  wp (compileHLSL tmp fxc src entry profile) (fun _ tr => Forall (scratch tmp) tr).
Proof.
  unfold compileHLSL, call. simpl.
  intros [err|]; simpl; [repeat constructor; now eexists|].
  intros [err|]; simpl; [repeat constructor; now eexists|].
  intros r. repeat constructor; now eexists.
Qed.

(** A shader whose extension is neither [.vert] nor [.frag] fails every
    conversion. *)
Lemma convertShader_unrecognized tmp glslcc path lang profile args flattenUBOs :
  ~ recognized path ->
  wp (convertShader tmp glslcc path lang profile args flattenUBOs)
     (fun r _ => error_of r <> None).
Proof.
  intros Hpath. eapply wp_mono; [|apply convertShader_steps].
  intros r tr [_ Hrec] Hok. exact (Hpath (Hrec Hok)).
Qed.

(** ** The loop over the stages *)

Arguments convertShader : simpl never.
Arguments compileHLSL : simpl never.
Arguments staged : simpl never.
Arguments parseReflection : simpl never.

Lemma stages_ok_nil {A : Type} tmp fxcFound (a : A) : stages_ok tmp fxcFound (Ok a) [].
Proof. repeat split; constructor. Qed.

Lemma stages_ok_app {A B : Type} tmp fxcFound (a : A) (r : result B) t1 t2 :
  stages_ok tmp fxcFound (Ok a) t1 ->
  stages_ok tmp fxcFound r t2 ->
  stages_ok tmp fxcFound r (t1 ++ t2).
Proof.
  intros (H1 & C1 & F1) (H2 & C2 & F2). split; [|split].
  - apply Forall_app. now split.
  - destruct r as [b|err]; simpl in *.
    + apply Forall_app. now split.
    + destruct C2 as (pre & f & -> & Hpre). exists (t1 ++ pre), f.
      split; [now rewrite app_assoc|]. apply Forall_app. now split.
  - intros E. apply Forall_app. split; auto.
Qed.

(** The trace of a call of a stage other than [compileHLSL]. *)
Lemma stages_ok_staged {A : Type} tmp fxcFound (f : stage) (r : result A) t :
  (fxcFound = false -> f <> CompileHLSL) ->
  Forall (scratch tmp) t ->
  stages_ok tmp fxcFound r (t ++ [Returned f (error_of r)]).
Proof.
  intros Hf Ht.
  assert (Hclean : clean t).
  { eapply Forall_impl; [|exact Ht]. intros [e x|g err]; simpl; prop. }
  split; [|split].
  - apply Forall_app. split.
    + eapply Forall_impl; [|exact Ht]. intros en. now left.
    + constructor; [now right|constructor].
  - destruct r as [a|err]; simpl.
    + apply Forall_app. split; [exact Hclean|]. repeat constructor. simpl. prop.
    + exists t, f. split; [reflexivity|exact Hclean].
  - intros E. apply Forall_app. split.
    + eapply Forall_impl; [|exact Ht]. intros [e x|g err]; simpl; prop.
    + repeat constructor. specialize (Hf E). destruct f; simpl; prop.
Qed.

Lemma wp_frame {A B : Type} tmp fxcFound (a : A) (p : Prog (result B)) t1
    (E : result B -> Prop) :
  stages_ok tmp fxcFound (Ok a) t1 ->
  wp p (fun r t => stages_ok tmp fxcFound r t /\ E r) ->
  wp p (fun r t => stages_ok tmp fxcFound r (t1 ++ t) /\ E r).
Proof.
  intros H1. apply wp_mono. intros r t [H2 HE]. split; [|exact HE].
  now apply (stages_ok_app _ _ a).
Qed.

Lemma variantBody_stages tmp glslcc fxc fxcFound shader v arg :
  wp (variantBody tmp glslcc fxc fxcFound shader v arg)
     (fun r tr =>
        stages_ok tmp fxcFound r tr /\
        (fxcFound = false -> forall v', r = Ok v' -> without_bytecode v')).
Proof.
  unfold variantBody.
  apply wp_bind. eapply wp_mono; [|apply wp_staged, convertShader_steps].
  intros r1 t1 (s1 & -> & Hs1 & Hrec).
  pose proof (stages_ok_staged tmp fxcFound ConvertShader r1 s1
                ltac:(discriminate) Hs1) as H1.
  destruct r1 as [[glsl100 reflect]|err]; cbn.
  2:{ rewrite app_nil_r. split; [exact H1|discriminate]. }
  specialize (Hrec eq_refl).
  destruct (parseReflection reflect (Sources v)) as [[err|] sources]; cbn.
  { split; [|discriminate]. apply (stages_ok_app _ _ _ _ _ _ H1).
    split; [|split].
    - constructor; [now right|constructor].
    - exists [], ParseReflection. split; [reflexivity|constructor].
    - intros _. repeat constructor. cbn. prop. }
  assert (H2 : stages_ok tmp fxcFound (Ok tt)
                 ((s1 ++ [Returned ConvertShader None]) ++ [Returned ParseReflection None])).
  { apply (stages_ok_app _ _ _ _ _ _ H1). split; [|split].
    - constructor; [now right|constructor].
    - repeat constructor. cbn. prop.
    - intros _. repeat constructor. cbn. prop. }
  match goal with |- wp ?p _ =>
    apply (wp_mono p (fun r t =>
      stages_ok tmp fxcFound r
        (((s1 ++ [Returned ConvertShader None]) ++ [Returned ParseReflection None]) ++ t) /\
      (fxcFound = false -> forall v', r = Ok v' -> without_bytecode v')))
  end.
  { intros r t. now rewrite <- app_assoc. }
  apply (wp_frame _ _ tt); [exact H2|]. clear H1 H2 Hs1 s1.
  apply wp_bind. eapply wp_mono; [|apply wp_staged, convertShader_steps].
  intros r3 t3 (s3 & -> & Hs3 & _).
  pose proof (stages_ok_staged tmp fxcFound ConvertShader r3 s3
                ltac:(discriminate) Hs3) as H3.
  destruct r3 as [[glsl300 reflect300]|err]; cbn.
  2:{ rewrite app_nil_r. split; [exact H3|discriminate]. }
  apply (wp_frame _ _ _ _ _ _ H3). clear H3 Hs3 s3.
  apply wp_bind. eapply wp_mono; [|apply wp_staged, convertShader_steps].
  intros r4 t4 (s4 & -> & Hs4 & _).
  pose proof (stages_ok_staged tmp fxcFound ConvertShader r4 s4
                ltac:(discriminate) Hs4) as H4.
  destruct r4 as [[hlsl reflectH]|err]; cbn.
  2:{ rewrite app_nil_r. split; [exact H4|discriminate]. }
  apply (wp_frame _ _ _ _ _ _ H4). clear H4 Hs4 s4.
  destruct (hlslProfOf (filepath_Ext shader)) as [hlslProf|] eqn:Eprof.
  2:{ exfalso. now apply (hlslProfOf_recognized shader). }
  destruct fxcFound; cbn.
  - apply wp_bind. apply wp_bind.
    eapply wp_mono; [|apply wp_staged, compileHLSL_steps].
    intros r5 t5 (s5 & -> & Hs5).
    pose proof (stages_ok_staged tmp true CompileHLSL r5 s5
                  ltac:(discriminate) Hs5) as H5.
    destruct r5 as [hlslc|err]; cbn; rewrite !app_nil_r;
      (split; [exact H5|discriminate]).
  - split; [apply stages_ok_nil|]. intros _ v' [= <-]. reflexivity.
Qed.

Lemma variantsLoop_stages tmp glslcc fxc fxcFound shader args :
  wp (variantsLoop tmp glslcc fxc fxcFound shader args)
     (fun r tr =>
        stages_ok tmp fxcFound r tr /\
        (fxcFound = false -> forall vs, r = Ok vs -> Forall without_bytecode vs)).
Proof.
  induction args as [|arg rest IH]; cbn.
  - split; [apply stages_ok_nil|]. intros _ vs [= <-]. constructor.
  - apply wp_bind. eapply wp_mono; [|apply variantBody_stages].
    intros r1 t1 [H1 E1]. destruct r1 as [v|err]; cbn.
    2:{ rewrite app_nil_r. split; [exact H1|discriminate]. }
    apply wp_bind. eapply wp_mono; [|exact IH].
    intros r2 t2 [H2 E2]. destruct r2 as [vs|err]; cbn; rewrite app_nil_r.
    + split; [exact (stages_ok_app _ _ _ _ _ _ H1 H2)|].
      intros E ? [= <-]. constructor; [now apply E1|now apply E2].
    + split; [exact (stages_ok_app _ _ _ _ _ _ H1 H2)|discriminate].
Qed.

Lemma bytecode_absent_app (a b : Buffer) :
  bytecode_absent a -> bytecode_absent b -> bytecode_absent (a ++ b).
Proof.
  intros Ha Hb format operands x Hin. apply in_app_or in Hin.
  destruct Hin; [now apply (Ha format operands)|now apply (Hb format operands)].
Qed.

Lemma bytecode_absent_plain (format : string) :
  bytecode_absent [Fprintf format []].
Proof. intros f ops b [[= <- <-]|[]] []. Qed.

Lemma writeSources_bytecode_absent multiVariant src :
  without_bytecode src -> bytecode_absent (writeSources multiVariant src).
Proof.
  unfold without_bytecode. intros Hsrc format operands b Hin Hb.
  unfold writeSources in Hin. rewrite Hsrc in Hin.
  repeat (apply in_app_or in Hin; destruct Hin as [Hin|Hin]);
    repeat match goal with
           | H : In _ (if ?c then _ else _) |- _ => destruct c
           end;
    simpl in Hin;
    repeat (destruct Hin as [[= <- <-]|Hin];
            [simpl in Hb; prop|]);
    destruct Hin.
Qed.

Lemma sourcesLoop_bytecode_absent multiVariant variants out :
  bytecode_absent out -> Forall without_bytecode variants ->
  bytecode_absent (sourcesLoop multiVariant variants out).
Proof.
  intros Hout Hvs. revert out Hout.
  induction Hvs as [|src rest Hsrc _ IH]; intros out Hout; simpl; [exact Hout|].
  assert (bytecode_absent (out ++ writeSources multiVariant src)).
  { apply bytecode_absent_app; [exact Hout|now apply writeSources_bytecode_absent]. }
  destruct multiVariant; simpl; [now apply IH|assumption].
Qed.

Lemma emitShader_bytecode_absent shader variants out :
  bytecode_absent out -> Forall without_bytecode variants ->
  bytecode_absent (emitShader shader variants out).
Proof.
  intros Hout Hvs. unfold emitShader.
  assert (H1 : bytecode_absent
                 (out ++ [Fprintf (TAB +++ "shader_%s = ")
                            [AString (strings_ReplaceAll (filepath_Base shader) "." "_")]])).
  { apply bytecode_absent_app; [exact Hout|].
    intros f ops b [[= <- <-]|[]] [[=]|[]]. }
  destruct (negb _); cbv zeta.
  - apply bytecode_absent_app; [|apply bytecode_absent_plain].
    apply sourcesLoop_bytecode_absent; [|exact Hvs].
    apply bytecode_absent_app; [exact H1|apply bytecode_absent_plain].
  - now apply sourcesLoop_bytecode_absent.
Qed.

Arguments variantArgs : simpl never.
Arguments emitShader : simpl never.

Lemma shadersLoop_stages tmp glslcc fxc fxcFound shaders out :
  wp (shadersLoop tmp glslcc fxc fxcFound shaders out)
     (fun r tr =>
        stages_ok tmp fxcFound r tr /\
        (fxcFound = false -> bytecode_absent out ->
         forall out', r = Ok out' -> bytecode_absent out')).
Proof.
  revert out. induction shaders as [|shader rest IH]; intros out; cbn.
  - split; [apply stages_ok_nil|]. now intros _ Hout out' [= <-].
  - apply wp_bind. eapply wp_mono; [|apply variantsLoop_stages].
    intros r1 t1 [H1 E1]. destruct r1 as [variants|err]; cbn.
    2:{ rewrite app_nil_r. split; [exact H1|discriminate]. }
    eapply wp_mono; [|apply IH].
    intros r2 t2 [H2 E2]. split; [exact (stages_ok_app _ _ _ _ _ _ H1 H2)|].
    intros E Hout out' Hr. apply (E2 E); [|exact Hr].
    apply emitShader_bytecode_absent; [exact Hout|]. now apply (E1 E).
Qed.

(** ** What is in the buffer *)

Lemma count_format_app format (a b : Buffer) :
  count_format format (a ++ b) = (count_format format a + count_format format b)%nat.
Proof. unfold count_format. now rewrite filter_app, length_app. Qed.

Lemma operands_of_app format (a b : Buffer) :
  operands_of format (a ++ b) = operands_of format a ++ operands_of format b.
Proof. unfold operands_of. now rewrite flat_map_app. Qed.

Lemma records_complete_app (a b : Buffer) :
  records_complete a -> records_complete b -> records_complete (a ++ b).
Proof.
  unfold records_complete, records. intros (A1 & A2 & A3 & A4) (B1 & B2 & B3 & B4).
  rewrite !count_format_app. repeat split; congruence.
Qed.

Lemma writeSources_counts multiVariant src :
  records (writeSources multiVariant src) = 1%nat /\
  records_complete (writeSources multiVariant src).
Proof.
  unfold records_complete, records, writeSources.
  destruct (0 <? _), (0 <? _), (0 <? _), multiVariant; repeat split; reflexivity.
Qed.

Lemma sourcesLoop_records_complete multiVariant variants out :
  records_complete out -> records_complete (sourcesLoop multiVariant variants out).
Proof.
  revert out. induction variants as [|src rest IH]; intros out Hout; simpl; [exact Hout|].
  assert (records_complete (out ++ writeSources multiVariant src)).
  { apply records_complete_app; [exact Hout|apply writeSources_counts]. }
  destruct multiVariant; simpl; [now apply IH|assumption].
Qed.

Lemma emitShader_records_complete shader variants out :
  records_complete out -> records_complete (emitShader shader variants out).
Proof.
  intros Hout. unfold emitShader.
  destruct (negb _); cbv zeta.
  - apply records_complete_app; [|now repeat split].
    apply sourcesLoop_records_complete.
    rewrite <- app_assoc. apply records_complete_app; [exact Hout|now repeat split].
  - apply sourcesLoop_records_complete.
    apply records_complete_app; [exact Hout|now repeat split].
Qed.

Lemma wp_True {A : Type} (p : Prog A) : wp p (fun _ _ => True).
Proof. induction p; simpl; auto. Qed.

Lemma shadersLoop_records_complete tmp glslcc fxc fxcFound shaders out :
  wp (shadersLoop tmp glslcc fxc fxcFound shaders out)
     (fun r _ => records_complete out ->
                 forall out', r = Ok out' -> records_complete out').
Proof.
  revert out. induction shaders as [|shader rest IH]; intros out; cbn.
  - now intros Hout out' [= <-].
  - apply wp_bind. eapply wp_mono; [|apply wp_True].
    intros [variants|err] t1 _; cbn; [|discriminate].
    eapply wp_mono; [|apply IH]. cbn.
    intros r t2 H Hout. apply H. now apply emitShader_records_complete.
Qed.

(** ** The runs of [generate] *)

Lemma header_bytecode_absent :
  bytecode_absent
    [WriteString ("// Code generated by build.go. DO NOT EDIT." +++ LF +++ LF);
     Fprintf ("package %s" +++ LF +++ LF) [AString packageName];
     Fprintf ("import %q" +++ LF +++ LF) [AString "gioui.org/gpu/backend"];
     WriteString ("var (" +++ LF)].
Proof.
  intros format operands b Hin Hb. simpl in Hin.
  destruct Hin as [H|[H|[H|[H|[]]]]]; try discriminate H;
    injection H as <- <-; destruct Hb as [Hb|[]]; discriminate Hb.
Qed.

Lemma generate_runs : wp generate generate_run.
Proof.
  unfold generate, defer, call. cbn.
  intros [tmp|err]; cbn; [|constructor].
  intros [glslcc|err]; cbn; [|intros x; constructor].
  intros rf. intros [shaders|err]; cbn; [|intros x; constructor].
  apply wp_bind. apply wp_bind.
  eapply wp_mono;
    [|apply wp_conj; [apply shadersLoop_stages|apply shadersLoop_records_complete]].
  cbn. intros [out|err] loop [[Hloop Hbc] Hrc]; cbn.
  - assert (Hout : found rf = false -> bytecode_absent out).
    { intros E. apply (Hbc E); [|reflexivity]. apply header_bytecode_absent. }
    assert (Hcomplete : records_complete out).
    { apply Hrc; [|reflexivity]. now repeat split. }
    replace (match rf with Ok _ => true | Err _ => false end) with (found rf) in Hloop
      by reflexivity.
    intros [gosrc|err]; cbn.
    + intros r x. rewrite <- !app_assoc. cbn.
      exact (run_written tmp glslcc rf shaders loop out gosrc r x Hloop Hout Hcomplete).
    + intros x. rewrite <- !app_assoc. cbn.
      exact (run_not_formatted tmp glslcc rf shaders loop out err x Hloop Hout Hcomplete).
  - intros x. rewrite app_nil_r.
    exact (run_stage_failed tmp glslcc rf shaders loop err x Hloop).
Qed.

Lemma step_written_under tmp en : step tmp en -> written_under tmp en.
Proof. destruct en as [[] x|f err]; unfold step; simpl; prop. Qed.

Lemma step_formatted tmp P en : step tmp en -> formatted P en.
Proof. destruct en as [[] x|f err]; unfold step; simpl; prop. Qed.


Lemma step_not_writes_artifact tmp en :
  (forall elem, filepath_Join tmp elem <> artifact) ->
  step tmp en -> ~ writes_artifact en.
Proof.
  intros Hjoin. destruct en as [[] x|f err]; unfold step; simpl; try prop.
  all: intros [[elem ->]|[]]; apply Hjoin.
Qed.

(** In a run of stages that returns an error, the only stage to have
    returned one is the last, and the error is that one. *)
Lemma fail_fast_In {A : Type} (r : result A) (loop : list entry) f err :
  fail_fast r loop ->
  In (Returned f (Some err)) loop ->
  r = Err err /\
  exists pre, loop = pre ++ [Returned f (Some err)] /\ clean pre.
Proof.
  intros Hff Hin. destruct r as [a|e]; simpl in Hff.
  - exfalso. unfold clean in Hff. rewrite Forall_forall in Hff.
    exact (Hff _ Hin I).
  - destruct Hff as (pre & f' & -> & Hpre). apply in_app_or in Hin.
    destruct Hin as [Hin|[[= <- <-]|[]]].
    + exfalso. unfold clean in Hpre. rewrite Forall_forall in Hpre.
      exact (Hpre _ Hin I).
    + split; [reflexivity|]. now exists pre.
Qed.

(** What a stage failure makes of a run of [generate]. *)
Lemma generate_run_failed r tr f err :
  generate_run r tr ->
  In (Returned f (Some err)) tr ->
  r = Some err /\
  (exists pre post,
     tr = pre ++ Returned f (Some err) :: post /\ clean pre /\ Forall cleanup post) /\
  exists tmp,
    hd_error tr = Some (Called (ioutil_TempDir EmptyString "shader-convert") (Ok tmp)) /\
    Forall (written_under tmp) tr /\
    Forall (formatted (fun _ => False)) tr /\
    ((forall elem, filepath_Join tmp elem <> artifact) ->
     Forall (fun en => ~ writes_artifact en) tr).
Proof.
  intros Hrun Hin.
  destruct Hrun as [e|tmp e x|tmp glslcc rf e x
                   |tmp glslcc rf shaders loop e x Hloop
                   |tmp glslcc rf shaders loop out e x Hloop Hout Hrc
                   |tmp glslcc rf shaders loop out gosrc r x Hloop Hout Hrc].
  1-3: simpl in Hin; repeat (destruct Hin as [Hin|Hin]; [discriminate Hin|]); destruct Hin.
  - destruct Hloop as (Hsteps & Hff & _).
    apply in_app_or in Hin.
    destruct Hin as [Hin|Hin];
      [simpl in Hin; repeat (destruct Hin as [Hin|Hin]; [discriminate Hin|]); destruct Hin|].
    apply in_app_or in Hin.
    destruct Hin as [Hin|Hin];
      [|simpl in Hin; repeat (destruct Hin as [Hin|Hin]; [discriminate Hin|]); destruct Hin].
    destruct (fail_fast_In _ _ _ _ Hff Hin) as ([= ->] & pre & -> & Hpre).
    split; [reflexivity|]. split.
    + exists (start tmp glslcc rf shaders ++ pre), [Called (os_RemoveAll tmp) x].
      split; [now rewrite <- !app_assoc|]. split.
      * apply Forall_app. split; [|exact Hpre]. repeat constructor; simpl; prop.
      * repeat constructor.
    + exists tmp. split; [reflexivity|]. split; [|split].
      * apply Forall_app. split; [repeat constructor|].
        apply Forall_app. split; [|repeat constructor].
        eapply Forall_impl; [|exact Hsteps]. apply step_written_under.
      * apply Forall_app. split; [repeat constructor|].
        apply Forall_app. split; [|repeat constructor].
        eapply Forall_impl; [|exact Hsteps]. apply step_formatted.
      * intros Hjoin. apply Forall_app. split; [repeat constructor; simpl; prop|].
        apply Forall_app. split; [|repeat constructor; simpl; prop].
        eapply Forall_impl; [|exact Hsteps]. intros en. now apply step_not_writes_artifact.
  - exfalso. destruct Hloop as (_ & Hff & _).
    apply in_app_or in Hin.
    destruct Hin as [Hin|Hin];
      [simpl in Hin; repeat (destruct Hin as [Hin|Hin]; [discriminate Hin|]); destruct Hin|].
    apply in_app_or in Hin.
    destruct Hin as [Hin|Hin];
      [|simpl in Hin; repeat (destruct Hin as [Hin|Hin]; [discriminate Hin|]); destruct Hin].
    now destruct (fail_fast_In _ _ _ _ Hff Hin).
  - exfalso. destruct Hloop as (_ & Hff & _).
    apply in_app_or in Hin.
    destruct Hin as [Hin|Hin];
      [simpl in Hin; repeat (destruct Hin as [Hin|Hin]; [discriminate Hin|]); destruct Hin|].
    apply in_app_or in Hin.
    destruct Hin as [Hin|Hin];
      [|simpl in Hin; repeat (destruct Hin as [Hin|Hin]; [discriminate Hin|]); destruct Hin].
    now destruct (fail_fast_In _ _ _ _ Hff Hin).
Qed.

(** C8. When a stage returns an error in a run of [generate] (a conversion,
    with its template, subprocess and shader type errors; the parse of a
    reflection, with its unsupported types; a bytecode compilation), in any
    environment: [generate] returns that error; no stage had failed before,
    and nothing follows but the removal of the temporary directory; nothing
    was handed to [format.Source], and every file written is one joined to
    the temporary directory, so that the generated file was not written as
    long as no path joined to that directory is its name. *)
Theorem generate_aborts_on_stage_failure
    {W : Type} (h : handler W) (w : W) (f : stage) (err : error) :
  let res := run h generate w in
  In (Returned f (Some err)) (trace res) ->
  value res = Some err /\
  (exists pre post,
     trace res = pre ++ Returned f (Some err) :: post /\
     clean pre /\ Forall cleanup post) /\
  exists tmp,
    hd_error (trace res)
    = Some (Called (ioutil_TempDir EmptyString "shader-convert") (Ok tmp)) /\
    Forall (written_under tmp) (trace res) /\
    Forall (formatted (fun _ => False)) (trace res) /\
    ((forall elem, filepath_Join tmp elem <> artifact) ->
     Forall (fun en => ~ writes_artifact en) (trace res)).
Proof.
  intros res. apply generate_run_failed. apply (wp_run h generate _ generate_runs).
Qed.


(** ** One record or two *)

Lemma length_pos_nonempty {A : Type} (l : list A) :
  (0 <? Z.of_nat (List.length l)) = match l with [] => false | _ :: _ => true end.
Proof. now destruct l. Qed.

(** The operands one record is written with. *)
Lemma writeSources_operands multiVariant src :
  let s := Sources src in
  let u := ShaderSources.Uniforms s in
  let added := writeSources multiVariant src in
  operands_of fmt_GLSL100ES added = [AString (ShaderSources.GLSL100ES s)] /\
  operands_of fmt_GLSL300ES added = [AString (ShaderSources.GLSL300ES s)] /\
  operands_of fmt_hlslSrc added = [AString (hlslSrc src)] /\
  operands_of fmt_HLSL added = [ABytes (ShaderSources.HLSL s)] /\
  operands_of fmt_Inputs added
  = match ShaderSources.Inputs s with
    | [] => []
    | _ :: _ => [AInputs (ShaderSources.Inputs s)]
    end /\
  operands_of fmt_Blocks added ++ operands_of fmt_Locations added
  ++ operands_of fmt_Size added
  = match UniformsReflection.Blocks u with
    | [] => []
    | _ :: _ => [ABlocks (UniformsReflection.Blocks u);
                 ALocations (UniformsReflection.Locations u);
                 AInt (UniformsReflection.Size u)]
    end /\
  operands_of fmt_Textures added
  = match ShaderSources.Textures s with
    | [] => []
    | _ :: _ => [ATextures (ShaderSources.Textures s)]
    end.
Proof.
  unfold writeSources. rewrite !length_pos_nonempty.
  destruct (ShaderSources.Inputs (Sources src)),
           (UniformsReflection.Blocks (ShaderSources.Uniforms (Sources src))),
           (ShaderSources.Textures (Sources src)), multiVariant;
    repeat split; reflexivity.
Qed.

Lemma emitShader_same shader v0 v1 out :
  ShaderSources.GLSL100ES (Sources v0) = ShaderSources.GLSL100ES (Sources v1) ->
  emitShader shader [v0; v1] out = out ++ writeName shader :: writeSources false v0.
Proof.
  intros E. unfold emitShader. cbn [nth]. rewrite E, String.eqb_refl.
  cbn [negb sourcesLoop]. rewrite <- !app_assoc. reflexivity.
Qed.

Lemma emitShader_differ shader v0 v1 out :
  ShaderSources.GLSL100ES (Sources v0) <> ShaderSources.GLSL100ES (Sources v1) ->
  emitShader shader [v0; v1] out
  = out ++ [writeName shader; Fprintf ("[...]backend.ShaderSources{" +++ LF) []]
        ++ writeSources true v0 ++ writeSources true v1 ++ [Fprintf ("}" +++ LF) []].
Proof.
  intros E. unfold emitShader. cbn [nth].
  apply String.eqb_neq in E. rewrite E. cbn [negb sourcesLoop].
  rewrite <- !app_assoc. reflexivity.
Qed.

(** [variants] has one element for each element of [args]. *)
Lemma variantsLoop_length tmp glslcc fxc fxcFound shader args :
  wp (variantsLoop tmp glslcc fxc fxcFound shader args)
     (fun r _ => forall vs, r = Ok vs -> List.length vs = List.length args).
Proof.
  induction args as [|arg rest IH]; cbn.
  - now intros vs [= <-].
  - apply wp_bind. eapply wp_mono; [|apply wp_True].
    intros [v|err] t1 _; cbn; [|discriminate].
    apply wp_bind. eapply wp_mono; [|exact IH].
    intros [vs|err] t2 H; cbn; [|discriminate].
    intros ? [= <-]. simpl. now rewrite (H vs eq_refl).
Qed.

(** C2. Once the two variants [v0] (uniform colour) and [v1] (textured) of a
    shader are computed, what is written for the shader is its name and: one
    record when their GLSL ES 100 texts are equal; two records, the one of
    [v0] before the one of [v1], when they differ. *)
Theorem emitShader_one_or_two_records (shader : string) (v0 v1 : variant) (out : Buffer) :
  let g0 := ShaderSources.GLSL100ES (Sources v0) in
  let g1 := ShaderSources.GLSL100ES (Sources v1) in
  exists added,
    emitShader shader [v0; v1] out = out ++ added /\
    (g0 = g1 ->
     records added = 1%nat /\
     operands_of fmt_GLSL100ES added = [AString g0]) /\
    (g0 <> g1 ->
     records added = 2%nat /\
     operands_of fmt_GLSL100ES added = [AString g0; AString g1] /\
     added = [writeName shader; Fprintf ("[...]backend.ShaderSources{" +++ LF) []]
             ++ writeSources true v0 ++ writeSources true v1
             ++ [Fprintf ("}" +++ LF) []]).
Proof.
  intros g0 g1. subst g0 g1.
  destruct (string_dec (ShaderSources.GLSL100ES (Sources v0))
                       (ShaderSources.GLSL100ES (Sources v1))) as [E|E].
  - exists (writeName shader :: writeSources false v0).
    split; [now apply emitShader_same|]. split; [|prop]. intros _.
    change (writeName shader :: writeSources false v0)
      with ([writeName shader] ++ writeSources false v0).
    unfold records. rewrite count_format_app, operands_of_app.
    destruct (writeSources_counts false v0) as [H0 _]. unfold records in H0.
    rewrite H0.
    destruct (writeSources_operands false v0) as (-> & _). split; reflexivity.
  - eexists. split; [now apply emitShader_differ|]. split; [prop|]. intros _.
    unfold records. rewrite !count_format_app, !operands_of_app.
    destruct (writeSources_counts true v0) as [H0 _].
    destruct (writeSources_counts true v1) as [H1 _]. unfold records in H0, H1.
    rewrite H0, H1.
    destruct (writeSources_operands true v0) as (-> & _).
    destruct (writeSources_operands true v1) as (-> & _).
    repeat split; reflexivity.
Qed.

(** C10. When the GLSL ES 100 texts of the two variants are equal, what is
    written for the shader is its name and the record of the first variant:
    its reflection (inputs, uniforms, textures, each when it is not empty),
    its GLSL texts, its HLSL text and its bytecode; nothing of the second
    variant is written: another second variant with the same GLSL ES 100
    text gives the same writes. *)
Theorem emitShader_single_record_is_first
    (shader : string) (v0 v1 : variant) (out : Buffer) :
  ShaderSources.GLSL100ES (Sources v0) = ShaderSources.GLSL100ES (Sources v1) ->
  let s := Sources v0 in
  let u := ShaderSources.Uniforms s in
  exists added,
    emitShader shader [v0; v1] out = out ++ writeName shader :: added /\
    added = writeSources false v0 /\
    records added = 1%nat /\
    operands_of fmt_GLSL100ES added = [AString (ShaderSources.GLSL100ES s)] /\
    operands_of fmt_GLSL300ES added = [AString (ShaderSources.GLSL300ES s)] /\
    operands_of fmt_hlslSrc added = [AString (hlslSrc v0)] /\
    operands_of fmt_HLSL added = [ABytes (ShaderSources.HLSL s)] /\
    operands_of fmt_Inputs added
    = match ShaderSources.Inputs s with
      | [] => []
      | _ :: _ => [AInputs (ShaderSources.Inputs s)]
      end /\
    operands_of fmt_Blocks added ++ operands_of fmt_Locations added
    ++ operands_of fmt_Size added
    = match UniformsReflection.Blocks u with
      | [] => []
      | _ :: _ => [ABlocks (UniformsReflection.Blocks u);
                   ALocations (UniformsReflection.Locations u);
                   AInt (UniformsReflection.Size u)]
      end /\
    operands_of fmt_Textures added
    = match ShaderSources.Textures s with
      | [] => []
      | _ :: _ => [ATextures (ShaderSources.Textures s)]
      end /\
    forall v1',
      ShaderSources.GLSL100ES (Sources v1') = ShaderSources.GLSL100ES s ->
      emitShader shader [v0; v1'] out = emitShader shader [v0; v1] out.
Proof.
  intros E s u. exists (writeSources false v0).
  split; [now apply emitShader_same|]. split; [reflexivity|].
  split; [apply writeSources_counts|].
  destruct (writeSources_operands false v0) as (H1 & H2 & H3 & H4 & H5 & H6 & H7).
  repeat (split; [assumption|]).
  intros v1' E'. rewrite (emitShader_same _ _ _ _ E).
  apply emitShader_same. now rewrite E'.
Qed.

(** ** The texts of the records *)














Lemma formatted_impl (P Q : Buffer -> Prop) en :
  (forall src, P src -> Q src) -> formatted P en -> formatted Q en.
Proof. intros H. destruct en as [[] x|f err]; simpl; auto. Qed.




(** * Further properties of the parser *)

(** X1. No two type tokens are mapped to the same kind and count. *)
Theorem parseDataType_injective (t1 t2 : string) (r : DataType * Z) :
  parseDataType t1 = Ok r -> parseDataType t2 = Ok r -> t1 = t2.
Proof.
  unfold parseDataType. intros H1 H2.
  repeat match type of H1 with
         | context [String.eqb t1 ?s] => destruct (String.eqb_spec t1 s)
         end;
    try discriminate H1; injection H1 as <-;
    repeat match type of H2 with
           | context [String.eqb t2 ?s] => destruct (String.eqb_spec t2 s)
           end;
    try discriminate H2; congruence.
Qed.

Lemma parseDataType_count (t : string) (kind : DataType) (count : Z) :
  parseDataType t = Ok (kind, count) -> 1 <= count <= 4.
Proof.
  unfold parseDataType. intros H.
  repeat match type of H with
         | context [String.eqb t ?s] => destruct (String.eqb_spec t s)
         end;
    try discriminate H; injection H as <- <-; lia.
Qed.

Lemma input_of_count inputRef xs :
  Forall2 input_of inputRef xs ->
  Forall (fun loc => 1 <= InputLocation.Size loc <= 4) xs.
Proof.
  induction 1 as [|input loc rest xs H _ IH]; constructor; [|exact IH].
  destruct H as (_ & _ & _ & _ & H). exact (parseDataType_count _ _ _ H).
Qed.

Lemma laid_out_count base shaderBlocks lss :
  laid_out base shaderBlocks lss ->
  Forall (fun loc => 1 <= UniformLocation.Size loc <= 4) (List.concat lss).
Proof.
  induction 1 as [|base b rest ls lss Hls _ IH]; simpl; [constructor|].
  apply Forall_app. split; [|exact IH]. clear IH.
  induction Hls as [|m loc ms ls H _ IH]; constructor; [|exact IH].
  destruct H as (_ & _ & H). exact (parseDataType_count _ _ _ H).
Qed.

(** X2. Every input and every uniform location a successful parse makes has
    between one and four components. *)
Theorem parseReflection_component_counts
    (jsonData : list byte) (info' : ShaderSources.t) :
  parseReflection jsonData zero = (None, info') ->
  Forall (fun loc => 1 <= InputLocation.Size loc <= 4) (Inputs info') /\
  Forall (fun loc => 1 <= UniformLocation.Size loc <= 4) (Locations info').
Proof using sort_Slice_Permutation.
  unfold parseReflection.
  destruct (json_Unmarshal jsonData) as [reflect|err]; [|discriminate].
  intros Hparse.
  destruct (parseReflection_decoded_ok _ _ _ Hparse)
    as (zi & off & zb & Hi & Hb & HI & _ & HL & _).
  simpl in HI, HL. split.
  - rewrite HI. eapply Permutation_Forall; [apply sort_Slice_Permutation|].
    exact (input_of_count _ _ (inputLoop_ok _ _ Hi)).
  - rewrite HL. destruct (blockLoop_ok _ _ _ _ Hb) as (_ & _ & lss & -> & Hlo).
    exact (laid_out_count _ _ _ Hlo).
Qed.

Lemma inputLoop_first_unsupported pre bad post err (info : ShaderSources.t) :
  Forall (fun input => error_of (parseDataType (InputReflection.Type_ input)) = None) pre ->
  parseDataType (InputReflection.Type_ bad) = Err err ->
  exists xs,
    Forall2 input_of pre xs /\
    inputLoop (pre ++ bad :: post) info
    = (Some (parseReflection_error err), extend info xs [] [] []).
Proof.
  intros Hpre Hbad. revert info.
  induction Hpre as [|input pre Hinput _ IH]; intros info; simpl.
  - exists []. split; [constructor|]. now rewrite Hbad, extend_nil.
  - destruct (parseDataType (InputReflection.Type_ input)) as [[dataType dataSize]|e] eqn:E;
      [|discriminate].
    destruct (IH (ShaderSources.set_Inputs info
                    (Inputs info ++
                     [InputLocation.mk (InputReflection.Name input)
                        (InputReflection.Location input)
                        (InputReflection.Semantic input)
                        (InputReflection.SemanticIndex input) dataType dataSize])))
      as (xs & Hxs & ->).
    exists (InputLocation.mk (InputReflection.Name input)
              (InputReflection.Location input) (InputReflection.Semantic input)
              (InputReflection.SemanticIndex input) dataType dataSize :: xs).
    split; [constructor; [|exact Hxs]; now repeat split|].
    f_equal. destruct info as [g1 g3 h [b l s] i t]. unfold extend. simpl.
    now rewrite <- app_assoc.
Qed.

(** X3. The parse stops at the first vertex-stage input whose type is not
    supported: it returns the error of that type, and leaves in the record
    the inputs before it, appended in document order and not sorted; the
    rest of the record is as it was. *)
Theorem parseReflection_first_unsupported_input
    (jsonData : list byte) (reflect : shaderMetadata.t) (info : ShaderSources.t)
    (pre post : list InputReflection.t) (bad : InputReflection.t) (err : error) :
  json_Unmarshal jsonData = Ok reflect ->
  shaderReflection.Inputs (shaderMetadata.VS reflect) = pre ++ bad :: post ->
  Forall (fun input => error_of (parseDataType (InputReflection.Type_ input)) = None) pre ->
  parseDataType (InputReflection.Type_ bad) = Err err ->
  exists xs,
    Forall2 input_of pre xs /\
    parseReflection jsonData info
    = (Some (parseReflection_error err), extend info xs [] [] []).
Proof.
  intros Hjson Hinputs Hpre Hbad. unfold parseReflection, parseReflection_decoded.
  rewrite Hjson, Hinputs.
  destruct (inputLoop_first_unsupported pre bad post err info Hpre Hbad) as (xs & Hxs & ->).
  now exists xs.
Qed.

(** X4. On every path, with or without an error, the parse leaves the three
    texts of the record as they were, keeps the blocks, the locations and
    the textures it found at the head of their lists, and keeps every input
    it found. *)
Theorem parseReflection_keeps (jsonData : list byte) (info : ShaderSources.t) :
  let info' := snd (parseReflection jsonData info) in
  ShaderSources.GLSL100ES info' = ShaderSources.GLSL100ES info /\
  ShaderSources.GLSL300ES info' = ShaderSources.GLSL300ES info /\
  ShaderSources.HLSL info' = ShaderSources.HLSL info /\
  (exists bs, Blocks info' = Blocks info ++ bs) /\
  (exists ls, Locations info' = Locations info ++ ls) /\
  (exists ts, Textures info' = Textures info ++ ts) /\
  (exists xs, Permutation (Inputs info ++ xs) (Inputs info')).
Proof using sort_Slice_Permutation.
  unfold parseReflection.
  destruct (json_Unmarshal jsonData) as [reflect|err]; simpl.
  2:{ repeat split; try (exists []; now rewrite app_nil_r). }
  rewrite parseReflection_decoded_eq. simpl.
  destruct (inputLoop _ zero) as [[err|] zi]; simpl.
  { repeat split; try (exists []; now rewrite app_nil_r). now exists (Inputs zi). }
  destruct (blockLoop _ 0 zero) as [[err|] [off zb]]; simpl;
    rewrite ?app_nil_r; repeat split; eauto;
      try (exists []; now rewrite app_nil_r);
      exists (Inputs zi); apply sort_Slice_Permutation.
Qed.

(** X5. A parse that fails appends no texture and leaves the uniform size as it
    was. *)
Theorem parseReflection_failure_keeps_size
    (jsonData : list byte) (info info' : ShaderSources.t) (err : error) :
  parseReflection jsonData info = (Some err, info') ->
  Textures info' = Textures info /\ USize info' = USize info.
Proof.
  unfold parseReflection.
  destruct (json_Unmarshal jsonData) as [reflect|e]; [|now intros [= _ <-]].
  rewrite parseReflection_decoded_eq. simpl.
  destruct (inputLoop _ zero) as [[e|] zi]; simpl.
  { intros [= _ <-]. simpl. now rewrite app_nil_r. }
  destruct (blockLoop _ 0 zero) as [[e|] [off zb]]; simpl; [|discriminate].
  intros [= _ <-]. simpl. now rewrite app_nil_r.
Qed.

(** X6. A successful parse appends one block for each block of the selected
    stage and one texture for each of its textures, in document order, with
    the name and the binding of each; and the location of each member of a
    block has the kind and the count of the member's type. *)
Theorem parseReflection_copies
    (jsonData : list byte) (reflect : shaderMetadata.t) (info info' : ShaderSources.t) :
  json_Unmarshal jsonData = Ok reflect ->
  parseReflection jsonData info = (None, info') ->
  Blocks info' = Blocks info ++ map block_of (shaderBlocks_of reflect) /\
  Textures info' = Textures info ++ map texture_of (textures_of reflect) /\
  forall k block j member,
    nth_error (shaderBlocks_of reflect) k = Some block ->
    nth_error (UniformBufferReflection.Members block) j = Some member ->
    exists loc,
      nth_error (Locations info')
        (List.length (Locations info)
         + List.length (flat_map UniformBufferReflection.Members
                                 (firstn k (shaderBlocks_of reflect)))
         + j)%nat
      = Some loc /\
      parseDataType (UniformMemberReflection.Type_ member)
      = Ok (UniformLocation.Type_ loc, UniformLocation.Size loc).
Proof.
  intros Hjson Hparse. unfold parseReflection in Hparse. rewrite Hjson in Hparse.
  destruct (parseReflection_decoded_ok _ _ _ Hparse)
    as (zi & off & zb & _ & Hb & _ & HB & HL & _ & HT & _).
  destruct (blockLoop_ok _ _ _ _ Hb) as (_ & Hblocks & lss & Hlss & Hlo).
  split; [now rewrite HB, Hblocks|]. split; [exact HT|].
  intros k block j member Hk Hj.
  destruct (laid_out_nth _ _ _ Hlo _ _ _ _ Hk Hj) as (loc & Hn & _ & _ & Htype).
  exists loc. split; [|exact Htype].
  rewrite HL, <- Nat.add_assoc, nth_error_app2 by lia. rewrite Hlss.
  now replace (_ + _ - _)%nat
    with (List.length (flat_map UniformBufferReflection.Members
                                (firstn k (shaderBlocks_of reflect))) + j)%nat by lia.
Qed.

(** * Further properties of the converters *)

Lemma convertShader_cleanup tmp glslcc path lang profile args flattenUBOs :
  wp (convertShader tmp glslcc path lang profile args flattenUBOs)
     (fun _ tr =>
        removed_names tr = rev (written_names tr ++ opened_names tr) /\
        closed_files tr = opened_files tr).
Proof.
  unfold convertShader, defer, call. simpl.
  intros [shaderTmpl|err]; simpl; [|now split].
  intros [buf|err]; simpl; [|now split].
  intros [err|]; simpl; [now split|].
  destruct (progOf (filepath_Ext path)) as [[progFlag progSuffix]|]; simpl;
    [|intros ?; now split].
  intros [err|]; simpl; [intros ?; now split|].
  intros [f|err]; simpl; [|intros ?; now split].
  intros [src|err]; simpl; [|intros ? ? ?; now split].
  intros [reflect|err]; simpl; intros ? ? ?; now split.
Qed.

(** X7. In any environment, and whatever it returns, [convertShader] has
    called [os.Remove] for every file it has written or opened, last first,
    and [Close] for the file it has opened, when it returns. *)
Theorem convertShader_cleans_up {W : Type} (h : handler W) (w : W)
    tmp glslcc path lang profile args flattenUBOs :
  let res := run h (convertShader tmp glslcc path lang profile args flattenUBOs) w in
  removed_names (trace res) = rev (written_names (trace res) ++ opened_names (trace res)) /\
  closed_files (trace res) = opened_files (trace res).
Proof.
  intros res.
  exact (wp_run h _ _ (convertShader_cleanup tmp glslcc path lang profile args flattenUBOs) w).
Qed.

Lemma progOf_unrecognized path : ~ recognized path -> progOf (filepath_Ext path) = None.
Proof.
  unfold recognized, progOf. intros H.
  destruct (String.eqb_spec (filepath_Ext path) ".vert") as [E|_]; [elim H; now left|].
  destruct (String.eqb_spec (filepath_Ext path) ".frag") as [E|_]; [elim H; now right|].
  reflexivity.
Qed.

Lemma convertShader_without_type tmp glslcc path lang profile args flattenUBOs :
  ~ recognized path ->
  wp (convertShader tmp glslcc path lang profile args flattenUBOs)
     (fun r tr =>
        Forall (fun en => ~ ran en) tr /\
        error_of r <> None /\
        (written_names tr <> [] ->
         r = Err ("unrecognized shader type: " +++ path) /\
         removed_names tr = written_names tr)).
Proof.
  intros Hpath. unfold convertShader, defer, call.
  rewrite (progOf_unrecognized path Hpath). simpl.
  intros [shaderTmpl|err]; simpl.
  2:{ split; [repeat constructor; exact (fun H => H)|]. split; [discriminate|]. now intros H. }
  intros [buf|err]; simpl.
  2:{ split; [repeat constructor; exact (fun H => H)|]. split; [discriminate|]. now intros H. }
  intros [err|]; simpl.
  { split; [repeat constructor; exact (fun H => H)|]. split; [discriminate|]. now intros H. }
  intros x. split; [repeat constructor; exact (fun H => H)|].
  split; [discriminate|]. now intros _.
Qed.

(** X8. For a shader whose extension is neither [.vert] nor [.frag], in any
    environment: [convertShader] returns an error and runs no subprocess;
    and once it has written the expanded shader, the error is the one of
    the shader type, and the file written is removed. *)
Theorem convertShader_unrecognized_never_runs {W : Type} (h : handler W) (w : W)
    tmp glslcc path lang profile args flattenUBOs :
  let res := run h (convertShader tmp glslcc path lang profile args flattenUBOs) w in
  ~ recognized path ->
  Forall (fun en => ~ ran en) (trace res) /\
  error_of (value res) <> None /\
  (written_names (trace res) <> [] ->
   value res = Err ("unrecognized shader type: " +++ path) /\
   removed_names (trace res) = written_names (trace res)).
Proof.
  intros res Hpath.
  exact (wp_run h _ _
           (convertShader_without_type tmp glslcc path lang profile args flattenUBOs Hpath) w).
Qed.

Lemma convertShader_errors tmp glslcc path lang profile args flattenUBOs :
  wp (convertShader tmp glslcc path lang profile args flattenUBOs)
     (fun r tr =>
        match r with
        | Err err =>
            Exists (call_fails path err) tr \/
            (~ recognized path /\ err = ("unrecognized shader type: " +++ path)%string)
        | Ok _ => recognized path /\ Forall (fun en => forall err, ~ call_fails path err en) tr
        end).
Proof.
  unfold convertShader, defer, call. simpl.
  intros [shaderTmpl|err]; simpl; [|left; now constructor].
  intros [buf|err]; simpl; [|left; apply Exists_cons_tl; now constructor].
  intros [err|]; simpl; [left; do 2 apply Exists_cons_tl; now constructor|].
  unfold progOf, recognized.
  destruct (String.eqb_spec (filepath_Ext path) ".vert") as [Ev|Ev];
    [|destruct (String.eqb_spec (filepath_Ext path) ".frag") as [Ef|Ef]]; simpl.
  3:{ intros ?. right. split; [now intros [H|H]|reflexivity]. }
  all: intros [err|]; simpl;
    [intros ?; left; do 3 apply Exists_cons_tl; now constructor|].
  all: intros [f|err]; simpl;
    [|intros ?; left; do 4 apply Exists_cons_tl; now constructor].
  all: intros [src|err]; simpl;
    [|intros ? ? ?; left; do 5 apply Exists_cons_tl; now constructor].
  all: intros [reflect|err]; simpl; intros ? ? ?;
    [|left; do 6 apply Exists_cons_tl; now constructor].
  all: split; [auto|]; repeat (constructor; [intros err H; exact H|]); constructor.
Qed.

(** X9. In any environment: when [convertShader] returns an error, the
    error is that of a call of the run that failed, as it is, or after the path
    of the shader when the call is the run of [glslcc]; or it is the error
    of the shader type, and the extension is neither [.vert] nor [.frag].
    The errors of the deferred [os.Remove] and [Close] are never returned. *)
Theorem convertShader_error_of_a_call {W : Type} (h : handler W) (w : W)
    tmp glslcc path lang profile args flattenUBOs (err : error) :
  let res := run h (convertShader tmp glslcc path lang profile args flattenUBOs) w in
  value res = Err err ->
  Exists (call_fails path err) (trace res) \/
  (~ recognized path /\ err = ("unrecognized shader type: " +++ path)%string).
Proof.
  intros res Hr.
  pose proof (wp_run h _ _
                (convertShader_errors tmp glslcc path lang profile args flattenUBOs) w) as H.
  fold res in H. now rewrite Hr in H.
Qed.

(** ** The returns of the stages *)

Lemma notes_app (t1 t2 : list entry) : notes (t1 ++ t2) = notes t1 ++ notes t2.
Proof. unfold notes. apply flat_map_app. Qed.

Lemma scratch_notes tmp tr : Forall (scratch tmp) tr -> notes tr = [].
Proof.
  induction 1 as [|en tr Hen _ IH]; [reflexivity|].
  destruct en as [e x|f err]; [exact IH|destruct Hen].
Qed.

Lemma wpn_bind {A B : Type} (p : Prog A) (k : A -> Prog B)
    (R : B -> list (stage * option error) -> Prop) :
  wpn p (fun a n1 => wpn (k a) (fun b n2 => R b (n1 ++ n2))) -> wpn (bind p k) R.
Proof.
  unfold wpn. intros H. apply wp_bind. eapply wp_mono; [|exact H].
  intros a t1 H1. eapply wp_mono; [|exact H1].
  intros b t2 H2. now rewrite notes_app.
Qed.

Lemma wpn_staged {A : Type} tmp (f : stage) (p : Prog (result A))
    (P : result A -> Prop) (R : result A -> list (stage * option error) -> Prop) :
  wp p (fun r tr => Forall (scratch tmp) tr /\ P r) ->
  (forall r, P r -> R r [(f, error_of r)]) ->
  wpn (staged f p) R.
Proof.
  intros Hp HR. unfold wpn. eapply wp_mono; [|apply wp_staged, Hp].
  intros r tr (t & -> & Ht & HP). rewrite notes_app, (scratch_notes tmp t Ht).
  now apply HR.
Qed.

(** * Further properties of the orchestrator *)

(** ** The stages of a variant *)

Lemma wpn_Ret {A : Type} (a : A) (R : A -> list (stage * option error) -> Prop) :
  R a [] -> wpn (Ret a) R.
Proof. now unfold wpn. Qed.

Lemma wpn_Note {A : Type} (f : stage) (err : option error) (k : Prog A)
    (R : A -> list (stage * option error) -> Prop) :
  wpn k (fun a n => R a ((f, err) :: n)) -> wpn (Note f err k) R.
Proof. now unfold wpn. Qed.

Lemma variantBody_notes tmp glslcc fxc fxcFound shader v arg :
  wpn (variantBody tmp glslcc fxc fxcFound shader v arg)
      (fun r n => forall v', r = Ok v' -> n = variant_stages fxcFound).
Proof.
  unfold variantBody.
  apply wpn_bind.
  eapply (wpn_staged tmp); [apply convertShader_steps|].
  intros [[glsl100 reflect]|err] Hrec; [|apply wpn_Ret; discriminate].
  specialize (Hrec eq_refl). cbv zeta.
  destruct (parseReflection reflect (Sources v)) as [[err|] sources];
    apply wpn_Note; [apply wpn_Ret; discriminate|].
  apply wpn_bind.
  eapply (wpn_staged tmp); [apply convertShader_steps|].
  intros [[glsl300 reflect300]|err] _; [|apply wpn_Ret; discriminate].
  apply wpn_bind.
  eapply (wpn_staged tmp); [apply convertShader_steps|].
  intros [[hlsl reflectH]|err] _; [|apply wpn_Ret; discriminate].
  destruct (hlslProfOf (filepath_Ext shader)) as [hlslProf|] eqn:Eprof.
  2:{ exfalso. now apply (hlslProfOf_recognized shader). }
  destruct fxcFound.
  - apply wpn_bind. apply wpn_bind.
    eapply (wpn_staged tmp _ _ (fun _ => True)).
    { eapply wp_mono; [|apply compileHLSL_steps]. now intros r tr H. }
    intros [hlslc|err] _; apply wpn_Ret; apply wpn_Ret; [now intros v' _|discriminate].
  - apply wpn_bind. apply wpn_Ret. apply wpn_Ret. now intros v' _.
Qed.

Lemma variantsLoop_notes tmp glslcc fxc fxcFound shader args :
  wpn (variantsLoop tmp glslcc fxc fxcFound shader args)
      (fun r n => forall vs, r = Ok vs ->
                    n = flat_map (fun _ => variant_stages fxcFound) args).
Proof.
  induction args as [|arg rest IH].
  - unfold wpn. cbn. now intros vs _.
  - cbn [variantsLoop]. apply wpn_bind.
    eapply wp_mono; [|apply variantBody_notes].
    intros [v|err] t1 H1; [|unfold wpn; cbn; discriminate].
    cbv beta. apply wpn_bind. eapply wp_mono; [|exact IH].
    intros [vs|err] t2 H2; unfold wpn; cbn; [|discriminate].
    intros ? _. rewrite (H1 v eq_refl), (H2 vs eq_refl). now rewrite app_nil_r.
Qed.

(** ** What the loop writes *)

Lemma sourcesLoop_frame multiVariant variants (out : Buffer) :
  sourcesLoop multiVariant variants out = out ++ sourcesLoop multiVariant variants [].
Proof.
  revert out. induction variants as [|src rest IH]; intros out; simpl.
  - now rewrite app_nil_r.
  - destruct multiVariant; simpl; [|reflexivity].
    rewrite IH, (IH (writeSources true src)). now rewrite app_assoc.
Qed.

Lemma emitShader_frame shader variants (out : Buffer) :
  emitShader shader variants out = out ++ emitShader shader variants [].
Proof.
  unfold emitShader. cbv zeta.
  destruct (negb _).
  - rewrite (sourcesLoop_frame true variants (_ ++ _)).
    rewrite (sourcesLoop_frame true variants (([] ++ _) ++ _)).
    cbn [app]. now rewrite <- !app_assoc.
  - rewrite (sourcesLoop_frame false variants (_ ++ _)).
    rewrite (sourcesLoop_frame false variants ([] ++ _)).
    cbn [app]. now rewrite <- !app_assoc.
Qed.

Lemma shadersLoop_looped tmp glslcc fxc fxcFound shaders out :
  wp (shadersLoop tmp glslcc fxc fxcFound shaders out)
     (fun r tr =>
        (shaders = [] -> tr = []) /\
        forall out', r = Ok out' ->
          notes tr
          = flat_map (fun _ => variant_stages fxcFound ++ variant_stages fxcFound) shaders /\
          exists added, out' = out ++ added /\ emitted shaders added).
Proof.
  revert out. induction shaders as [|shader rest IH]; intros out; cbn [shadersLoop].
  - cbn. split; [reflexivity|]. intros out' [= <-]. split; [reflexivity|].
    exists []. split; [now rewrite app_nil_r|constructor].
  - apply wp_bind. eapply wp_mono;
      [|apply wp_conj; [apply variantsLoop_notes|apply variantsLoop_length]].
    intros [variants|err] t1 [Hn Hlen]; cbn; [|split; discriminate].
    specialize (Hn variants eq_refl). specialize (Hlen variants eq_refl).
    destruct variants as [|v0 [|v1 [|v2 more]]]; try discriminate Hlen.
    eapply wp_mono; [|apply IH].
    intros r t2 [_ H]. split; [discriminate|].
    intros out' Hr. destruct (H out' Hr) as (Hnotes & added & -> & Hadded).
    split.
    + rewrite notes_app, Hn, Hnotes. unfold variantArgs. cbn [flat_map].
      now rewrite app_nil_r.
    + exists (emitShader shader [v0; v1] [] ++ added).
      split; [|now constructor]. rewrite emitShader_frame. now rewrite <- app_assoc.
Qed.

(** ** The runs of [generate], again *)

Lemma generate_traces : wp generate generate_trace.
Proof.
  unfold generate, defer, call. cbn.
  intros [tmp|err]; cbn; [|constructor].
  intros [glslcc|err]; cbn; [|intros x; constructor].
  intros rf. intros [shaders|err]; cbn; [|intros x; constructor].
  apply wp_bind. apply wp_bind.
  eapply wp_mono;
    [|apply wp_conj; [apply shadersLoop_stages|apply shadersLoop_looped]].
  cbn. intros rl loop [[(Hsteps & Hff & _) _] [Hnil Hloop]].
  replace (match rf with Ok _ => true | Err _ => false end) with (found rf) in Hloop
    by reflexivity.
  assert (Hlooped : looped shaders (found rf) rl loop).
  { split; [exact Hff|]. split; [exact Hnil|exact Hloop]. }
  destruct rl as [out|err]; cbn.
  - intros [gosrc|err]; cbn.
    + intros r x. rewrite <- !app_assoc. cbn.
      exact (trace_loop tmp glslcc rf shaders (Ok out) loop _ r x Hsteps Hlooped
               (finished_written out gosrc r)).
    + intros x. rewrite <- !app_assoc. cbn.
      exact (trace_loop tmp glslcc rf shaders (Ok out) loop _ _ x Hsteps Hlooped
               (finished_not_formatted out err)).
  - intros x. rewrite app_nil_r.
    exact (trace_loop tmp glslcc rf shaders (Err err) loop [] _ x Hsteps Hlooped
             (finished_failed err)).
Qed.

(** ** What the traces show *)

Lemma step_observed tmp en :
  step tmp en ->
  made_dir en = [] /\ removed_dir en = [] /\ glob en = [] /\
  failed_lookup en = [] /\ source_formatted en = [] /\ ~ cleanup en.
Proof.
  intros [H|H]; destruct en as [e x|f err]; try destruct e; cbn in H;
    try contradiction; cbn; repeat split; intros [].
Qed.

Lemma loop_observed tmp loop :
  Forall (step tmp) loop ->
  made_dirs loop = [] /\ removed_dirs loop = [] /\ globs loop = [] /\
  failed_lookups loop = [] /\ sources_formatted loop = [] /\
  Forall (fun en => ~ cleanup en) loop.
Proof.
  unfold made_dirs, removed_dirs, globs, failed_lookups, sources_formatted.
  induction 1 as [|en rest Hen _ (I1 & I2 & I3 & I4 & I5 & I6)]; cbn [flat_map].
  - repeat split; constructor.
  - destruct (step_observed tmp en Hen) as (-> & -> & -> & -> & -> & Hc).
    repeat split; try assumption. now constructor.
Qed.

Lemma finished_observed rl finish r :
  finished rl finish r ->
  made_dirs finish = [] /\ removed_dirs finish = [] /\ globs finish = [] /\
  failed_lookups finish = [] /\ notes finish = [] /\
  Forall (fun en => ~ cleanup en) finish /\
  Forall (fun en => ~ ran en) finish /\
  sources_formatted finish
  = match rl with Ok out => [out ++ [WriteString ")"]] | Err _ => [] end.
Proof.
  intros [err|out err|out gosrc r0]; cbn; repeat split;
    repeat (constructor; [intros []|]); constructor.
Qed.

Lemma trace_loop_observed tmp glslcc rf shaders rl loop finish r x :
  Forall (step tmp) loop ->
  finished rl finish r ->
  let tr := start tmp glslcc rf shaders ++ loop ++ finish ++ [Called (os_RemoveAll tmp) x] in
  made_dirs tr = [tmp] /\ removed_dirs tr = [tmp] /\ globs tr = [shaders] /\
  fxc_found tr = found rf /\
  failed_lookups tr = match rf with Ok _ => [] | Err err => [("fxc"%string, err)] end /\
  notes tr = notes loop /\
  sources_formatted tr
  = match rl with Ok out => [out ++ [WriteString ")"]] | Err _ => [] end /\
  Forall (fun en => ~ cleanup en) (start tmp glslcc rf shaders ++ loop ++ finish).
Proof.
  intros Hloop Hfin tr.
  destruct (loop_observed tmp loop Hloop) as (L1 & L2 & L3 & L4 & L5 & L6).
  destruct (finished_observed rl finish r Hfin) as (F1 & F2 & F3 & F4 & F5 & F6 & _ & F8).
  assert (Hlook : failed_lookups tr
                  = match rf with Ok _ => [] | Err err => [("fxc"%string, err)] end).
  { unfold tr, failed_lookups in *. rewrite !flat_map_app, L4, F4.
    destruct rf; reflexivity. }
  unfold fxc_found. rewrite Hlook.
  unfold tr, made_dirs, removed_dirs, globs, sources_formatted in *.
  rewrite !notes_app, !flat_map_app, L1, L2, L3, L5, F1, F2, F3, F5, F8.
  repeat split; try reflexivity.
  - now destruct rf.
  - cbn. now rewrite app_nil_r.
  - cbn. now rewrite app_nil_r.
  - apply Forall_app. split; [|apply Forall_app; now split].
    unfold start. repeat (constructor; [intros []|]). constructor.
Qed.

(** ** The temporary directory *)

Lemma trace_removes_tempdir r tr tmp :
  generate_trace r tr -> In tmp (made_dirs tr) ->
  removed_dirs tr = [tmp] /\
  exists pre x,
    tr = pre ++ [Called (os_RemoveAll tmp) x] /\ Forall (fun en => ~ cleanup en) pre.
Proof.
  intros [err|tmp0 err x|tmp0 glslcc rf err x
          |tmp0 glslcc rf shaders rl loop finish r0 x Hsteps Hlooped Hfin] Hin.
  - destruct Hin.
  - destruct Hin as [<-|[]]. split; [reflexivity|].
    eexists [_; _], x. split; [reflexivity|].
    repeat (constructor; [intros []|]). constructor.
  - destruct Hin as [<-|[]]. split; [reflexivity|].
    eexists [_; _; _; _], x. split; [reflexivity|].
    repeat (constructor; [intros []|]). constructor.
  - destruct (trace_loop_observed tmp0 glslcc rf shaders rl loop finish r0 x Hsteps Hfin)
      as (Hmade & Hremoved & _ & _ & _ & _ & _ & Hpre).
    rewrite Hmade in Hin. destruct Hin as [<-|[]]. split; [exact Hremoved|].
    exists (start tmp0 glslcc rf shaders ++ loop ++ finish), x.
    split; [now rewrite <- !app_assoc|exact Hpre].
Qed.

(** X10. In a run of [generate] in which [ioutil.TempDir] made a directory,
    in any environment: [os.RemoveAll] is called once, with that directory,
    and its call is the last of the run, whatever the run returns. *)
Theorem generate_removes_tempdir {W : Type} (h : handler W) (w : W) (tmp : string) :
  let res := run h generate w in
  In tmp (made_dirs (trace res)) ->
  removed_dirs (trace res) = [tmp] /\
  exists pre x,
    trace res = pre ++ [Called (os_RemoveAll tmp) x] /\
    Forall (fun en => ~ cleanup en) pre.
Proof.
  intros res. apply (trace_removes_tempdir (value res)).
  apply (wp_run h generate _ generate_traces).
Qed.

(** ** The error returned *)

Lemma trace_error_of_a_step r tr err :
  generate_trace r tr -> r = Some err -> Exists (fails_with err) tr.
Proof.
  intros [err0|tmp0 err0 x|tmp0 glslcc rf err0 x
          |tmp0 glslcc rf shaders rl loop finish r0 x Hsteps (Hff & _) Hfin] Hr.
  - injection Hr as ->. constructor. reflexivity.
  - injection Hr as ->. apply Exists_cons_tl. constructor. now split.
  - injection Hr as ->. do 3 apply Exists_cons_tl. constructor. reflexivity.
  - apply Exists_app. right. destruct Hfin as [err0|out err0|out gosrc r0].
    + injection Hr as ->. destruct Hff as (pre & f & -> & _).
      apply Exists_app. left. apply Exists_app. right. constructor. reflexivity.
    + injection Hr as <-. apply Exists_app. right. constructor. reflexivity.
    + subst r0. apply Exists_app. right. apply Exists_cons_tl. constructor.
      now split.
Qed.

(** X11. When [generate] returns an error, in any environment, the error is
    that of a step of the run: the error a stage returned, or the error of
    [ioutil.TempDir], of the search of [glslcc], of [filepath.Glob] or of
    the write of the generated file, as it is; or that of [format.Source]
    after the prefix [shader.go: ]. *)
Theorem generate_error_of_a_step {W : Type} (h : handler W) (w : W) (err : error) :
  let res := run h generate w in
  value res = Some err -> Exists (fails_with err) (trace res).
Proof.
  intros res. apply trace_error_of_a_step.
  apply (wp_run h generate _ generate_traces).
Qed.

Lemma trace_writes_formatted r tr :
  generate_trace r tr -> r = None ->
  exists pre src gosrc tmp x,
    tr = pre ++ [Called (format_Source src) (Ok gosrc);
                 Called (ioutil_WriteFile artifact gosrc) None;
                 Called (os_RemoveAll tmp) x] /\
    clean pre /\ sources_formatted tr = [src].
Proof.
  intros [err0|tmp0 err0 x|tmp0 glslcc rf err0 x
          |tmp0 glslcc rf shaders rl loop finish r0 x Hsteps (Hff & _) Hfin] Hr;
    try discriminate Hr.
  destruct (trace_loop_observed tmp0 glslcc rf shaders rl loop finish r0 x Hsteps Hfin)
    as (_ & _ & _ & _ & _ & _ & Hsrc & _).
  rewrite Hsrc. clear Hsrc.
  destruct Hfin as [err0|out err0|out gosrc r0]; try discriminate Hr. subst r0.
  exists (start tmp0 glslcc rf shaders ++ loop), (out ++ [WriteString ")"]), gosrc, tmp0, x.
  split; [now rewrite <- !app_assoc|]. split; [|reflexivity].
  apply Forall_app. split; [|exact Hff].
  unfold start. repeat (constructor; [intros []|]). constructor.
Qed.

(** X12. When [generate] returns no error, in any environment: no stage
    failed; [format.Source] was called once; and the run ends with that
    call, the write of what it returned into the generated file, and the
    removal of the temporary directory. *)
Theorem generate_writes_formatted {W : Type} (h : handler W) (w : W) :
  let res := run h generate w in
  value res = None ->
  exists pre src gosrc tmp x,
    trace res = pre ++ [Called (format_Source src) (Ok gosrc);
                        Called (ioutil_WriteFile artifact gosrc) None;
                        Called (os_RemoveAll tmp) x] /\
    clean pre /\ sources_formatted (trace res) = [src].
Proof.
  intros res. apply trace_writes_formatted.
  apply (wp_run h generate _ generate_traces).
Qed.

(** ** Without [glslcc] *)

Lemma trace_without_glslcc r tr err :
  generate_trace r tr -> In ("glslcc"%string, err) (failed_lookups tr) ->
  r = Some err /\
  exists tmp x,
    tr = [Called (ioutil_TempDir EmptyString "shader-convert") (Ok tmp);
          Called (exec_LookPath "glslcc") (Err err);
          Called (os_RemoveAll tmp) x].
Proof.
  intros [err0|tmp0 err0 x|tmp0 glslcc rf err0 x
          |tmp0 glslcc rf shaders rl loop finish r0 x Hsteps Hlooped Hfin] Hin.
  - destruct Hin.
  - destruct Hin as [[= <-]|[]]. split; [reflexivity|]. now exists tmp0, x.
  - destruct rf; cbn in Hin; [destruct Hin|destruct Hin as [[=]|[]]].
  - destruct (trace_loop_observed tmp0 glslcc rf shaders rl loop finish r0 x Hsteps Hfin)
      as (_ & _ & _ & _ & Hlook & _).
    rewrite Hlook in Hin. destruct rf; [destruct Hin|destruct Hin as [[=]|[]]].
Qed.

(** X13. When [exec.LookPath] does not find [glslcc], in any environment:
    [generate] returns the error of the search, and the run is the making
    of the temporary directory, the search and the removal of the
    directory; [fxc] and the shaders are not searched. *)
Theorem generate_without_glslcc {W : Type} (h : handler W) (w : W) (err : error) :
  let res := run h generate w in
  In ("glslcc"%string, err) (failed_lookups (trace res)) ->
  value res = Some err /\
  exists tmp x,
    trace res = [Called (ioutil_TempDir EmptyString "shader-convert") (Ok tmp);
                 Called (exec_LookPath "glslcc") (Err err);
                 Called (os_RemoveAll tmp) x].
Proof.
  intros res. apply trace_without_glslcc.
  apply (wp_run h generate _ generate_traces).
Qed.

(** ** The order of the stages *)

Lemma trace_stage_order r tr :
  generate_trace r tr -> r = None ->
  exists shaders,
    globs tr = [shaders] /\
    notes tr
    = flat_map (fun _ => variant_stages (fxc_found tr) ++ variant_stages (fxc_found tr))
               shaders.
Proof.
  intros [err0|tmp0 err0 x|tmp0 glslcc rf err0 x
          |tmp0 glslcc rf shaders rl loop finish r0 x Hsteps (_ & _ & Hloop) Hfin] Hr;
    try discriminate Hr.
  destruct (trace_loop_observed tmp0 glslcc rf shaders rl loop finish r0 x Hsteps Hfin)
    as (_ & _ & Hglobs & Hfxc & _ & Hnotes & _).
  rewrite Hglobs, Hfxc, Hnotes. exists shaders. split; [reflexivity|].
  destruct Hfin as [err0|out err0|out gosrc r0]; try discriminate Hr.
  exact (proj1 (Hloop out eq_refl)).
Qed.

(** X14. When [generate] returns no error, in any environment: the stages
    that returned are, for each shader [filepath.Glob] returned and in the
    order of its list, the stages of the first variant then those of the
    second; and the stages of a variant are [convertShader],
    [parseReflection], [convertShader], [convertShader], and then
    [compileHLSL] if [fxc] was found. *)
Theorem generate_stage_order {W : Type} (h : handler W) (w : W) :
  let res := run h generate w in
  value res = None ->
  exists shaders,
    globs (trace res) = [shaders] /\
    notes (trace res)
    = flat_map (fun _ => variant_stages (fxc_found (trace res))
                         ++ variant_stages (fxc_found (trace res)))
               shaders.
Proof.
  intros res. apply trace_stage_order.
  apply (wp_run h generate _ generate_traces).
Qed.

(** ** The source handed to [format.Source] *)

Lemma writeSources_no_name multiVariant src :
  operands_of fmt_name (writeSources multiVariant src) = [].
Proof.
  unfold writeSources.
  destruct (0 <? _), (0 <? _), (0 <? _), multiVariant; reflexivity.
Qed.

Lemma operands_of_cons format wr (out : Buffer) :
  operands_of format (wr :: out) = operands_of format [wr] ++ operands_of format out.
Proof. exact (operands_of_app format [wr] out). Qed.

Lemma count_format_cons format wr (out : Buffer) :
  count_format format (wr :: out)
  = (count_format format [wr] + count_format format out)%nat.
Proof. exact (count_format_app format [wr] out). Qed.

Lemma emitShader_name shader v0 v1 :
  operands_of fmt_name (emitShader shader [v0; v1] []) = [AString (shaderName shader)].
Proof.
  destruct (String.eqb_spec (ShaderSources.GLSL100ES (Sources v0))
                            (ShaderSources.GLSL100ES (Sources v1))) as [E|E].
  - rewrite (emitShader_same shader v0 v1 [] E).
    rewrite operands_of_app, operands_of_cons, writeSources_no_name. reflexivity.
  - rewrite (emitShader_differ shader v0 v1 [] E).
    rewrite !operands_of_app, !writeSources_no_name. reflexivity.
Qed.

Lemma emitShader_records shader v0 v1 :
  (1 <= records (emitShader shader [v0; v1] []) <= 2)%nat.
Proof.
  pose proof (fun b => proj1 (writeSources_counts b v0)) as H0.
  pose proof (fun b => proj1 (writeSources_counts b v1)) as H1.
  unfold records in *.
  destruct (String.eqb_spec (ShaderSources.GLSL100ES (Sources v0))
                            (ShaderSources.GLSL100ES (Sources v1))) as [E|E].
  - rewrite (emitShader_same shader v0 v1 [] E).
    rewrite count_format_app, count_format_cons, H0. cbn. lia.
  - rewrite (emitShader_differ shader v0 v1 [] E).
    rewrite !count_format_app, H0, H1. cbn. lia.
Qed.

Lemma emitted_names shaders added :
  emitted shaders added ->
  operands_of fmt_name added = map (fun shader => AString (shaderName shader)) shaders.
Proof.
  induction 1 as [|shader rest v0 v1 added _ IH]; [reflexivity|].
  rewrite operands_of_app, emitShader_name, IH. reflexivity.
Qed.

Lemma emitted_records shaders added :
  emitted shaders added ->
  (List.length shaders <= records added <= 2 * List.length shaders)%nat.
Proof.
  induction 1 as [|shader rest v0 v1 added _ IH]; [cbn; lia|].
  unfold records in *. rewrite count_format_app.
  pose proof (emitShader_records shader v0 v1) as H. unfold records in H.
  cbn [List.length]. lia.
Qed.

Lemma trace_source r tr src :
  generate_trace r tr -> In src (sources_formatted tr) ->
  exists shaders added,
    globs tr = [shaders] /\
    src = header ++ added ++ [WriteString ")"] /\
    emitted shaders added.
Proof.
  intros [err0|tmp0 err0 x|tmp0 glslcc rf err0 x
          |tmp0 glslcc rf shaders rl loop finish r0 x Hsteps (_ & _ & Hloop) Hfin] Hin;
    try (cbn in Hin; contradiction).
  destruct (trace_loop_observed tmp0 glslcc rf shaders rl loop finish r0 x Hsteps Hfin)
    as (_ & _ & Hglobs & _ & _ & _ & Hsrc & _).
  rewrite Hsrc in Hin. rewrite Hglobs.
  destruct rl as [out|err0]; [|destruct Hin]. destruct Hin as [<-|[]].
  destruct (Hloop out eq_refl) as (_ & added & -> & Hadded).
  exists shaders, added. split; [reflexivity|]. split; [now rewrite <- app_assoc|exact Hadded].
Qed.

(** X15. The source [generate] hands to [format.Source], in any
    environment, is the header, then what was written for the shaders, then
    the closing parenthesis; and the names written in it are those of the
    shaders [filepath.Glob] returned, in the order of its list, each the
    base of the path with its dots replaced by underscores. *)
Theorem generate_names_in_order {W : Type} (h : handler W) (w : W) (src : Buffer) :
  let res := run h generate w in
  In src (sources_formatted (trace res)) ->
  exists shaders added,
    globs (trace res) = [shaders] /\
    src = header ++ added ++ [WriteString ")"] /\
    operands_of fmt_name src
    = map (fun shader => AString (strings_ReplaceAll (filepath_Base shader) "." "_"))
          shaders.
Proof.
  intros res Hin.
  destruct (trace_source (value res) (trace res) src
              (wp_run h generate _ generate_traces w) Hin)
    as (shaders & added & Hglobs & -> & Hadded).
  exists shaders, added. split; [exact Hglobs|]. split; [reflexivity|].
  rewrite !operands_of_app, (emitted_names shaders added Hadded).
  cbn. now rewrite app_nil_r.
Qed.

(** X16. The source [generate] hands to [format.Source], in any
    environment, has at least one record and at most two for each shader
    [filepath.Glob] returned. *)
Theorem generate_record_bounds {W : Type} (h : handler W) (w : W) (src : Buffer) :
  let res := run h generate w in
  In src (sources_formatted (trace res)) ->
  exists shaders,
    globs (trace res) = [shaders] /\
    (List.length shaders <= records src <= 2 * List.length shaders)%nat.
Proof.
  intros res Hin.
  destruct (trace_source (value res) (trace res) src
              (wp_run h generate _ generate_traces w) Hin)
    as (shaders & added & Hglobs & -> & Hadded).
  exists shaders. split; [exact Hglobs|].
  pose proof (emitted_records shaders added Hadded) as H.
  unfold records in *. rewrite !count_format_app.
  change (count_format fmt_record header) with 0%nat.
  change (count_format fmt_record [WriteString ")"]) with 0%nat. lia.
Qed.

(** ** Without shaders *)

Lemma trace_no_shader r tr :
  generate_trace r tr -> globs tr = [[]] ->
  notes tr = [] /\
  Forall (fun en => ~ ran en) tr /\
  sources_formatted tr = [header ++ [WriteString ")"]].
Proof.
  intros [err0|tmp0 err0 x|tmp0 glslcc rf err0 x
          |tmp0 glslcc rf shaders rl loop finish r0 x Hsteps (Hff & Hnil & Hloop) Hfin]
         Hglobs; try discriminate Hglobs.
  destruct (trace_loop_observed tmp0 glslcc rf shaders rl loop finish r0 x Hsteps Hfin)
    as (_ & _ & Hg & _ & _ & Hnotes & Hsrc & _).
  rewrite Hg in Hglobs. injection Hglobs as ->.
  specialize (Hnil eq_refl). subst loop.
  rewrite Hnotes, Hsrc.
  destruct (finished_observed rl finish r0 Hfin) as (_ & _ & _ & _ & _ & _ & Hran & _).
  split; [reflexivity|]. split.
  - cbn [app]. unfold start. repeat (constructor; [intros []|]).
    apply Forall_app. split; [exact Hran|]. constructor; [intros []|constructor].
  - destruct rl as [out|err0].
    + destruct (Hloop out eq_refl) as (_ & added & -> & Hadded).
      inversion Hadded. now rewrite app_nil_r.
    + destruct Hff as (pre & f & Hpre & _). now destruct pre.
Qed.

(** X17. When [filepath.Glob] returns no shader, in any environment: no
    stage is called and no subprocess is run, and [format.Source] is called,
    once, with the header and the closing parenthesis. *)
Theorem generate_no_shader {W : Type} (h : handler W) (w : W) :
  let res := run h generate w in
  globs (trace res) = [[]] ->
  notes (trace res) = [] /\
  Forall (fun en => ~ ran en) (trace res) /\
  sources_formatted (trace res) = [header ++ [WriteString ")"]].
Proof.
  intros res. apply trace_no_shader with (r := value res).
  apply (wp_run h generate _ generate_traces).
Qed.

End Pipeline.

(** * Properties of the package [layout] *)

(** ** Constraints *)

(** X18. [Constraint.Constrain] returns a value of the range when the range
    is not empty. *)
Theorem Constrain_in_range (c : layout.Constraint.t) (v : Z) :
  layout.Constraint.Min c <= layout.Constraint.Max c ->
  layout.Constraint.Min c <= layout.Constraint.Constrain c v <= layout.Constraint.Max c.
Proof.
  intros H. unfold layout.Constraint.Constrain.
  destruct (Z.ltb_spec v (layout.Constraint.Min c)); [lia|].
  destruct (Z.gtb_spec v (layout.Constraint.Max c)); lia.
Qed.

(** X19. [Constraint.Constrain] returns its argument exactly when the
    argument is in the range, whatever the range. *)
Theorem Constrain_fixed_iff (c : layout.Constraint.t) (v : Z) :
  layout.Constraint.Constrain c v = v
  <-> layout.Constraint.Min c <= v <= layout.Constraint.Max c.
Proof.
  unfold layout.Constraint.Constrain.
  destruct (Z.ltb_spec v (layout.Constraint.Min c)); [lia|].
  destruct (Z.gtb_spec v (layout.Constraint.Max c)); lia.
Qed.

Lemma Point_eq (p q : layout.Point.t) :
  layout.Point.X p = layout.Point.X q -> layout.Point.Y p = layout.Point.Y q -> p = q.
Proof. destruct p, q. simpl. now intros -> ->. Qed.

(** X20. The constraints [RigidConstraints] returns for a size are satisfied
    by that size only, and [Constraints.Constrain] takes every size to
    it. *)
Theorem RigidConstraints_only (size p : layout.Point.t) :
  (within (layout.RigidConstraints size) p <-> p = size) /\
  layout.Constraints.Constrain (layout.RigidConstraints size) p = size.
Proof.
  split.
  - unfold within, layout.RigidConstraints. simpl. split.
    + intros [Hx Hy]. apply Point_eq; lia.
    + intros ->. lia.
  - unfold layout.Constraints.Constrain, layout.RigidConstraints,
      layout.Constraint.Constrain. simpl.
    apply Point_eq; simpl.
    + destruct (Z.ltb_spec (layout.Point.X p) (layout.Point.X size)); [reflexivity|].
      destruct (Z.gtb_spec (layout.Point.X p) (layout.Point.X size)); lia.
    + destruct (Z.ltb_spec (layout.Point.Y p) (layout.Point.Y size)); [reflexivity|].
      destruct (Z.gtb_spec (layout.Point.Y p) (layout.Point.Y size)); lia.
Qed.

Lemma Constrain_range (c : layout.Constraint.t) (v : Z) :
  layout.Constraint.Min c <= layout.Constraint.Max c ->
  layout.Constraint.Min c <= layout.Constraint.Constrain c v <= layout.Constraint.Max c.
Proof.
  intros H. unfold layout.Constraint.Constrain.
  destruct (v <? layout.Constraint.Min c) eqn:E1; [lia|].
  destruct (v >? layout.Constraint.Max c) eqn:E2; lia.
Qed.

Lemma Constrain_fixed (c : layout.Constraint.t) (v : Z) :
  layout.Constraint.Min c <= v <= layout.Constraint.Max c ->
  layout.Constraint.Constrain c v = v.
Proof.
  intros H. unfold layout.Constraint.Constrain.
  destruct (v <? layout.Constraint.Min c) eqn:E1; [lia|].
  destruct (v >? layout.Constraint.Max c) eqn:E2; lia.
Qed.

Lemma Constraints_Constrain_within (cs : layout.Constraints.t) (size : layout.Point.t) :
  consistent cs -> within cs (layout.Constraints.Constrain cs size).
Proof.
  intros [Hw Hh]. unfold within, layout.Constraints.Constrain. simpl.
  split; now apply Constrain_range.
Qed.

(** ** [Inset.Layout] *)

Lemma Inset_mcs_normalised {Value : Type} (in_ : layout.Inset.t Value)
    (gtx : layout.Context.t Value) :
  normalised (layout.Inset.mcs in_ gtx).
Proof.
  unfold normalised, layout.Inset.mcs. cbv zeta. simpl.
  repeat match goal with
         | |- context [?a <? ?b] => destruct (Z.ltb_spec a b)
         end; lia.
Qed.

(** X21. [Inset.Layout] calls the widget under normalised constraints, and
    with no dimensions, only: two widgets that do the same to every context
    whose minimums are zero or more and not above its maximums, and whose
    dimensions are zero, are laid out the same, whatever the constraints
    and the insets. *)
Theorem Inset_Layout_widget_domain {Value : Type} (in_ : layout.Inset.t Value)
    (w w' : layout.Widget Value) (gtx : layout.Context.t Value) :
  (forall c, normalised (layout.Context.Constraints c) ->
             layout.Context.Dimensions c = layout.Dimensions.zero ->
             w c = w' c) ->
  layout.Inset.Layout in_ w gtx = layout.Inset.Layout in_ w' gtx.
Proof.
  intros H. unfold layout.Inset.Layout, layout.Context.Layout. cbv zeta.
  rewrite H; [reflexivity| |reflexivity].
  simpl. apply Inset_mcs_normalised.
Qed.

(** X22. [Inset.Layout] leaves the constraints of the context as they were
    and, when they are consistent, dimensions whose size satisfies them,
    whatever the widget does. *)
Theorem Inset_Layout_within {Value : Type} (in_ : layout.Inset.t Value)
    (w : layout.Widget Value) (gtx : layout.Context.t Value) :
  consistent (layout.Context.Constraints gtx) ->
  layout.Context.Constraints (layout.Inset.Layout in_ w gtx)
  = layout.Context.Constraints gtx /\
  within (layout.Context.Constraints gtx) (size_of (layout.Inset.Layout in_ w gtx)).
Proof.
  intros Hcs. unfold size_of, layout.Inset.Layout, layout.Context.Layout. cbv zeta.
  simpl. split; [reflexivity|]. now apply Constraints_Constrain_within.
Qed.

(** X23. [Inset.Layout] of a widget that satisfies its constraints, under
    normalised constraints and with insets that are not negative and fit
    in the maximums: the widget is called with the constraints less the
    insets, after a push and the offset of the left and top insets; the
    size left is the size of the widget plus the insets, the baseline that
    of the widget plus the top inset; and a pop follows the operations of
    the widget. *)
Theorem Inset_Layout_exact {Value : Type} (in_ : layout.Inset.t Value)
    (w : layout.Widget Value) (gtx : layout.Context.t Value) :
  let top := layout.Context.Px gtx (layout.Inset.Top in_) in
  let right := layout.Context.Px gtx (layout.Inset.Right in_) in
  let bottom := layout.Context.Px gtx (layout.Inset.Bottom in_) in
  let left := layout.Context.Px gtx (layout.Inset.Left in_) in
  let cs := layout.Context.Constraints gtx in
  obedient w ->
  normalised cs ->
  0 <= top -> 0 <= right -> 0 <= bottom -> 0 <= left ->
  left + right <= layout.Constraint.Max (layout.Constraints.Width cs) <= int.max ->
  top + bottom <= layout.Constraint.Max (layout.Constraints.Height cs) <= int.max ->
  exists inner,
    layout.Context.Constraints inner
    = layout.Constraints.mk
        (layout.Constraint.mk
           (Z.max 0 (layout.Constraint.Min (layout.Constraints.Width cs) - (left + right)))
           (layout.Constraint.Max (layout.Constraints.Width cs) - (left + right)))
        (layout.Constraint.mk
           (Z.max 0 (layout.Constraint.Min (layout.Constraints.Height cs) - (top + bottom)))
           (layout.Constraint.Max (layout.Constraints.Height cs) - (top + bottom))) /\
    layout.Context.Dimensions inner = layout.Dimensions.zero /\
    layout.Context.Config inner = layout.Context.Config gtx /\
    layout.Context.Ops inner
    = layout.Context.Ops gtx
      ++ [layout.ui.StackOp_Push; layout.ui.TransformOp_Offset (layout.Point.mk left top)] /\
    size_of (layout.Inset.Layout in_ w gtx)
    = layout.Point.mk (layout.Point.X (size_of (w inner)) + (left + right))
                      (layout.Point.Y (size_of (w inner)) + (top + bottom)) /\
    layout.Dimensions.Baseline (layout.Context.Dimensions (layout.Inset.Layout in_ w gtx))
    = int.add (layout.Dimensions.Baseline (layout.Context.Dimensions (w inner))) top /\
    layout.Context.Ops (layout.Inset.Layout in_ w gtx)
    = layout.Context.Ops (w inner) ++ [layout.ui.StackOp_Pop].
Proof.
  intros top right bottom left cs Hw Hcs Ht Hr Hb Hl Hwidth Hheight.
  assert (Hmcs : layout.Inset.mcs in_ gtx
                 = layout.Constraints.mk
                     (layout.Constraint.mk
                        (Z.max 0 (layout.Constraint.Min (layout.Constraints.Width cs)
                                  - (left + right)))
                        (layout.Constraint.Max (layout.Constraints.Width cs) - (left + right)))
                     (layout.Constraint.mk
                        (Z.max 0 (layout.Constraint.Min (layout.Constraints.Height cs)
                                  - (top + bottom)))
                        (layout.Constraint.Max (layout.Constraints.Height cs)
                         - (top + bottom)))).
  { unfold layout.Inset.mcs. cbv zeta. fold top right bottom left cs.
    destruct Hcs as [Hcw Hch].
    unfold layout.sub. rewrite !add_exact by (unfold int.in_range, int.min, int.max in *; lia).
    rewrite !wrap_in_range by (unfold int.in_range, int.min, int.max in *; lia).
    repeat match goal with
           | |- context [?a <? ?b] => destruct (Z.ltb_spec a b)
           end; f_equal; f_equal; lia. }
  exists (layout.Context.set_Dimensions
            (layout.Context.set_Constraints
               (layout.Context.add (layout.ui.TransformOp_Offset (layout.Point.mk left top))
                  (layout.Context.add layout.ui.StackOp_Push gtx))
               (layout.Inset.mcs in_ gtx))
            layout.Dimensions.zero).
  set (inner := layout.Context.set_Dimensions _ _).
  split; [rewrite <- Hmcs; reflexivity|]. split; [reflexivity|]. split; [reflexivity|].
  split; [simpl; now rewrite <- app_assoc|].
  assert (Hin : within (layout.Inset.mcs in_ gtx) (size_of (w inner))).
  { apply (Hw inner). simpl. apply Inset_mcs_normalised. }
  rewrite Hmcs in Hin. destruct Hin as [Hx Hy]. simpl in Hx, Hy.
  destruct Hcs as [Hcw Hch].
  unfold size_of at 1, layout.Inset.Layout, layout.Context.Layout. cbv zeta.
  fold top right bottom left inner. simpl.
  split; [|split; reflexivity].
  fold cs. unfold size_of in *.
  unfold layout.Constraints.Constrain, layout.Point.Add. simpl.
  rewrite (add_exact right left), (add_exact top bottom)
    by (unfold int.in_range, int.min, int.max in *; lia).
  rewrite !add_exact by (unfold int.in_range, int.min, int.max in *; lia).
  apply Point_eq; simpl; rewrite Constrain_fixed; lia.
Qed.

(** ** [Align.Layout] *)

(** X24. [Align.Layout] leaves the constraints of the context as they were
    and dimensions whose size is not below the minimums, whatever the
    widget does. *)
Theorem Align_Layout_at_least_min {Value : Type} (a : Z) (w : layout.Widget Value)
    (gtx : layout.Context.t Value) :
  let cs := layout.Context.Constraints gtx in
  let size := size_of (layout.Align.Layout a w gtx) in
  layout.Context.Constraints (layout.Align.Layout a w gtx) = cs /\
  layout.Constraint.Min (layout.Constraints.Width cs) <= layout.Point.X size /\
  layout.Constraint.Min (layout.Constraints.Height cs) <= layout.Point.Y size.
Proof.
  intros cs size. subst size.
  unfold size_of, layout.Align.Layout, layout.Context.Layout. cbv zeta. simpl.
  fold cs. split; [reflexivity|].
  repeat match goal with
         | |- context [?a <? ?b] => destruct (Z.ltb_spec a b); simpl
         end; simpl in *; lia.
Qed.

(** X25. [Align.Layout] of a widget that satisfies its constraints, under
    consistent constraints whose maximums are not negative, leaves
    dimensions whose size satisfies the constraints. *)
Theorem Align_Layout_within {Value : Type} (a : Z) (w : layout.Widget Value)
    (gtx : layout.Context.t Value) :
  let cs := layout.Context.Constraints gtx in
  obedient w ->
  consistent cs ->
  0 <= layout.Constraint.Max (layout.Constraints.Width cs) ->
  0 <= layout.Constraint.Max (layout.Constraints.Height cs) ->
  within cs (size_of (layout.Align.Layout a w gtx)).
Proof.
  intros cs Hw [Hcw Hch] Hmw Hmh.
  unfold size_of, layout.Align.Layout, layout.Context.Layout. cbv zeta. simpl.
  fold cs.
  match goal with |- context [w ?c] => set (inner := c) end.
  assert (Hin : within (layout.Context.Constraints inner) (size_of (w inner))).
  { apply (Hw inner). unfold normalised. simpl. fold cs. lia. }
  unfold within, size_of in *. simpl in Hin. fold cs in Hin.
  repeat match goal with
         | |- context [?a <? ?b] => destruct (Z.ltb_spec a b); simpl
         end; simpl in *; lia.
Qed.

Lemma Align_p_inside (a : Z) (sz dims : layout.Point.t) :
  layout.Point.X dims <= layout.Point.X sz ->
  layout.Point.Y dims <= layout.Point.Y sz ->
  int.in_range (layout.Point.X sz - layout.Point.X dims) ->
  int.in_range (layout.Point.Y sz - layout.Point.Y dims) ->
  let p := layout.Align.p a sz dims in
  0 <= layout.Point.X p /\ layout.Point.X p + layout.Point.X dims <= layout.Point.X sz /\
  0 <= layout.Point.Y p /\ layout.Point.Y p + layout.Point.Y dims <= layout.Point.Y sz.
Proof.
  intros Hx Hy Rx Ry. unfold layout.Align.p, layout.sub. cbv zeta.
  rewrite !wrap_in_range by assumption. simpl.
  pose proof (Z.quot_pos (layout.Point.X sz - layout.Point.X dims) 2) as Qx.
  pose proof (Z.quot_pos (layout.Point.Y sz - layout.Point.Y dims) 2) as Qy.
  pose proof (Z.mul_quot_le (layout.Point.X sz - layout.Point.X dims) 2) as Mx.
  pose proof (Z.mul_quot_le (layout.Point.Y sz - layout.Point.Y dims) 2) as My.
  repeat match goal with
         | |- context [if ?b then _ else _] => destruct b
         end; simpl; lia.
Qed.

(** X26. [Align.Layout] of a widget whose sizes are not negative, under
    minimums that are [int]s: the widget is called with the minimums at
    zero and the maximums as they are, after the start of a macro; the
    macro is stopped after the operations of the widget and added after a
    push and an offset, and a pop follows; and with that offset the widget
    lies in the area of the size left: the offset is not negative, and the
    offset plus the size of the widget is not beyond the size left, on both
    axes and for every direction. *)
Theorem Align_Layout_inside {Value : Type} (a : Z) (w : layout.Widget Value)
    (gtx : layout.Context.t Value) :
  let cs := layout.Context.Constraints gtx in
  (forall c, 0 <= layout.Point.X (size_of (w c)) /\ 0 <= layout.Point.Y (size_of (w c))) ->
  layout.Constraint.Min (layout.Constraints.Width cs) <= int.max ->
  layout.Constraint.Min (layout.Constraints.Height cs) <= int.max ->
  exists inner p,
    layout.Context.Constraints inner
    = layout.Constraints.mk
        (layout.Constraint.mk 0 (layout.Constraint.Max (layout.Constraints.Width cs)))
        (layout.Constraint.mk 0 (layout.Constraint.Max (layout.Constraints.Height cs))) /\
    layout.Context.Dimensions inner = layout.Dimensions.zero /\
    layout.Context.Config inner = layout.Context.Config gtx /\
    layout.Context.Ops inner = layout.Context.Ops gtx ++ [layout.ui.MacroOp_Record] /\
    layout.Context.Ops (layout.Align.Layout a w gtx)
    = layout.Context.Ops (w inner)
      ++ [layout.ui.MacroOp_Stop; layout.ui.StackOp_Push;
          layout.ui.TransformOp_Offset p; layout.ui.MacroOp_Add; layout.ui.StackOp_Pop] /\
    let size := size_of (layout.Align.Layout a w gtx) in
    0 <= layout.Point.X p /\
    layout.Point.X p + layout.Point.X (size_of (w inner)) <= layout.Point.X size /\
    0 <= layout.Point.Y p /\
    layout.Point.Y p + layout.Point.Y (size_of (w inner)) <= layout.Point.Y size.
Proof.
  intros cs Hpos Hminw Hminh.
  unfold size_of, layout.Align.Layout, layout.Context.Layout in *. cbv zeta. simpl.
  fold cs.
  match goal with |- context [w ?c] => set (inner := c) end.
  destruct (Hpos inner) as [Hx Hy].
  exists inner.
  destruct (Z.ltb_spec
              (layout.Point.X (layout.Dimensions.Size (layout.Context.Dimensions (w inner))))
              (layout.Constraint.Min (layout.Constraints.Width cs))) as [Lx|Lx]; simpl;
    destruct (Z.ltb_spec
                (layout.Point.Y (layout.Dimensions.Size (layout.Context.Dimensions (w inner))))
                (layout.Constraint.Min (layout.Constraints.Height cs))) as [Ly|Ly]; simpl.
  all: match goal with |- context [layout.ui.TransformOp_Offset ?q] => exists q end.
  all: split; [reflexivity|]; split; [reflexivity|]; split; [reflexivity|].
  all: split; [reflexivity|]; split; [now rewrite <- !app_assoc|].
  all: match goal with
       | |- context [layout.Align.p ?d0 ?sz ?d] => apply (Align_p_inside d0 sz d)
       end; simpl; unfold int.in_range, int.min, int.max in *; lia.
Qed.

(** X27. A value of [Align] above [Center], which is none of the
    directions, is laid out as [NW]. *)
Theorem Align_Layout_undeclared {Value : Type} (a : Z) (w : layout.Widget Value)
    (gtx : layout.Context.t Value) :
  layout.Direction.Center < a ->
  layout.Align.Layout a w gtx = layout.Align.Layout layout.Direction.NW w gtx.
Proof.
  intros Ha. unfold layout.Align.Layout. cbv zeta.
  destruct (layout.Context.Layout _ w _) as [dims gtx1].
  assert (Hp : forall sz, layout.Align.p a sz (layout.Dimensions.Size dims)
                          = layout.Align.p layout.Direction.NW sz
                              (layout.Dimensions.Size dims)).
  { intros sz. unfold layout.Align.p, layout.Direction.Center, layout.Direction.N,
      layout.Direction.S, layout.Direction.NE, layout.Direction.SE, layout.Direction.E,
      layout.Direction.SW, layout.Direction.W, layout.Direction.NW in *.
    repeat match goal with
           | |- context [?x =? ?y] => destruct (Z.eqb_spec x y); try lia
           end.
    reflexivity. }
  now rewrite Hp.
Qed.

(** ** The names of the constants *)

(** X28. The methods [String] of [Alignment], [Direction] and [Axis] return
    a name for the constants declared, and for them only (for every other
    value they panic); and [Direction.String] gives no name to two
    directions. *)
Theorem String_declared_only (a : Z) :
  (layout.Alignment.String a <> None
   <-> layout.Alignment.Start <= a <= layout.Alignment.Baseline) /\
  (layout.Direction.String a <> None
   <-> layout.Direction.NW <= a <= layout.Direction.Center) /\
  (layout.Axis.String a <> None
   <-> layout.Axis.Horizontal <= a <= layout.Axis.Vertical) /\
  (forall b, layout.Direction.String a <> None ->
             layout.Direction.String a = layout.Direction.String b -> a = b).
Proof.
  unfold layout.Alignment.String, layout.Direction.String, layout.Axis.String,
    layout.Alignment.Start, layout.Alignment.End_, layout.Alignment.Middle,
    layout.Alignment.Baseline, layout.Axis.Horizontal, layout.Axis.Vertical,
    layout.Direction.Center, layout.Direction.N,
    layout.Direction.S, layout.Direction.NE, layout.Direction.SE, layout.Direction.E,
    layout.Direction.SW, layout.Direction.W, layout.Direction.NW.
  split; [|split; [|split]].
  1-3: repeat match goal with
              | |- context [?x =? ?y] => destruct (Z.eqb_spec x y)
              end;
       (split; [intros H; try lia; exfalso; apply H; reflexivity
               |intros H; try lia; discriminate]).
  intros b.
  repeat match goal with
         | |- context [?x =? ?y] => destruct (Z.eqb_spec x y)
         end;
    intros Ha Hab; try congruence; try discriminate Hab.
Qed.

(** * Examples

    The theorems at the reference implementations, on the documents and in
    the environments of [Ref]. *)

(** ** Sorting by insertion is a [sort.Slice] *)

Lemma insert_Permutation {A : Type} (lt : A -> A -> bool) (x : A) (l : list A) :
  Permutation (x :: l) (Ref.insert lt x l).
Proof.
  induction l as [|y rest IH]; simpl; [reflexivity|].
  destruct (lt x y); [reflexivity|].
  etransitivity; [apply perm_swap|]. now apply perm_skip.
Qed.

Lemma Ref_sort_Slice_Permutation (A : Type) (l : list A) (lt : A -> A -> bool) :
  Permutation l (Ref.sort_Slice A l lt).
Proof.
  unfold Ref.sort_Slice. induction l as [|x rest IH]; simpl; [reflexivity|].
  etransitivity; [|apply insert_Permutation]. now apply perm_skip.
Qed.

Lemma insert_sorted {A : Type} (lt : A -> A -> bool) (x : A) (l : list A) :
  strict_weak lt ->
  StronglySorted (fun a b => lt b a = false) l ->
  StronglySorted (fun a b => lt b a = false) (Ref.insert lt x l).
Proof.
  intros [Hasym Htrans]. induction 1 as [|y rest Hrest IH Hy]; simpl.
  - repeat constructor.
  - destruct (lt x y) eqn:E.
    + constructor; [now constructor|]. constructor; [now apply Hasym|].
      eapply Forall_impl; [|exact Hy]. intros z Hz. simpl in Hz.
      apply (Htrans x y z); [now apply Hasym|exact Hz].
    + constructor; [exact IH|].
      eapply Permutation_Forall; [apply insert_Permutation|]. now constructor.
Qed.

Lemma Ref_sort_Slice_sorted (A : Type) (l : list A) (lt : A -> A -> bool) :
  strict_weak lt ->
  StronglySorted (fun a b => lt b a = false) (Ref.sort_Slice A l lt).
Proof.
  intros Hlt. unfold Ref.sort_Slice. induction l as [|x rest IH]; simpl.
  - constructor.
  - now apply insert_sorted.
Qed.

(** ** The parser *)

(** The tokens [float3] and [double]. *)
Lemma parseDataType_supported_or_error_example :
  parseDataType "float3" = Ok (DataTypeFloat, 3) /\
  parseDataType "double" = Err "unsupported input data type: double"%string.
Proof.
  split.
  - apply (proj1 (parseDataType_supported_or_error "float3")).
    simpl. repeat (first [left; reflexivity|right]).
  - apply (proj2 (parseDataType_supported_or_error "double")).
    simpl. intros H.
    repeat (destruct H as [H|H]; [discriminate H|]). exact H.
Defined.

(** The two blocks of the vertex stage: sizes 32 and 16; the member of the
    second block is the third location, at offset 32 + 0, and the size is
    48. *)
Lemma parseReflection_uniform_offsets_example :
  let data := Ref.bytes "vertex.json" in
  let info' := snd (parseReflection Ref.json_Unmarshal Ref.sort_Slice data zero) in
  Ref.json_Unmarshal data = Ok Ref.doc_vertex /\
  parseReflection Ref.json_Unmarshal Ref.sort_Slice data zero = (None, info') /\
  USize info' = 48 /\
  exists loc,
    nth_error (Locations info') 2 = Some loc /\
    UniformLocation.Offset loc = 32 /\
    UniformLocation.Name loc = "_30._color"%string.
Proof.
  intros data info'.
  assert (Hjson : Ref.json_Unmarshal data = Ok Ref.doc_vertex) by reflexivity.
  assert (Hparse : parseReflection Ref.json_Unmarshal Ref.sort_Slice data zero
                   = (None, info')) by reflexivity.
  split; [exact Hjson|]. split; [exact Hparse|].
  destruct (parseReflection_uniform_offsets Ref.json_Unmarshal Ref.sort_Slice
              data Ref.doc_vertex zero info' Hjson Hparse) as (Hsize & _ & Hnth).
  split; [exact Hsize|].
  destruct (Hnth 1%nat Ref.color 0%nat
              (UniformMemberReflection.mk "_color" "float4" 0 16) eq_refl eq_refl)
    as (loc & Hloc & Hoffset & Hname).
  exists loc. split; [exact Hloc|]. split; [exact Hoffset|exact Hname].
Defined.

(** The inputs of the vertex stage, at locations 1 and 0 in the document,
    come out at locations 0 and 1. *)
Lemma parseReflection_inputs_sorted_example :
  let data := Ref.bytes "vertex.json" in
  let info' := snd (parseReflection Ref.json_Unmarshal Ref.sort_Slice data zero) in
  map InputReflection.Location
      (shaderReflection.Inputs (shaderMetadata.VS Ref.doc_vertex)) = [1; 0] /\
  map InputLocation.Location (Inputs info') = [0; 1] /\
  StronglySorted
    (fun a b => InputLocation.Location a < InputLocation.Location b) (Inputs info').
Proof.
  intros data info'. split; [reflexivity|]. split; [reflexivity|].
  apply (parseReflection_inputs_sorted Ref.json_Unmarshal Ref.sort_Slice
           Ref_sort_Slice_Permutation Ref_sort_Slice_sorted
           data Ref.doc_vertex info' eq_refl).
  - constructor; [|constructor; [|constructor]]; simpl.
    + intros [H|H]; [discriminate H|exact H].
    + intros H; exact H.
  - reflexivity.
Defined.

(** The blocks and the texture of the fragment stage, the vertex stage
    having none, reach the record as they are; and the outcome is that of
    the document with those blocks in its vertex stage. *)
Lemma parseReflection_stage_fallback_example :
  let data := Ref.bytes "fragment.json" in
  let data' := Ref.bytes "fragment_in_vertex.json" in
  let info' := snd (parseReflection Ref.json_Unmarshal Ref.sort_Slice data zero) in
  shaderReflection.UniformBuffers (shaderMetadata.VS Ref.doc_fragment) = [] /\
  shaderReflection.Textures (shaderMetadata.VS Ref.doc_fragment) = [] /\
  Blocks info' = map block_of [Ref.block; Ref.color] /\
  map UniformLocation.Offset (Locations info') = [0; 16; 32] /\
  USize info' = 48 /\
  Textures info' = map texture_of [Ref.tex] /\
  parseReflection Ref.json_Unmarshal Ref.sort_Slice data zero
  = parseReflection Ref.json_Unmarshal Ref.sort_Slice data' zero.
Proof.
  intros data data' info'.
  destruct (parseReflection_stage_fallback Ref.json_Unmarshal Ref.sort_Slice
              data Ref.doc_fragment zero eq_refl) as [Hread Hignored].
  destruct (Hread info' eq_refl)
    as (blocks & textures & lss & Hb & _ & Ht & _ & HB & _ & _ & HS & HT).
  rewrite (Hb eq_refl) in HB, HS. rewrite (Ht eq_refl) in HT.
  split; [reflexivity|]. split; [reflexivity|]. split; [exact HB|].
  split; [reflexivity|]. split; [exact HS|]. split; [exact HT|].
  exact (proj1 (Hignored data' Ref.doc_fragment_in_vertex eq_refl) eq_refl eq_refl).
Defined.



(** Two parses of one document into one record: the second finds what the
    first left, appends the entries of the document, and every list
    doubles. *)
Lemma parseReflection_appends_example :
  let data := Ref.bytes "fragment.json" in
  let fresh := snd (parseReflection Ref.json_Unmarshal Ref.sort_Slice data zero) in
  parseReflection Ref.json_Unmarshal Ref.sort_Slice data zero = (None, fresh) /\
  exists info',
    parseReflection Ref.json_Unmarshal Ref.sort_Slice data fresh = (None, info') /\
    Blocks info' = Blocks fresh ++ map block_of [Ref.block; Ref.color] /\
    USize info' = 48 /\
    Textures info' = Textures fresh ++ map texture_of [Ref.tex] /\
    Permutation (Inputs fresh ++ Inputs fresh) (Inputs info') /\
    StronglySorted
      (fun a b => InputLocation.Location a <= InputLocation.Location b) (Inputs info') /\
    Blocks info' = Blocks fresh ++ Blocks fresh /\
    Locations info' = Locations fresh ++ Locations fresh /\
    USize info' = USize fresh /\
    Textures info' = Textures fresh ++ Textures fresh.
Proof.
  intros data fresh. split; [reflexivity|].
  destruct (parseReflection_appends Ref.json_Unmarshal Ref.sort_Slice
              Ref_sort_Slice_Permutation Ref_sort_Slice_sorted
              data Ref.doc_fragment fresh fresh eq_refl eq_refl)
    as (info' & xs & lss & Hparse & _ & _ & Hsorted & HB & _ & _ & HS & HT
        & Hperm & HB' & HL' & HS' & HT').
  exists info'. split; [exact Hparse|]. split; [exact HB|]. split; [exact HS|].
  split; [exact HT|]. split; [exact Hperm|]. split; [exact Hsorted|].
  split; [exact HB'|]. split; [exact HL'|]. split; [exact HS'|exact HT'].
Defined.

(** ** The orchestrator *)

(** [generate] with the reference implementations, for the package
    [shaders]. *)
Abbreviation generate_ref :=
  (generate Ref.json_Unmarshal Ref.sort_Slice Ref.filepath_Ext Ref.filepath_Base
            Ref.filepath_Join Ref.strings_ReplaceAll "shaders").


(** A run in which the reflection has an input of type [double]: the parse
    fails, [generate] returns its error, and only the removal of the
    temporary directory follows. *)
Lemma generate_aborts_on_stage_failure_example :
  let res := run (Ref.env true "double.json") generate_ref EmptyString in
  let err := "parseReflection: unsupported input data type: double"%string in
  In (Returned ParseReflection (Some err)) (trace res) /\
  value res = Some err /\
  exists pre post,
    trace res = pre ++ Returned ParseReflection (Some err) :: post /\
    clean pre /\ Forall cleanup post.
Proof.
  intros res err.
  assert (Hin : In (Returned ParseReflection (Some err)) (trace res)).
  { vm_compute. repeat (first [left; reflexivity|right]). }
  split; [exact Hin|].
  destruct (generate_aborts_on_stage_failure Ref.json_Unmarshal Ref.sort_Slice
              Ref.filepath_Ext Ref.filepath_Base Ref.filepath_Join
              Ref.strings_ReplaceAll "shaders"
              (Ref.env true "double.json") EmptyString ParseReflection err Hin)
    as (Hvalue & Hshape & _).
  split; [exact Hvalue|exact Hshape].
Defined.

(** Two variants with one GLSL ES 100 text, and two with different texts. *)
Abbreviation variant_of glsl100 hlsl :=
  (mkVariant (ShaderSources.set_GLSL100ES zero glsl100) hlsl).

Lemma emitShader_one_or_two_records_example :
  (exists added,
     emitShader Ref.filepath_Base Ref.strings_ReplaceAll "shaders/blit.frag"
       [variant_of "gl_FragColor = _color;" "return _color;";
        variant_of "gl_FragColor = _color;" "return _color; "] []
     = added /\
     records added = 1%nat) /\
  (exists added,
     emitShader Ref.filepath_Base Ref.strings_ReplaceAll "shaders/blit.frag"
       [variant_of "gl_FragColor = _color;" "return _color;";
        variant_of "gl_FragColor = texture2D(tex, vUV);" "return tex.Sample(s, vUV);"] []
     = added /\
     records added = 2%nat /\
     operands_of fmt_GLSL100ES added
     = [AString "gl_FragColor = _color;";
        AString "gl_FragColor = texture2D(tex, vUV);"]).
Proof.
  split.
  - destruct (emitShader_one_or_two_records Ref.filepath_Base Ref.strings_ReplaceAll
                "shaders/blit.frag"
                (variant_of "gl_FragColor = _color;" "return _color;")
                (variant_of "gl_FragColor = _color;" "return _color; ") [])
      as (added & Heq & Hsame & _).
    exists added. split; [exact Heq|]. exact (proj1 (Hsame eq_refl)).
  - destruct (emitShader_one_or_two_records Ref.filepath_Base Ref.strings_ReplaceAll
                "shaders/blit.frag"
                (variant_of "gl_FragColor = _color;" "return _color;")
                (variant_of "gl_FragColor = texture2D(tex, vUV);"
                            "return tex.Sample(s, vUV);") [])
      as (added & Heq & _ & Hdiffer).
    exists added. split; [exact Heq|].
    assert (Hne : "gl_FragColor = _color;"%string
                  <> "gl_FragColor = texture2D(tex, vUV);"%string) by discriminate.
    destruct (Hdiffer Hne) as (Hn & Hops & _). split; [exact Hn|exact Hops].
Defined.

Lemma emitShader_single_record_is_first_example :
  exists added,
    emitShader Ref.filepath_Base Ref.strings_ReplaceAll "shaders/blit.frag"
      [variant_of "gl_FragColor = _color;" "return _color;";
       variant_of "gl_FragColor = _color;" "return _color; "] []
    = writeName Ref.filepath_Base Ref.strings_ReplaceAll "shaders/blit.frag" :: added /\
    records added = 1%nat /\
    operands_of fmt_hlslSrc added = [AString "return _color;"].
Proof.
  destruct (emitShader_single_record_is_first Ref.filepath_Base Ref.strings_ReplaceAll
              "shaders/blit.frag"
              (variant_of "gl_FragColor = _color;" "return _color;")
              (variant_of "gl_FragColor = _color;" "return _color; ") [] eq_refl)
    as (added & Heq & _ & Hn & _ & _ & Hhlsl & _).
  exists added. split; [exact Heq|]. split; [exact Hn|exact Hhlsl].
Defined.

(** ** Further examples of the parser *)

(** The token [float2] is the only one of two floating-point components. *)
Lemma parseDataType_injective_example :
  parseDataType "float2" = Ok (DataTypeFloat, 2) /\
  forall t, parseDataType t = Ok (DataTypeFloat, 2) -> t = "float2"%string.
Proof.
  split; [reflexivity|].
  intros t Ht.
  exact (parseDataType_injective t "float2" (DataTypeFloat, 2) Ht eq_refl).
Defined.

Lemma parseReflection_component_counts_example :
  let data := Ref.bytes "vertex.json" in
  let info' := snd (parseReflection Ref.json_Unmarshal Ref.sort_Slice data zero) in
  parseReflection Ref.json_Unmarshal Ref.sort_Slice data zero = (None, info') /\
  map InputLocation.Size (Inputs info') = [2; 2] /\
  Forall (fun loc => 1 <= InputLocation.Size loc <= 4) (Inputs info') /\
  Forall (fun loc => 1 <= UniformLocation.Size loc <= 4) (Locations info').
Proof.
  intros data info'. split; [reflexivity|]. split; [reflexivity|].
  exact (parseReflection_component_counts Ref.json_Unmarshal Ref.sort_Slice
           Ref_sort_Slice_Permutation data info' eq_refl).
Defined.

(** The parse of [doc_mixed] stops at the second input: the first is
    appended, the third is not, and nothing else is. *)
Lemma parseReflection_first_unsupported_input_example :
  exists xs,
    Forall2 input_of [Ref.uv] xs /\
    parseReflection decode_mixed Ref.sort_Slice [] zero
    = (Some (parseReflection_error "unsupported input data type: double"%string),
       extend zero xs [] [] []).
Proof.
  apply (parseReflection_first_unsupported_input decode_mixed Ref.sort_Slice
           [] doc_mixed zero [Ref.uv] [Ref.position]
           (InputReflection.mk 2 "depth" 2 "TEXCOORD" 1 "double")
           "unsupported input data type: double"%string eq_refl eq_refl).
  - constructor; [reflexivity|constructor].
  - reflexivity.
Defined.

(** A second parse, of a document that fails, into the record of a first
    parse. *)
Lemma parseReflection_keeps_example :
  let fresh :=
    snd (parseReflection Ref.json_Unmarshal Ref.sort_Slice (Ref.bytes "vertex.json") zero) in
  let info := ShaderSources.set_GLSL100ES fresh "void main() {}" in
  let info' :=
    snd (parseReflection Ref.json_Unmarshal Ref.sort_Slice (Ref.bytes "fragment.json") info) in
  ShaderSources.GLSL100ES info' = "void main() {}"%string /\
  (exists bs, Blocks info' = Blocks info ++ bs) /\
  (exists xs, Permutation (Inputs info ++ xs) (Inputs info')).
Proof.
  intros fresh info info'.
  destruct (parseReflection_keeps Ref.json_Unmarshal Ref.sort_Slice
              Ref_sort_Slice_Permutation (Ref.bytes "fragment.json") info)
    as (H100 & _ & _ & Hblocks & _ & _ & Hinputs).
  split; [exact H100|]. split; [exact Hblocks|exact Hinputs].
Defined.

Lemma parseReflection_failure_keeps_size_example :
  let fresh :=
    snd (parseReflection Ref.json_Unmarshal Ref.sort_Slice (Ref.bytes "vertex.json") zero) in
  let r := parseReflection Ref.json_Unmarshal Ref.sort_Slice (Ref.bytes "double.json") fresh in
  USize fresh = 48 /\
  fst r = Some "parseReflection: unsupported input data type: double"%string /\
  Textures (snd r) = Textures fresh /\
  USize (snd r) = 48.
Proof.
  intros fresh r. split; [reflexivity|]. split; [reflexivity|].
  exact (parseReflection_failure_keeps_size Ref.json_Unmarshal Ref.sort_Slice
           (Ref.bytes "double.json") fresh (snd r)
           "parseReflection: unsupported input data type: double"%string eq_refl).
Defined.

Lemma parseReflection_copies_example :
  let data := Ref.bytes "vertex.json" in
  let info' := snd (parseReflection Ref.json_Unmarshal Ref.sort_Slice data zero) in
  map UniformBlock.Name (Blocks info') = ["Block"; "Color"]%string /\
  Blocks info' = map block_of [Ref.block; Ref.color] /\
  Textures info' = map texture_of [Ref.tex].
Proof.
  intros data info'. split; [reflexivity|].
  destruct (parseReflection_copies Ref.json_Unmarshal Ref.sort_Slice
              data Ref.doc_vertex zero info' eq_refl eq_refl) as (Hblocks & Htextures & _).
  split; [exact Hblocks|exact Htextures].
Defined.

(** ** Further examples of the converters *)

Abbreviation convertShader_ref :=
  (convertShader Ref.filepath_Ext Ref.filepath_Base Ref.filepath_Join).

(** The conversion of a file that is no shader: the expanded file is
    written and removed, and [glslcc] is not run. *)
Lemma convertShader_unrecognized_never_runs_example :
  let res :=
    run (Ref.env true "vertex.json")
        (convertShader_ref "/tmp/shader-convert042" "/usr/bin/glslcc" "shaders/README.md"
           "gles" "100" (mkArgs "_color" EmptyString) false)
        EmptyString in
  written_names (trace res) = ["/tmp/shader-convert042/README.md"%string] /\
  Forall (fun en => ~ ran en) (trace res) /\
  value res = Err "unrecognized shader type: shaders/README.md"%string /\
  removed_names (trace res) = ["/tmp/shader-convert042/README.md"%string].
Proof.
  intros res.
  assert (Hpath : ~ recognized Ref.filepath_Ext "shaders/README.md").
  { intros [H|H]; discriminate H. }
  destruct (convertShader_unrecognized_never_runs Ref.filepath_Ext Ref.filepath_Base
              Ref.filepath_Join (Ref.env true "vertex.json") EmptyString
              "/tmp/shader-convert042" "/usr/bin/glslcc" "shaders/README.md"
              "gles" "100" (mkArgs "_color" EmptyString) false Hpath)
    as (Hran & _ & Hwritten).
  split; [reflexivity|]. split; [exact Hran|].
  apply Hwritten. discriminate.
Defined.

Lemma convertShader_error_of_a_call_example :
  let res :=
    run env_failing_run
        (convertShader_ref "/tmp/shader-convert042" "/usr/bin/glslcc" "shaders/blit.frag"
           "gles" "100" (mkArgs "_color" EmptyString) false)
        EmptyString in
  value res = Err "shaders/blit.frag: exit status 1"%string /\
  Exists (call_fails "shaders/blit.frag" "shaders/blit.frag: exit status 1"%string)
         (trace res).
Proof.
  intros res. split; [reflexivity|].
  destruct (convertShader_error_of_a_call Ref.filepath_Ext Ref.filepath_Base
              Ref.filepath_Join env_failing_run EmptyString
              "/tmp/shader-convert042" "/usr/bin/glslcc" "shaders/blit.frag"
              "gles" "100" (mkArgs "_color" EmptyString) false
              "shaders/blit.frag: exit status 1"%string eq_refl) as [H|[H _]].
  - exact H.
  - exfalso. apply H. right. reflexivity.
Defined.

(** ** Further examples of the orchestrator *)

Lemma generate_removes_tempdir_example :
  let res := run (Ref.env true "vertex.json") generate_ref EmptyString in
  let tmp := "/tmp/shader-convert042"%string in
  made_dirs (trace res) = [tmp] /\
  removed_dirs (trace res) = [tmp] /\
  exists pre x,
    trace res = pre ++ [Called (os_RemoveAll tmp) x] /\
    Forall (fun en => ~ cleanup en) pre.
Proof.
  intros res tmp. split; [reflexivity|].
  apply (generate_removes_tempdir Ref.json_Unmarshal Ref.sort_Slice Ref.filepath_Ext
           Ref.filepath_Base Ref.filepath_Join Ref.strings_ReplaceAll "shaders"
           (Ref.env true "vertex.json") EmptyString tmp).
  vm_compute. left. reflexivity.
Defined.

(** A run in which the parse of the reflection fails: the error returned
    is the one the parse returned. *)
Lemma generate_error_of_a_step_example :
  let res := run (Ref.env true "double.json") generate_ref EmptyString in
  let err := "parseReflection: unsupported input data type: double"%string in
  value res = Some err /\ Exists (fails_with err) (trace res).
Proof.
  intros res err. split; [reflexivity|].
  exact (generate_error_of_a_step Ref.json_Unmarshal Ref.sort_Slice Ref.filepath_Ext
           Ref.filepath_Base Ref.filepath_Join Ref.strings_ReplaceAll "shaders"
           (Ref.env true "double.json") EmptyString err eq_refl).
Defined.

Lemma generate_writes_formatted_example :
  let res := run (Ref.env true "vertex.json") generate_ref EmptyString in
  value res = None /\
  exists pre src gosrc tmp x,
    trace res = pre ++ [Called (format_Source src) (Ok gosrc);
                        Called (ioutil_WriteFile artifact gosrc) None;
                        Called (os_RemoveAll tmp) x] /\
    clean pre /\ sources_formatted (trace res) = [src].
Proof.
  intros res. split; [reflexivity|].
  exact (generate_writes_formatted Ref.json_Unmarshal Ref.sort_Slice Ref.filepath_Ext
           Ref.filepath_Base Ref.filepath_Join Ref.strings_ReplaceAll "shaders"
           (Ref.env true "vertex.json") EmptyString eq_refl).
Defined.

Lemma generate_without_glslcc_example :
  let res := run env_without_glslcc generate_ref EmptyString in
  let err := "executable file not found in $PATH"%string in
  failed_lookups (trace res) = [("glslcc"%string, err)] /\
  value res = Some err /\
  List.length (trace res) = 3%nat.
Proof.
  intros res err. split; [reflexivity|].
  destruct (generate_without_glslcc Ref.json_Unmarshal Ref.sort_Slice Ref.filepath_Ext
              Ref.filepath_Base Ref.filepath_Join Ref.strings_ReplaceAll "shaders"
              env_without_glslcc EmptyString err (or_introl eq_refl))
    as (Hvalue & tmp & x & Htrace).
  split; [exact Hvalue|]. fold res in Htrace. now rewrite Htrace.
Defined.

(** A run with [fxc]: five stages for each of the two variants of the one
    shader. *)
Lemma generate_stage_order_example :
  let res := run (Ref.env true "vertex.json") generate_ref EmptyString in
  value res = None /\
  fxc_found (trace res) = true /\
  exists shaders,
    globs (trace res) = [shaders] /\
    notes (trace res)
    = flat_map (fun _ => variant_stages true ++ variant_stages true) shaders.
Proof.
  intros res. split; [reflexivity|]. split; [reflexivity|].
  exact (generate_stage_order Ref.json_Unmarshal Ref.sort_Slice Ref.filepath_Ext
           Ref.filepath_Base Ref.filepath_Join Ref.strings_ReplaceAll "shaders"
           (Ref.env true "vertex.json") EmptyString eq_refl).
Defined.

Lemma generate_names_in_order_example :
  let res := run (Ref.env true "vertex.json") generate_ref EmptyString in
  exists src,
    sources_formatted (trace res) = [src] /\
    operands_of (fmt_name) src = [AString "blit_frag"].
Proof.
  intros res.
  destruct (sources_formatted (trace res)) as [|src rest] eqn:E; [discriminate E|].
  destruct rest; [|discriminate E].
  exists src. split; [reflexivity|].
  destruct (generate_names_in_order Ref.json_Unmarshal Ref.sort_Slice Ref.filepath_Ext
              Ref.filepath_Base Ref.filepath_Join Ref.strings_ReplaceAll "shaders"
              (Ref.env true "vertex.json") EmptyString src)
    as (shaders & added & Hglobs & _ & Hnames).
  - fold res. rewrite E. left. reflexivity.
  - fold res in Hglobs. injection Hglobs as <-. exact Hnames.
Defined.

Lemma generate_record_bounds_example :
  let res := run (Ref.env true "vertex.json") generate_ref EmptyString in
  exists src,
    sources_formatted (trace res) = [src] /\
    (1 <= records src <= 2)%nat.
Proof.
  intros res.
  destruct (sources_formatted (trace res)) as [|src rest] eqn:E; [discriminate E|].
  destruct rest; [|discriminate E].
  exists src. split; [reflexivity|].
  destruct (generate_record_bounds Ref.json_Unmarshal Ref.sort_Slice Ref.filepath_Ext
              Ref.filepath_Base Ref.filepath_Join Ref.strings_ReplaceAll "shaders"
              (Ref.env true "vertex.json") EmptyString src)
    as (shaders & Hglobs & Hbounds).
  - fold res. rewrite E. left. reflexivity.
  - fold res in Hglobs. injection Hglobs as <-. exact Hbounds.
Defined.

Lemma generate_no_shader_example :
  let res := run env_without_shaders generate_ref EmptyString in
  value res = None /\
  notes (trace res) = [] /\
  Forall (fun en => ~ ran en) (trace res) /\
  sources_formatted (trace res)
  = [header "shaders" ++ [WriteString ")"]].
Proof.
  intros res. split; [reflexivity|].
  exact (generate_no_shader Ref.json_Unmarshal Ref.sort_Slice Ref.filepath_Ext
           Ref.filepath_Base Ref.filepath_Join Ref.strings_ReplaceAll "shaders"
           env_without_shaders EmptyString eq_refl).
Defined.

(** ** Examples of the layouts *)

Lemma Constrain_in_range_example :
  layout.Constraint.Constrain (layout.Constraint.mk 10 20) 35 = 20 /\
  10 <= layout.Constraint.Constrain (layout.Constraint.mk 10 20) 35 <= 20.
Proof.
  split; [reflexivity|].
  apply (Constrain_in_range (layout.Constraint.mk 10 20) 35). simpl. lia.
Defined.

(** [label] and [fussy] differ, and are laid out the same in an inset. *)
Lemma Inset_Layout_widget_domain_example :
  LayoutRef.label (layout.Context.set_Constraints LayoutRef.gtx
                     (layout.Constraints.mk (layout.Constraint.mk (-1) 10)
                                            (layout.Constraint.mk 0 10)))
  <> LayoutRef.fussy (layout.Context.set_Constraints LayoutRef.gtx
                        (layout.Constraints.mk (layout.Constraint.mk (-1) 10)
                                               (layout.Constraint.mk 0 10))) /\
  layout.Inset.Layout (layout.UniformInset 4) LayoutRef.label LayoutRef.gtx
  = layout.Inset.Layout (layout.UniformInset 4) LayoutRef.fussy LayoutRef.gtx.
Proof.
  split; [discriminate|].
  apply (Inset_Layout_widget_domain (layout.UniformInset 4) LayoutRef.label LayoutRef.fussy
           LayoutRef.gtx).
  intros c [[Hmin _] _] _. unfold LayoutRef.fussy.
  destruct (Z.ltb_spec
              (layout.Constraint.Min (layout.Constraints.Width (layout.Context.Constraints c)))
              0) as [H|H]; [lia|reflexivity].
Defined.

(** [fixed], of width 30, in an inset of 8 pixels on every side under a
    minimum width of 40 and a maximum height of 50. *)
Lemma Inset_Layout_within_example :
  size_of (layout.Inset.Layout (layout.UniformInset 4) LayoutRef.fixed LayoutRef.gtx)
  = layout.Point.mk 46 36 /\
  within (layout.Context.Constraints LayoutRef.gtx)
         (size_of (layout.Inset.Layout (layout.UniformInset 4) LayoutRef.fixed
                     LayoutRef.gtx)).
Proof.
  split; [reflexivity|].
  apply (Inset_Layout_within (layout.UniformInset 4) LayoutRef.fixed LayoutRef.gtx).
  unfold consistent. simpl. lia.
Defined.

Lemma label_obedient : obedient LayoutRef.label.
Proof.
  intros c [[_ Hw] [_ Hh]]. unfold LayoutRef.label. simpl.
  apply Constraints_Constrain_within. now split.
Qed.

Lemma Inset_Layout_exact_example :
  exists inner,
    size_of (LayoutRef.label inner) = layout.Point.mk 30 20 /\
    size_of (layout.Inset.Layout (layout.UniformInset 4) LayoutRef.label LayoutRef.gtx)
    = layout.Point.mk (30 + (8 + 8)) (20 + (8 + 8)) /\
    layout.Context.Ops (layout.Inset.Layout (layout.UniformInset 4) LayoutRef.label
                          LayoutRef.gtx)
    = [layout.ui.StackOp_Push; layout.ui.TransformOp_Offset (layout.Point.mk 8 8);
       layout.ui.StackOp_Pop].
Proof.
  destruct (Inset_Layout_exact (layout.UniformInset 4) LayoutRef.label LayoutRef.gtx
              label_obedient)
    as (inner & Hcs & Hdims & Hconfig & Hops & Hsize & _ & Hpop).
  1-7: vm_compute; repeat split; discriminate.
  exists inner. destruct inner as [cs dims cfg ops]. simpl in Hcs, Hdims, Hconfig, Hops.
    subst cs dims cfg ops. split; [reflexivity|]. split; [exact Hsize|exact Hpop].
Defined.

(** [label] aligned at the centre under a minimum width of 40: the area is
    40 wide and the widget 30. *)
Lemma Align_Layout_within_example :
  size_of (layout.Align.Layout layout.Direction.Center LayoutRef.label LayoutRef.gtx)
  = layout.Point.mk 40 20 /\
  within (layout.Context.Constraints LayoutRef.gtx)
         (size_of (layout.Align.Layout layout.Direction.Center LayoutRef.label
                     LayoutRef.gtx)).
Proof.
  split; [reflexivity|].
  apply (Align_Layout_within layout.Direction.Center LayoutRef.label LayoutRef.gtx
           label_obedient).
  all: vm_compute; repeat split; discriminate.
Defined.

Lemma Align_Layout_inside_example :
  layout.Context.Ops (layout.Align.Layout layout.Direction.Center LayoutRef.fixed
                        LayoutRef.gtx)
  = [layout.ui.MacroOp_Record; layout.ui.MacroOp_Stop; layout.ui.StackOp_Push;
     layout.ui.TransformOp_Offset (layout.Point.mk 5 0);
     layout.ui.MacroOp_Add; layout.ui.StackOp_Pop] /\
  exists inner p,
    layout.Context.Ops (layout.Align.Layout layout.Direction.Center LayoutRef.fixed
                          LayoutRef.gtx)
    = layout.Context.Ops (LayoutRef.fixed inner)
      ++ [layout.ui.MacroOp_Stop; layout.ui.StackOp_Push;
          layout.ui.TransformOp_Offset p; layout.ui.MacroOp_Add; layout.ui.StackOp_Pop] /\
    0 <= layout.Point.X p /\
    layout.Point.X p + 30 <= 40.
Proof.
  split; [reflexivity|].
  destruct (Align_Layout_inside layout.Direction.Center LayoutRef.fixed LayoutRef.gtx)
    as (inner & p & _ & _ & _ & _ & Hops & Hx0 & Hx1 & _).
  1-3: try intros c; vm_compute; repeat split; discriminate.
  exists inner, p. split; [exact Hops|]. split; [exact Hx0|exact Hx1].
Defined.

Lemma Align_Layout_undeclared_example :
  layout.Align.Layout 9 LayoutRef.label LayoutRef.gtx
  = layout.Align.Layout layout.Direction.NW LayoutRef.label LayoutRef.gtx.
Proof.
  apply (Align_Layout_undeclared 9 LayoutRef.label LayoutRef.gtx).
  unfold layout.Direction.Center. lia.
Defined.
